(** * Manga-to-anime agent: caption timing, progress and subtitle export

    A shallow embedding of [src/pages/index.tsx] (the [Home] component):
    the OCR/timeline/render pipeline ([runAgent], [renderVideo]), the
    subtitle editor ([updateSubtitleText], [updateSubtitleDuration]) and
    the SRT serializer ([exportSrt]).

    Modelling conventions.
    - A JavaScript string is the list of its UTF-16 code units ([N]).
    - A JavaScript Number is an IEEE 754 binary64 value. A finite one is
      modelled by its exact value: a rational ([Q]), or an integer ([Z])
      where the program only ever holds integers (lengths, milliseconds,
      percents). The products, quotients and sums the source computes on
      values that are not bounded by construction are the exact results
      rounded to the nearest double ([binary64]). [NaN] (other than the
      one [parseInt] returns) and the infinities are not represented:
      the model says nothing about magnitudes of [2^1024] and more.
    - Number-to-string conversion ([toString]) writes plain decimal
      digits, which is what JavaScript does below [10^21]; the statements
      that print a number bound it.
    - React state is a record. An asynchronous handler is modelled twice:
      on its own, as a function in a small state-and-rejection monad that
      runs it from the click to its end, and as the steps of a page that
      takes other events while the handler is suspended. *)

From Stdlib Require Import ZArith NArith QArith Qround Qpower List Bool Lia Lqa
  Arith.
From Stdlib Require Import Permutation.
From Stdlib Require SpecFloat.
From Stdlib Require Import Ascii String DecimalString DecimalPos DecimalZ.
From Equations Require Import Equations.
Import ListNotations.

Set Implicit Arguments.
Local Open Scope Z_scope.

(** ** JavaScript primitives used by the page *)

Module JS.

(** A string value: a sequence of UTF-16 code units. *)
Definition jsstring := list N.

(** Embedding of an ASCII literal of the source. *)
Definition str (s : string) : jsstring :=
  List.map N_of_ascii (list_ascii_of_string s).

Definition eqb (a b : jsstring) : bool :=
  if list_eq_dec N.eq_dec a b then true else false.

(** [s.length] *)
Definition length (s : jsstring) : Z := Z.of_nat (List.length s).

Definition LF : N := 10%N.
Definition CR : N := 13%N.

(** The class [\s] of a regular expression, which is also the set that
    [String.prototype.trim] and [parseInt] strip: WhiteSpace and
    LineTerminator code points. *)
Definition isWhiteSpace (c : N) : bool :=
  ((9 <=? c) && (c <=? 13) || (c =? 32) || (c =? 160) || (c =? 5760)
   || (8192 <=? c) && (c <=? 8202) || (c =? 8232) || (c =? 8233)
   || (c =? 8239) || (c =? 8287) || (c =? 12288) || (c =? 65279))%N.

Fixpoint trimStart (s : jsstring) : jsstring :=
  match s with
  | c :: rest => if isWhiteSpace c then trimStart rest else s
  | [] => []
  end.

Definition trimEnd (s : jsstring) : jsstring :=
  rev (trimStart (rev s)).

(** [s.trim()] *)
Definition trim (s : jsstring) : jsstring := trimEnd (trimStart s).

(** *** Numbers *)

(** [2^e] *)
Definition pow2 (e : Z) : Q := (2 ^ e)%Q.

(** For [x > 0], the exponent [k] with [2^k <= x < 2^(k+1)]. *)
Definition Qlog2 (x : Q) : Z :=
  let k := Z.log2 (Qnum x) - Z.log2 (Zpos (Qden x)) in
  if Qle_bool (pow2 k) x then k else k - 1.

(** The nearest integer, a tie going to the even one. *)
Definition roundHalfEven (x : Q) : Z :=
  let n := Qfloor x in
  match (x - inject_Z n ?= 1 # 2)%Q with
  | Lt => n
  | Eq => if Z.even n then n else n + 1
  | Gt => n + 1
  end.

(** The exponent of the last place of the doubles next to [x > 0]: a
    double has 53 significant bits, and the subnormal ones are the
    multiples of [2^-1074]. *)
Definition ulpExp (x : Q) : Z := Z.max (Qlog2 x - 52) (-1074).

Definition roundPositive (x : Q) : Q :=
  let e := ulpExp x in
  (inject_Z (roundHalfEven (x / pow2 e)) * pow2 e)%Q.

(** The Number value for [x]: the double nearest to [x], a tie going to
    the one with an even significand (IEEE 754 roundTiesToEven). *)
Definition binary64 (x : Q) : Q :=
  match (x ?= 0)%Q with
  | Eq => 0%Q
  | Gt => roundPositive x
  | Lt => (- roundPositive (- x))%Q
  end.

(** [a * b] and [a / b] on Numbers. *)
Definition Number_mul (a b : Q) : Q := binary64 (a * b).
Definition Number_div (a b : Q) : Q := binary64 (a / b).

(** The Number value for an integer; it is an integer again. *)
Definition Number_ofInteger (n : Z) : Z := Qfloor (binary64 (inject_Z n)).

(** [a + b] on Numbers that hold integers. *)
Definition Number_add (a b : Z) : Z := Number_ofInteger (a + b).

(** [Number.MAX_SAFE_INTEGER]: up to it every integer is a double and
    the arithmetic above is exact. *)
Definition MAX_SAFE_INTEGER : Z := 2 ^ 53 - 1.

(** [Math.floor] *)
Definition Math_floor (x : Q) : Z := Qfloor x.

(** [Math.round]: the nearest integer, ties towards +infinity. The
    nearest integer of a double is a double, so nothing is rounded
    twice. *)
Definition Math_round (x : Q) : Z := Qfloor (x + (1 # 2)).

(** [n.toString()] and [`${n}`] for an integer [n] of magnitude below
    [10^21] (from there on JavaScript writes an exponent). *)
Definition toString (n : Z) : jsstring :=
  str (NilZero.string_of_int (Z.to_int n)).

(** [s.padStart(w, '0')] *)
Definition padStart (s : jsstring) (w : nat) : jsstring :=
  repeat 48%N (w - List.length s) ++ s.

(** [lines.join('\n')] *)
Fixpoint join (sep : jsstring) (lines : list jsstring) : jsstring :=
  match lines with
  | [] => []
  | [l] => l
  | l :: rest => l ++ sep ++ join sep rest
  end.

End JS.

Import JS.

(** ** Data model (the [type] declarations of the page) *)

(** [UploadedImage]; the [file] handle is opaque to the pipeline and is
    left out. *)
Module UploadedImage.
Record t := mk { id : jsstring; name : jsstring; url : jsstring }.
End UploadedImage.

Module OcrResult.
Record t := mk { imageId : jsstring; text : jsstring }.
End OcrResult.

Module SubtitleItem.
Record t := mk
  { id : jsstring; text : jsstring; durationMs : Z; pageIndex : Z }.
End SubtitleItem.

(** [Array.prototype.forEach((x, idx) => ...)] threading the variables the
    callback mutates. *)
Fixpoint forEachFrom {A St : Type} (f : St -> A -> nat -> St)
    (idx : nat) (l : list A) (s : St) : St :=
  match l with
  | [] => s
  | x :: rest => forEachFrom f (S idx) rest (f s x idx)
  end.

Definition forEach {A St : Type} (f : St -> A -> nat -> St)
    (l : list A) (s : St) : St :=
  forEachFrom f 0 l s.

(** ** Caption segmentation ([runAgent], step 2: [chunks]) *)

Definition isNewline (c : N) : bool := (c =? LF)%N.

(** The class [[.!?]]. *)
Definition isTerminal (c : N) : bool :=
  ((c =? 46) || (c =? 33) || (c =? 63))%N.

(** Length of the longest prefix of [s] whose code units satisfy [p]: what
    a greedy [p+] or [p{2,}] consumes. *)
Fixpoint runLength (p : N -> bool) (s : jsstring) : nat :=
  match s with
  | c :: rest => if p c then S (runLength p rest) else O
  | [] => O
  end.

(** One attempt to match [/\n{2,}|(?<=[.!?])\s+/] exactly at the current
    position: [prev] is the code unit just before it ([None] at the start
    of the input) and [s] the input from it on. The result is the length
    of the match. The first alternative has priority. *)
Definition matchSeparator (prev : option N) (s : jsstring) : option nat :=
  let n := runLength isNewline s in
  if (2 <=? n)%nat then Some n
  else
    match prev with
    | Some b =>
        if isTerminal b then
          let m := runLength isWhiteSpace s in
          if (1 <=? m)%nat then Some m else None
        else None
    | None => None
    end.

(** A value together with the equation that names it, so that the scan
    below can use the result of [matchSeparator] in its termination
    argument. *)
Definition inspect {A : Type} (a : A) : {b : A | a = b} :=
  exist _ a eq_refl.

(** The loop of [String.prototype.split] with that separator: [piece] is
    the substring collected since the end of the last match, and the
    scan resumes right after each match. *)
Equations? splitFrom (prev : option N) (piece : jsstring) (s : jsstring)
    : list jsstring by wf (List.length s) lt :=
  splitFrom prev piece [] := [piece];
  splitFrom prev piece (c :: rest)
    with inspect (matchSeparator prev (c :: rest)) := {
    | exist _ (Some n) _ =>
        piece :: splitFrom (nth_error (c :: rest) (n - 1)) []
                           (skipn n (c :: rest));
    | exist _ None _ => splitFrom (Some c) (piece ++ [c]) rest }.
Proof.
  assert (Hn : (1 <= n)%nat).
  { unfold matchSeparator in e.
    destruct (2 <=? runLength isNewline (c :: rest))%nat eqn:E2.
    - apply Nat.leb_le in E2. injection e as e.
      change (runLength isNewline (c :: rest) = n) in e. lia.
    - destruct prev as [b|]; [|discriminate].
      destruct (isTerminal b); [|discriminate].
      destruct (1 <=? runLength isWhiteSpace (c :: rest))%nat eqn:E1;
        [|discriminate].
      apply Nat.leb_le in E1. injection e as e.
      change (runLength isWhiteSpace (c :: rest) = n) in e. lia. }
  destruct n as [|k]; [lia|]. simpl.
  rewrite length_skipn. lia.
Qed.

(** [text.split(/\n{2,}|(?<=[.!?])\s+/)] *)
Definition split (s : jsstring) : list jsstring := splitFrom None [] s.

(** [text.replace(/\r/g, '')] *)
Definition stripCR (s : jsstring) : jsstring :=
  filter (fun c => negb (c =? CR)%N) s.

(** [Boolean(s)] for a string: true unless it is empty. *)
Definition truthy (s : jsstring) : bool :=
  match s with [] => false | _ => true end.

(** The [chunks] of one page's recognized text. *)
Definition chunks (text : jsstring) : list jsstring :=
  filter truthy (List.map trim (split (stripCR text))).

(** ** Caption duration ([durationMs], about 60 ms per code unit) *)

Definition chunkDurationMs (chunk : jsstring) : Z :=
  let len := JS.length chunk in
  Z.max 1500 (Z.min 7000 (Math_round (inject_Z (60 * len)))).

(** ** Timeline construction ([runAgent], step 2: [subs]) *)

(** [subs.push({ id: `${r.imageId}-${subs.length}`, text: chunk,
    durationMs, pageIndex })] *)
Definition pushChunk (r : OcrResult.t) (pageIndex : nat)
    (subs : list SubtitleItem.t) (chunk : jsstring) : list SubtitleItem.t :=
  subs ++
  [ SubtitleItem.mk
      (OcrResult.imageId r ++ str "-"
         ++ toString (Z.of_nat (List.length subs)))
      chunk (chunkDurationMs chunk) (Z.of_nat pageIndex) ].

(** The body of [results.forEach((r, pageIndex) => ...)]. *)
Definition pushPage (subs : list SubtitleItem.t) (r : OcrResult.t)
    (pageIndex : nat) : list SubtitleItem.t :=
  fold_left (pushChunk r pageIndex) (chunks (OcrResult.text r)) subs.

(** [subs.push({ id: `${img.id}-fallback`, text: `Page ${idx + 1}`,
    durationMs: 2000, pageIndex: idx })] *)
Definition pushFallback (subs : list SubtitleItem.t) (img : UploadedImage.t)
    (idx : nat) : list SubtitleItem.t :=
  subs ++
  [ SubtitleItem.mk
      (UploadedImage.id img ++ str "-fallback")
      (str "Page " ++ toString (Z.of_nat idx + 1))
      2000 (Z.of_nat idx) ].

(** The value of [subs] handed to [setSubtitles]. *)
Definition buildSubtitles (images : list UploadedImage.t)
    (results : list OcrResult.t) : list SubtitleItem.t :=
  let subs := forEach pushPage results [] in
  if (List.length subs =? 0)%nat then forEach pushFallback images subs
  else subs.

(** ** Component state (the [useState] cells of [Home]) *)

Inductive Resolution := R720p | R1080p.

Record State := mkState
  { images : list UploadedImage.t;
    isProcessing : bool;
    ocrResults : list OcrResult.t;
    subtitles : list SubtitleItem.t;
    agentStep : Z;
    agentLabel : jsstring;
    videoUrl : option jsstring;
    bgmEnabled : bool;
    fps : Z;
    resolution : Resolution }.

Definition initialState : State :=
  mkState [] false [] [] 0 (str "Idle") None true 30 R720p.

Definition withImages v (s : State) :=
  mkState v (isProcessing s) (ocrResults s) (subtitles s) (agentStep s)
    (agentLabel s) (videoUrl s) (bgmEnabled s) (fps s) (resolution s).
Definition withIsProcessing v (s : State) :=
  mkState (images s) v (ocrResults s) (subtitles s) (agentStep s)
    (agentLabel s) (videoUrl s) (bgmEnabled s) (fps s) (resolution s).
Definition withOcrResults v (s : State) :=
  mkState (images s) (isProcessing s) v (subtitles s) (agentStep s)
    (agentLabel s) (videoUrl s) (bgmEnabled s) (fps s) (resolution s).
Definition withSubtitles v (s : State) :=
  mkState (images s) (isProcessing s) (ocrResults s) v (agentStep s)
    (agentLabel s) (videoUrl s) (bgmEnabled s) (fps s) (resolution s).
Definition withAgentStep v (s : State) :=
  mkState (images s) (isProcessing s) (ocrResults s) (subtitles s) v
    (agentLabel s) (videoUrl s) (bgmEnabled s) (fps s) (resolution s).
Definition withAgentLabel v (s : State) :=
  mkState (images s) (isProcessing s) (ocrResults s) (subtitles s)
    (agentStep s) v (videoUrl s) (bgmEnabled s) (fps s) (resolution s).
Definition withVideoUrl v (s : State) :=
  mkState (images s) (isProcessing s) (ocrResults s) (subtitles s)
    (agentStep s) (agentLabel s) v (bgmEnabled s) (fps s) (resolution s).
Definition withBgmEnabled v (s : State) :=
  mkState (images s) (isProcessing s) (ocrResults s) (subtitles s)
    (agentStep s) (agentLabel s) (videoUrl s) v (fps s) (resolution s).
Definition withFps v (s : State) :=
  mkState (images s) (isProcessing s) (ocrResults s) (subtitles s)
    (agentStep s) (agentLabel s) (videoUrl s) (bgmEnabled s) v (resolution s).
Definition withResolution v (s : State) :=
  mkState (images s) (isProcessing s) (ocrResults s) (subtitles s)
    (agentStep s) (agentLabel s) (videoUrl s) (bgmEnabled s) (fps s) v.

(** ** Asynchronous handlers: state, displayed percents, rejection *)

(** How a promise settles. *)
Inductive Settled (A : Type) :=
| Resolved (a : A)
| Rejected (reason : jsstring).
Arguments Resolved {A} a.
Arguments Rejected {A} reason.

(** An [async] computation over the component state. Besides the final
    state it yields the successive values passed to [setAgentStep], that
    is, the percents [AgentProgress] displays, oldest first (when React
    coalesces updates, what is painted is a subsequence of them). A
    rejection abandons the rest of the function and reaches its caller. *)
Definition Async (A : Type) : Type := State -> Settled A * State * list Z.

Definition ret {A} (a : A) : Async A := fun s => (Resolved a, s, []).

Definition bind {A B} (m : Async A) (k : A -> Async B) : Async B :=
  fun s =>
    match m s with
    | (Resolved a, s1, shown1) =>
        let '(r, s2, shown2) := k a s1 in (r, s2, shown1 ++ shown2)
    | (Rejected e, s1, shown1) => (Rejected e, s1, shown1)
    end.

Notation "x <- m ;; k" := (bind m (fun x => k))
  (at level 61, m at next level, right associativity).
Notation "m ;; k" := (bind m (fun _ => k))
  (at level 61, right associativity).

Definition update (f : State -> State) : Async unit :=
  fun s => (Resolved tt, f s, []).

Definition setIsProcessing v := update (withIsProcessing v).
Definition setOcrResults v := update (withOcrResults v).
Definition setSubtitles v := update (withSubtitles v).
Definition setAgentLabel v := update (withAgentLabel v).
Definition setVideoUrl v := update (withVideoUrl v).
Definition setAgentStep (v : Z) : Async unit :=
  fun s => (Resolved tt, withAgentStep v s, [v]).

(** ** External collaborators *)

(** What one call of a collaborator does, as seen by the page: the
    fractions it passes to the progress callback, in order, and then how
    its promise settles. *)
Record Call (A : Type) := mkCall
  { reports : list Q; settles : Settled A }.

Fixpoint notify (onProgress : Q -> Async unit) (fractions : list Q)
    : Async unit :=
  match fractions with
  | [] => ret tt
  | p :: rest => onProgress p ;; notify onProgress rest
  end.

Definition await {A} (c : Call A) (onProgress : Q -> Async unit)
    : Async A :=
  notify onProgress (reports c) ;;
  (fun s => (settles c, s, [])).

(** [{ id, url, name }], the argument of the OCR service. *)
Definition OcrInput := list (jsstring * jsstring * jsstring).

(** [recognizeOcrForImages] of [@/src/lib/ocr], a black box here: any
    function of its input. *)
Definition OcrService := OcrInput -> Call (list OcrResult.t).

Record RenderRequest := mkRenderRequest
  { pages : list (jsstring * jsstring);
    req_subtitles : list SubtitleItem.t;
    width : Z;
    height : Z;
    req_fps : Z;
    synthBgm : bool }.

(** [renderAnimeToVideo] of [@/src/lib/render], a black box here: any
    function of its request. *)
Definition RenderService := RenderRequest -> Call jsstring.

(** [await new Promise(r => setTimeout(r, 600))]: the timer always fires
    and touches no state; elapsed time is not modelled. *)
Definition planningPause : Async unit := ret tt.

(** ** The pipeline *)

(** [images.map(i => ({ id: i.id, url: i.url, name: i.name }))] *)
Definition ocrInput (images : list UploadedImage.t) : OcrInput :=
  List.map (fun i => (UploadedImage.id i, UploadedImage.url i,
                      UploadedImage.name i)) images.

(** The argument object of [renderAnimeToVideo], without its callback. *)
Definition renderRequest (s : State) : RenderRequest :=
  let dim :=
    match resolution s with
    | R1080p => (1920, 1080)
    | R720p => (1280, 720)
    end in
  mkRenderRequest
    (List.map (fun i => (UploadedImage.id i, UploadedImage.url i))
              (images s))
    (subtitles s) (fst dim) (snd dim) (fps s) (bgmEnabled s).

Definition runAgent (recognizeOcrForImages : OcrService) : Async unit :=
  fun s0 =>
  let images := images s0 in
  (if (List.length images =? 0)%nat then ret tt
   else
     setIsProcessing true ;;
     setAgentStep 0 ;;
     setAgentLabel (str "Analyzing pages with OCR") ;;
     (* Step 1: OCR *)
     results <-
       await
         (recognizeOcrForImages (ocrInput images))
         (fun progress =>
            setAgentStep (Math_round (Number_mul progress 25))) ;;
     setOcrResults results ;;
     (* Step 2: build editable subtitles from OCR *)
     setAgentLabel (str "Building screenplay") ;;
     setSubtitles (buildSubtitles images results) ;;
     setAgentStep 50 ;;
     (* Step 3: simulate planning camera motions *)
     setAgentLabel (str "Planning camera motions") ;;
     planningPause ;;
     setAgentStep 65 ;;
     (* Step 4: ready to render *)
     setAgentLabel (str "Ready to render") ;;
     setIsProcessing false) s0.

Definition renderVideo (renderAnimeToVideo : RenderService) : Async unit :=
  fun s0 =>
  let images := images s0 in
  let subtitles := subtitles s0 in
  (if (List.length images =? 0)%nat || (List.length subtitles =? 0)%nat
   then ret tt
   else
     setIsProcessing true ;;
     setAgentLabel (str "Rendering animation to video") ;;
     setAgentStep 70 ;;
     url <-
       await
         (renderAnimeToVideo (renderRequest s0))
         (fun p =>
            setAgentStep (Number_add 70 (Math_round (Number_mul 30 p)))) ;;
     setVideoUrl (Some url) ;;
     setIsProcessing false ;;
     setAgentLabel (str "Completed") ;;
     setAgentStep 100) s0.

(** ** Subtitle export ([exportSrt]) *)

(** [pad(n, w = 2)] *)
Definition pad (n : Z) : jsstring := padStart (toString n) 2.

(** [fmt(ms)] for a Number [ms] that holds an integer. [%] is the
    truncating remainder, which is exact on doubles; the remainder
    [ms % 1000] is an integer, of which [Math.floor] is the identity. *)
Definition fmt (ms : Z) : jsstring :=
  let h := Math_floor (Number_div (inject_Z ms) 3600000) in
  let m := Math_floor (Number_div (inject_Z (Z.rem ms 3600000)) 60000) in
  let sec := Math_floor (Number_div (inject_Z (Z.rem ms 60000)) 1000) in
  let cs := Z.rem ms 1000 in
  pad h ++ str ":" ++ pad m ++ str ":" ++ pad sec ++ str ","
    ++ padStart (toString cs) 3.

(** The body of [subtitles.forEach((s, idx) => ...)], on the pair of the
    variables it mutates: [lines] and the running time [t]. *)
Definition pushEntry (acc : list jsstring * Z) (s : SubtitleItem.t)
    (idx : nat) : list jsstring * Z :=
  let '(lines, t) := acc in
  let start := t in
  let end_ := Number_add t (SubtitleItem.durationMs s) in
  (lines ++ [ toString (Z.of_nat idx + 1);
              fmt start ++ str " --> " ++ fmt end_;
              SubtitleItem.text s;
              [] ],
   end_).

Definition srtLines (subtitles : list SubtitleItem.t) : list jsstring :=
  fst (forEach pushEntry subtitles ([], 0)).

(** The text of the downloaded [subtitles.srt]. *)
Definition exportSrt (s : State) : jsstring :=
  join [LF] (srtLines (subtitles s)).

(** ** Subtitle edits *)

Definition updateSubtitleText (id text : jsstring) (s : State) : State :=
  withSubtitles
    (List.map (fun u =>
       if JS.eqb (SubtitleItem.id u) id
       then SubtitleItem.mk (SubtitleItem.id u) text
              (SubtitleItem.durationMs u) (SubtitleItem.pageIndex u)
       else u) (subtitles s)) s.

Definition updateSubtitleDuration (id : jsstring) (durationMs : Z)
    (s : State) : State :=
  withSubtitles
    (List.map (fun u =>
       if JS.eqb (SubtitleItem.id u) id
       then SubtitleItem.mk (SubtitleItem.id u) (SubtitleItem.text u)
              durationMs (SubtitleItem.pageIndex u)
       else u) (subtitles s)) s.

(** [parseInt(value)] without a radix; [None] is [NaN]. *)
Module ParseInt.

(** The value of a code unit as a digit, letters counting from 10. *)
Definition digitValue (c : N) : option Z :=
  if ((48 <=? c) && (c <=? 57))%N then Some (Z.of_N c - 48)
  else if ((97 <=? c) && (c <=? 122))%N then Some (Z.of_N c - 87)
  else if ((65 <=? c) && (c <=? 90))%N then Some (Z.of_N c - 55)
  else None.

(** The longest prefix of digits of radix [R], read left to right:
    [acc] is the value so far and [seen] tells whether a digit was
    read. *)
Fixpoint digits (R : Z) (acc : Z) (seen : bool) (s : jsstring)
    : option Z :=
  match s with
  | c :: rest =>
      match digitValue c with
      | Some d =>
          if d <? R then digits R (acc * R + d) true rest
          else if seen then Some acc else None
      | None => if seen then Some acc else None
      end
  | [] => if seen then Some acc else None
  end.

Definition unsigned (s : jsstring) : option Z :=
  match s with
  | 48%N :: x :: rest =>
      if ((x =? 120) || (x =? 88))%N then digits 16 0 false rest
      else digits 10 0 false s
  | _ => digits 10 0 false s
  end.

(** The integer the numeral denotes, with its sign. *)
Definition mathInt (value : jsstring) : option Z :=
  match trimStart value with
  | 45%N :: rest => option_map Z.opp (unsigned rest)
  | 43%N :: rest => unsigned rest
  | s => unsigned s
  end.

(** The result is the Number value for that integer. (For a decimal
    numeral of more than 20 significant digits JavaScript leaves the
    choice among nearby doubles to the implementation.) *)
Definition parseInt (value : jsstring) : option Z :=
  option_map Number_ofInteger (mathInt value).

End ParseInt.
Import ParseInt.

(** [n || 0]: [NaN] and zero give 0. *)
Definition orZero (n : option Z) : Z :=
  match n with Some v => v | None => 0 end.

(** The [onChange] handler of a duration field (the only caller of
    [updateSubtitleDuration]). *)
Definition onDurationChange (id value : jsstring) (s : State) : State :=
  updateSubtitleDuration id (Z.max 500 (orZero (parseInt value))) s.

(** ** The page as a whole: user events *)

(** [onFilesSelected]. The array [items] it builds from the chosen files
    (image files only, sorted by name) is an input here; [None] is a
    null [FileList]. *)
Definition onFilesSelected (items : option (list UploadedImage.t))
    (s : State) : State :=
  match items with
  | None => s
  | Some items =>
      withVideoUrl None
        (withSubtitles [] (withOcrResults [] (withImages items s)))
  end.

(** The [onClick] of the Reset button. *)
Definition onReset (s : State) : State :=
  withVideoUrl None (withSubtitles [] (withOcrResults [] (withImages [] s))).

(** The three [option]s of the frame-rate [select]. *)
Inductive FpsOption := Fps24 | Fps30 | Fps60.

(** [parseInt(e.target.value)] for each of them. *)
Definition fpsValue (o : FpsOption) : Z :=
  match o with Fps24 => 24 | Fps30 => 30 | Fps60 => 60 end.

Inductive Event :=
| FilesSelected (items : option (list UploadedImage.t))
| ClickReset
| ClickRunAgent (ocr : OcrService)
| ClickRenderVideo (render : RenderService)
| EditText (id value : jsstring)
| EditDuration (id value : jsstring)
| SelectFps (o : FpsOption)
| SelectResolution (r : Resolution)
| ToggleBgm (checked : bool).

(** One event, with the [disabled] and conditional-rendering guards of the
    markup: a disabled or absent control delivers nothing. For the two
    asynchronous handlers the event carries what the collaborator does
    during that call, and the handler runs to its end before the next
    event is taken: [handle] and [session] describe the page used one
    operation at a time. What the page does when an event arrives while
    a handler is suspended is described by [step] and [run] below, of
    which the sessions are particular runs ([session_run]). *)
Definition handle (s : State) (e : Event) : State :=
  match e with
  | FilesSelected items => onFilesSelected items s
  | ClickReset => if isProcessing s then s else onReset s
  | ClickRunAgent ocr =>
      if isProcessing s || (List.length (images s) =? 0)%nat then s
      else snd (fst (runAgent ocr s))
  | ClickRenderVideo render =>
      if (List.length (subtitles s) =? 0)%nat || isProcessing s then s
      else snd (fst (renderVideo render s))
  | EditText id value =>
      if (List.length (subtitles s) =? 0)%nat then s
      else updateSubtitleText id value s
  | EditDuration id value =>
      if (List.length (subtitles s) =? 0)%nat then s
      else onDurationChange id value s
  | SelectFps o =>
      if (List.length (subtitles s) =? 0)%nat then s
      else withFps (fpsValue o) s
  | SelectResolution r =>
      if (List.length (subtitles s) =? 0)%nat then s
      else withResolution r s
  | ToggleBgm checked =>
      if (List.length (subtitles s) =? 0)%nat then s
      else withBgmEnabled checked s
  end.

Definition session (events : list Event) : State :=
  fold_left handle events initialState.

(** ** A reader for the exported document *)

(** Modelled from the spec: the reader of the numbered, timestamped block
    format with which the export is to be read back; the page itself only
    writes such documents. Blocks are separated by blank lines, each made
    of a sequence number, a timing line and the text lines. *)
Module SrtReader.

(** The pieces of [s] between occurrences of the code unit [c]. *)
Fixpoint splitOn (c : N) (s : jsstring) : list jsstring :=
  match s with
  | [] => [[]]
  | x :: rest =>
      if (x =? c)%N then [] :: splitOn c rest
      else
        match splitOn c rest with
        | piece :: pieces => (x :: piece) :: pieces
        | [] => [[x]]
        end
  end.

(** An unsigned decimal numeral, read digit by digit. *)
Definition digitStep (acc : option Z) (c : N) : option Z :=
  match acc with
  | Some v =>
      if ((48 <=? c) && (c <=? 57))%N
      then Some (10 * v + (Z.of_N c - 48))
      else None
  | None => None
  end.

Definition number (s : jsstring) : option Z :=
  match s with
  | [] => None
  | _ => fold_left digitStep s (Some 0)
  end.

(** [H..H:MM:SS,mmm] as milliseconds. *)
Definition timestamp (s : jsstring) : option Z :=
  match splitOn 58 s with
  | [h; m; rest] =>
      match splitOn 44 rest with
      | [sec; ms] =>
          match number h, number m, number sec, number ms with
          | Some vh, Some vm, Some vsec, Some vms =>
              if (List.length m =? 2)%nat && (List.length sec =? 2)%nat
                 && (List.length ms =? 3)%nat
                 && (vm <? 60) && (vsec <? 60)
              then Some (((vh * 60 + vm) * 60 + vsec) * 1000 + vms)
              else None
          | _, _, _, _ => None
          end
      | _ => None
      end
  | _ => None
  end.

(** [start --> end] *)
Definition timing (line : jsstring) : option (Z * Z) :=
  match splitOn 32 line with
  | [a; arrow; b] =>
      if JS.eqb arrow (str "-->") then
        match timestamp a, timestamp b with
        | Some s, Some e => Some (s, e)
        | _, _ => None
        end
      else None
  | _ => None
  end.

Definition Cue : Type := Z * Z * jsstring.

Inductive Expect :=
| Index
| Timing
| Text (start end_ : Z) (textLines : list jsstring).

Fixpoint blocks (st : Expect) (acc : list Cue) (lines : list jsstring)
    : option (list Cue) :=
  match lines with
  | [] =>
      match st with
      | Index => Some (rev acc)
      | Timing => None
      | Text s e t => Some (rev ((s, e, join [LF] (rev t)) :: acc))
      end
  | l :: rest =>
      match st with
      | Index =>
          if truthy l then
            match number l with
            | Some _ => blocks Timing acc rest
            | None => None
            end
          else blocks Index acc rest
      | Timing =>
          match timing l with
          | Some (s, e) => blocks (Text s e []) acc rest
          | None => None
          end
      | Text s e t =>
          if truthy l then blocks (Text s e (l :: t)) acc rest
          else blocks Index ((s, e, join [LF] (rev t)) :: acc) rest
      end
  end.

Definition parseSrt (doc : jsstring) : option (list Cue) :=
  blocks Index [] (splitOn LF doc).

End SrtReader.

(** The specification's side of the export, in exact arithmetic. *)

(** The (start, end, text) triples the specification assigns to a caption
    list: each caption starts when the previous one ends, the first at 0,
    with [end = start + durationMs] in the integers. *)
Fixpoint cuesFrom (runningTime : Z) (subtitles : list SubtitleItem.t)
    : list SrtReader.Cue :=
  match subtitles with
  | [] => []
  | s :: rest =>
      let start := runningTime in
      let end_ := start + SubtitleItem.durationMs s in
      (start, end_, SubtitleItem.text s) :: cuesFrom end_ rest
  end.

Definition cues (subtitles : list SubtitleItem.t) : list SrtReader.Cue :=
  cuesFrom 0 subtitles.

(** ** Reference definitions used in the statements *)

(** The percent put on display by a report during recognition and during
    rendering (the bodies of the two progress callbacks). *)
Definition ocrPercent (progress : Q) : Z :=
  Math_round (Number_mul progress 25).
Definition renderPercent (p : Q) : Z :=
  Number_add 70 (Math_round (Number_mul 30 p)).

(** The value of a finite double of the Standard Library's specification
    of IEEE 754 arithmetic ([SpecFloat]), against which [binary64] is
    checked on sample values. *)
Definition valueOf (x : SpecFloat.spec_float) : Q :=
  match x with
  | SpecFloat.S754_finite sign m e =>
      ((if sign then -1 else 1) * inject_Z (Zpos m) * pow2 e)%Q
  | _ => 0%Q
  end.

(** The percents of the specification's formulas, [round(25 * fraction)]
    and [70 + round(30 * fraction)], in exact arithmetic. *)
Definition exactOcrPercent (fraction : Q) : Z := Math_round (25 * fraction).
Definition exactRenderPercent (fraction : Q) : Z :=
  70 + Math_round (30 * fraction).

(** The timestamp [HH:MM:SS,mmm] of the specification for a time in
    milliseconds, in exact arithmetic. *)
Definition clock (ms : Z) : jsstring :=
  let h := ms / 3600000 in
  let m := Z.rem ms 3600000 / 60000 in
  let sec := Z.rem ms 60000 / 1000 in
  let cs := Z.rem ms 1000 in
  pad h ++ str ":" ++ pad m ++ str ":" ++ pad sec ++ str ","
    ++ padStart (toString cs) 3.

(** The percents are displayed in non-decreasing order. *)
Fixpoint nondecreasing (l : list Z) : Prop :=
  match l with
  | [] => True
  | x :: rest =>
      match rest with
      | [] => True
      | y :: _ => x <= y /\ nondecreasing rest
      end
  end.

(** The contract of a progress callback: fractions in [[0, 1]] that never
    decrease. *)
Definition inUnit (p : Q) : Prop := (0 <= p)%Q /\ (p <= 1)%Q.

Fixpoint ascending (l : list Q) : Prop :=
  match l with
  | [] => True
  | p :: rest =>
      match rest with
      | [] => True
      | q :: _ => (p <= q)%Q /\ ascending rest
      end
  end.

(** The chunks of all pages in page order, each with the result and the
    index of the page it comes from. *)
Fixpoint segmentedFrom (pageIndex : nat) (results : list OcrResult.t)
    : list (OcrResult.t * nat * jsstring) :=
  match results with
  | [] => []
  | r :: rest =>
      List.map (fun chunk => (r, pageIndex, chunk)) (chunks (OcrResult.text r))
      ++ segmentedFrom (S pageIndex) rest
  end.

(** Captions for such chunks, numbered consecutively from [k] across
    pages. *)
Fixpoint numberFrom (k : nat) (l : list (OcrResult.t * nat * jsstring))
    : list SubtitleItem.t :=
  match l with
  | [] => []
  | (r, pageIndex, chunk) :: rest =>
      SubtitleItem.mk
        (OcrResult.imageId r ++ str "-" ++ toString (Z.of_nat k))
        chunk (chunkDurationMs chunk) (Z.of_nat pageIndex)
      :: numberFrom (S k) rest
  end.

(** One placeholder caption per page, pages counted from [idx]. *)
Fixpoint fallbackFrom (idx : nat) (images : list UploadedImage.t)
    : list SubtitleItem.t :=
  match images with
  | [] => []
  | img :: rest =>
      SubtitleItem.mk (UploadedImage.id img ++ str "-fallback")
        (str "Page " ++ toString (Z.of_nat idx + 1)) 2000 (Z.of_nat idx)
      :: fallbackFrom (S idx) rest
  end.

(** The 0-based position of the caption at position [k] among the
    captions of its own page. *)
Definition indexWithinPage (subs : list SubtitleItem.t) (k : nat) : nat :=
  match nth_error subs k with
  | Some u =>
      List.length
        (filter (fun v => SubtitleItem.pageIndex v =? SubtitleItem.pageIndex u)
                (firstn k subs))
  | None => 0
  end.

(** The four lines the specification prescribes for each cue, numbered
    from [seq]. *)
Fixpoint entriesFrom (seq : nat) (cs : list SrtReader.Cue)
    : list jsstring :=
  match cs with
  | [] => []
  | (start, end_, text) :: rest =>
      [ toString (Z.of_nat seq);
        clock start ++ str " --> " ++ clock end_;
        text;
        [] ]
      ++ entriesFrom (S seq) rest
  end.

(** The sum of the durations of a caption list. *)
Definition totalMs (subtitles : list SubtitleItem.t) : Z :=
  fold_right (fun u acc => SubtitleItem.durationMs u + acc) 0 subtitles.

(** A caption list whose running time stays a safe integer: no duration
    is negative and they add up to [MAX_SAFE_INTEGER] at most. *)
Definition safeTimeline (subtitles : list SubtitleItem.t) : Prop :=
  Forall (fun u => 0 <= SubtitleItem.durationMs u) subtitles
  /\ totalMs subtitles <= MAX_SAFE_INTEGER.

(** A string of decimal digits. *)
Definition allDigits (s : jsstring) : Prop :=
  forallb (fun c => (48 <=? c) && (c <=? 57))%N s = true.

(** A caption text that survives the block format: it is empty or none
    of its lines is. *)
Definition readable (text : jsstring) : Prop :=
  text = [] \/ Forall (fun line => line <> []) (SrtReader.splitOn LF text).

Definition wellFormedCue (c : SrtReader.Cue) : Prop :=
  let '(start, end_, text) := c in 0 <= start /\ 0 <= end_ /\ readable text.

(** A caption the export keeps intact. *)
Definition exportable (u : SubtitleItem.t) : Prop :=
  0 <= SubtitleItem.durationMs u /\ readable (SubtitleItem.text u).

(** The document of the specification's example. *)
Definition exampleDocument : jsstring :=
  str "1" ++ [LF] ++ str "00:00:00,000 --> 00:00:01,500" ++ [LF]
  ++ str "A" ++ [LF] ++ [LF]
  ++ str "2" ++ [LF] ++ str "00:00:01,500 --> 00:00:03,500" ++ [LF]
  ++ str "B" ++ [LF].

(** A string made of white space only. *)
Definition blank (s : jsstring) : Prop := forallb isWhiteSpace s = true.

(** A string that neither starts nor ends with white space. *)
Definition isTrimmed (s : jsstring) : Prop :=
  match s with
  | [] => True
  | c :: _ => isWhiteSpace c = false /\ isWhiteSpace (last s c) = false
  end.

(** A place where the separator pattern applies: a newline followed by a
    newline, or a sentence terminator followed by white space. *)
Definition splitPoint (a b : N) : bool :=
  isNewline a && isNewline b || isTerminal a && isWhiteSpace b.

Fixpoint hasSplitPoint (s : jsstring) : bool :=
  match s with
  | a :: rest =>
      match rest with
      | b :: _ => splitPoint a b || hasSplitPoint rest
      | [] => false
      end
  | [] => false
  end.

(** [follows b cs s]: [s] is what comes after a chunk ending in [b]; the
    chunks [cs] occur in [s] in this order, without overlap, and everything
    else in [s] is white space; and before each chunk the text has a split
    point, at the end of the previous chunk or in the white space. *)
Inductive follows (b : N) : list jsstring -> jsstring -> Prop :=
| follows_nil gap : blank gap -> follows b [] gap
| follows_cons gap c cs rest :
    blank gap -> hasSplitPoint (b :: gap) = true -> c <> [] ->
    follows (last c b) cs rest ->
    follows b (c :: cs) (gap ++ c ++ rest).

(** [covers cs s]: the same for a whole text. *)
Inductive covers : list jsstring -> jsstring -> Prop :=
| covers_nil gap : blank gap -> covers [] gap
| covers_cons gap c cs rest :
    blank gap -> c <> [] -> follows (last c 0%N) cs rest ->
    covers (c :: cs) (gap ++ c ++ rest).

(** [tiles ps s]: [s] is the pieces [ps] in this order with a blank
    separator after each piece but the last; no piece has a split point,
    and each piece with its separator has one. *)
Inductive tiles : list jsstring -> jsstring -> Prop :=
| tiles_one p : hasSplitPoint p = false -> tiles [p] p
| tiles_cons p sep ps rest :
    hasSplitPoint p = false -> blank sep ->
    hasSplitPoint (p ++ sep) = true -> tiles ps rest ->
    tiles (p :: ps) (p ++ sep ++ rest).

(** What the scan knows about the piece under construction: it has no
    split point; [prev] is its last code unit, or, at the start of a piece,
    not a terminator; and a final newline is not followed by a newline. *)
Definition scanning (prev : option N) (piece s : jsstring) : Prop :=
  hasSplitPoint piece = false
  /\ (piece <> [] -> prev = Some (last piece 0%N))
  /\ (piece = [] -> forall b, prev = Some b -> isTerminal b = false)
  /\ (forall b x, prev = Some b -> piece <> [] -> hd_error s = Some x ->
      isNewline b = true -> isNewline x = false).

(** The invariant on caption durations. *)
Definition floorHolds (s : State) : Prop :=
  Forall (fun u => 500 <= SubtitleItem.durationMs u) (subtitles s).

(** [lo <= x1 <= x2 <= ... <= xn <= hi] *)
Fixpoint chain (lo hi : Z) (l : list Z) : Prop :=
  match l with
  | [] => lo <= hi
  | x :: rest => lo <= x /\ chain x hi rest
  end.

(** Sample data for the examples. *)
Definition page1 : UploadedImage.t :=
  UploadedImage.mk (str "1700000000000-0") (str "page-1.png") (str "blob:1").
Definition page2 : UploadedImage.t :=
  UploadedImage.mk (str "1700000000000-1") (str "page-2.png") (str "blob:2").
Definition page3 : UploadedImage.t :=
  UploadedImage.mk (str "1700000000000-2") (str "page-3.png") (str "blob:3").

Definition captionA : SubtitleItem.t :=
  SubtitleItem.mk (str "a") (str "A") 1500 0.
Definition captionB : SubtitleItem.t :=
  SubtitleItem.mk (str "b") (str "B") 2000 0.

(** Collaborators for the examples: an OCR service that reports
    completion and then an earlier fraction before resolving with no
    text, one that rejects, and a renderer that rejects. *)
Definition regressingOcr : OcrService :=
  fun input =>
    mkCall [1; 0]%Q
      (Resolved (List.map (fun '(id, _, _) => OcrResult.mk id []) input)).

Definition failingOcr : OcrService :=
  fun _ => mkCall [1 # 2]%Q (Rejected (str "ocr failed")).

Definition failingRender : RenderService :=
  fun _ => mkCall [] (Rejected (str "render failed")).

Definition steadyOcr (texts : list jsstring) : OcrService :=
  fun input =>
    mkCall [0; binary64 (4 # 10); 1]%Q
      (Resolved
         (List.map (fun '((id, _, _), text) => OcrResult.mk id text)
                   (combine input texts))).

(** OCR results for the examples. *)
Definition resultsHiHi : list OcrResult.t :=
  [ OcrResult.mk (UploadedImage.id page1) (str "Hi.");
    OcrResult.mk (UploadedImage.id page2) (str "Hi.") ].

Definition resultsEndToEnd : list OcrResult.t :=
  [ OcrResult.mk (UploadedImage.id page1) (str "Hello world.");
    OcrResult.mk (UploadedImage.id page2) [];
    OcrResult.mk (UploadedImage.id page3)
      (str "Line one." ++ [LF; LF] ++ str "Line two.") ].

Definition steadyRender : RenderService :=
  fun _ => mkCall [1 # 2; 1]%Q (Resolved (str "blob:video")).

(** Collaborators that report the Numbers [0.3] and [0.15]. *)
Definition threeTenthsOcr : OcrService :=
  fun _ => mkCall [binary64 (3 # 10)] (Resolved []).

Definition threeTwentiethsRender : RenderService :=
  fun _ => mkCall [binary64 (15 # 100)] (Resolved (str "blob:video")).

(** The state once one page has been chosen. *)
Definition loaded : State := onFilesSelected (Some [page1]) initialState.

(** A state in which two captions are being edited. *)
Definition editing : State :=
  mkState [page1] false [] [captionA; captionB] 65 (str "Ready to render")
    None true 30 R720p.

(** The clamp of the specification: [x] forced into [[lo, hi]]. *)
Definition clamp (lo hi x : Z) : Z :=
  if x <? lo then lo else if hi <? x then hi else x.

(** The character count of the specification: the number of characters
    (code points) of a string, a high surrogate followed by a low one
    being one character. *)
Definition isHighSurrogate (c : N) : bool := ((55296 <=? c) && (c <=? 56319))%N.
Definition isLowSurrogate (c : N) : bool := ((56320 <=? c) && (c <=? 57343))%N.

Fixpoint characterCount (s : jsstring) : nat :=
  match s with
  | [] => O
  | c :: rest =>
      match rest with
      | d :: rest' =>
          if isHighSurrogate c && isLowSurrogate d
          then S (characterCount rest')
          else S (characterCount rest)
      | [] => 1%nat
      end
  end.

(** Thirty times the character U+1F600 (sixty code units) and forty
    times the letter a. *)
Definition thirtyFaces : jsstring :=
  List.concat (repeat [55357%N; 56832%N] 30).
Definition fortyLetters : jsstring := repeat 97%N 40.

(** ** The rest of the page *)

(** *** File selection ([onFilesSelected]) *)

(** A [File] as the handler uses it. *)
Module FileEntry.
Record t := mk { name : jsstring; type : jsstring; size : Z }.
End FileEntry.

(** What the environment answers while one file is visited: [Date.now()]
    and [URL.createObjectURL(file)]. *)
Record Visit := mkVisit { now : Z; objectUrl : jsstring }.

(** [s.startsWith(prefix)] *)
Definition startsWith (s prefix : jsstring) : bool :=
  JS.eqb (firstn (List.length prefix) s) prefix.

(** The body of [Array.from(files).forEach((file, idx) => ...)]. *)
Definition pushItem (items : list UploadedImage.t)
    (fv : FileEntry.t * Visit) (idx : nat) : list UploadedImage.t :=
  let (file, visit) := fv in
  if negb (startsWith (FileEntry.type file) (str "image/")) then items
  else
    items ++
    [ UploadedImage.mk
        (toString (now visit) ++ str "-" ++ toString (Z.of_nat idx))
        (FileEntry.name file) (objectUrl visit) ].

(** The array [items] before it is sorted. *)
Definition collectItems (files : list (FileEntry.t * Visit))
    : list UploadedImage.t :=
  forEach pushItem files [].

(** [items.sort(...)] compares names by the locale's collation, which is
    not modelled: [sorted] is any rearrangement of the collected items. *)
Definition sortedItems (files : list (FileEntry.t * Visit))
    (sorted : list UploadedImage.t) : Prop :=
  Permutation (collectItems files) sorted.

(** The items of the files from position [idx] on, by recursion on the
    file list. *)
Fixpoint collectFrom (idx : nat) (files : list (FileEntry.t * Visit))
    : list UploadedImage.t :=
  match files with
  | [] => []
  | (file, visit) :: rest =>
      (if startsWith (FileEntry.type file) (str "image/")
       then [ UploadedImage.mk
                (toString (now visit) ++ str "-" ++ toString (Z.of_nat idx))
                (FileEntry.name file) (objectUrl visit) ]
       else [])
      ++ collectFrom (S idx) rest
  end.

(** [Math.round(img.file.size / 1024)], the number on the size badge. *)
Definition sizeKB (size : Z) : Z :=
  Math_round (inject_Z size / inject_Z 1024).

(** *** The progress card ([AgentProgress]) *)

Module AgentProgress.
Record View := mkView
  { label : jsstring; percentText : jsstring; barWidth : jsstring }.

(** The label, the text [`${percent}%`] and the style width
    [`${percent}%`] of the bar. *)
Definition render (label : jsstring) (percent : Z) : View :=
  mkView label (toString percent ++ str "%") (toString percent ++ str "%").
End AgentProgress.

(** [<AgentProgress label={agentLabel} percent={agentStep} />] *)
Definition progressView (s : State) : AgentProgress.View :=
  AgentProgress.render (agentLabel s) (agentStep s).

(** *** The page while a handler is suspended *)

(** The page stays live while [runAgent] or [renderVideo] waits at an
    [await]: the file input and the caption editor are never disabled.
    Below, the page takes one signal at a time: a user event, or what a
    collaborator or the timer does to the handler that waits for it. *)

(** Where a handler is suspended, with what it has captured: the
    continuation of [runAgent] uses the [images] of the render in which
    the button was clicked. *)
Inductive Suspended :=
| NotSuspended
| AwaitingOcr (images : list UploadedImage.t)
| AwaitingTimer
| AwaitingRender (request : RenderRequest).

Record Page := mkPage { state : State; suspended : Suspended }.

Definition initialPage : Page := mkPage initialState NotSuspended.

Inductive Signal :=
| ChooseFiles (items : option (list UploadedImage.t))
| PressReset
| PressRunAgent
| PressRenderVideo
| TypeText (id value : jsstring)
| TypeDuration (id value : jsstring)
| ChooseFps (o : FpsOption)
| ChooseResolution (r : Resolution)
| ToggleMusic (checked : bool)
| OcrReports (fraction : Q)
| OcrSettles (outcome : Settled (list OcrResult.t))
| TimerFires
| RenderReports (fraction : Q)
| RenderSettles (outcome : Settled jsstring).

(** [runAgent] from the click to its first [await]. *)
Definition runAgent_start (s : State) : State :=
  withAgentLabel (str "Analyzing pages with OCR")
    (withAgentStep 0 (withIsProcessing true s)).

(** [runAgent] from the resolution of the OCR call to the pause. *)
Definition runAgent_recognized (images : list UploadedImage.t)
    (results : list OcrResult.t) (s : State) : State :=
  withAgentLabel (str "Planning camera motions")
    (withAgentStep 50
       (withSubtitles (buildSubtitles images results)
          (withAgentLabel (str "Building screenplay")
             (withOcrResults results s)))).

(** [runAgent] after the pause. *)
Definition runAgent_finish (s : State) : State :=
  withIsProcessing false
    (withAgentLabel (str "Ready to render") (withAgentStep 65 s)).

(** [renderVideo] from the click (its guard passed) to its [await]. *)
Definition renderVideo_start (s : State) : State :=
  withAgentStep 70
    (withAgentLabel (str "Rendering animation to video")
       (withIsProcessing true s)).

(** [renderVideo] after the renderer has resolved. *)
Definition renderVideo_finish (url : jsstring) (s : State) : State :=
  withAgentStep 100
    (withAgentLabel (str "Completed")
       (withIsProcessing false (withVideoUrl (Some url) s))).

(** One signal. A control that is disabled or not rendered delivers
    nothing; a report or a settlement reaches the handler that awaits it
    (a collaborator reports during its call); a rejection ends the
    handler where it is. *)
Definition step (p : Page) (sig : Signal) : Page :=
  let s := state p in
  let keep (s' : State) := mkPage s' (suspended p) in
  let editor (s' : State) :=
    if (List.length (subtitles s) =? 0)%nat then p else keep s' in
  match sig with
  | ChooseFiles items => keep (onFilesSelected items s)
  | PressReset => if isProcessing s then p else keep (onReset s)
  | PressRunAgent =>
      if isProcessing s || (List.length (images s) =? 0)%nat then p
      else mkPage (runAgent_start s) (AwaitingOcr (images s))
  | PressRenderVideo =>
      if (List.length (subtitles s) =? 0)%nat || isProcessing s then p
      else if (List.length (images s) =? 0)%nat then p
      else mkPage (renderVideo_start s) (AwaitingRender (renderRequest s))
  | TypeText id value => editor (updateSubtitleText id value s)
  | TypeDuration id value => editor (onDurationChange id value s)
  | ChooseFps o => editor (withFps (fpsValue o) s)
  | ChooseResolution r => editor (withResolution r s)
  | ToggleMusic checked => editor (withBgmEnabled checked s)
  | OcrReports fraction =>
      match suspended p with
      | AwaitingOcr _ => keep (withAgentStep (ocrPercent fraction) s)
      | _ => p
      end
  | OcrSettles outcome =>
      match suspended p, outcome with
      | AwaitingOcr images, Resolved results =>
          mkPage (runAgent_recognized images results s) AwaitingTimer
      | AwaitingOcr _, Rejected _ => mkPage s NotSuspended
      | _, _ => p
      end
  | TimerFires =>
      match suspended p with
      | AwaitingTimer => mkPage (runAgent_finish s) NotSuspended
      | _ => p
      end
  | RenderReports fraction =>
      match suspended p with
      | AwaitingRender _ => keep (withAgentStep (renderPercent fraction) s)
      | _ => p
      end
  | RenderSettles outcome =>
      match suspended p, outcome with
      | AwaitingRender _, Resolved url =>
          mkPage (renderVideo_finish url s) NotSuspended
      | AwaitingRender _, Rejected _ => mkPage s NotSuspended
      | _, _ => p
      end
  end.

(** The user events among the signals, as events of a session. *)
Definition eventOf (sig : Signal) : option Event :=
  match sig with
  | ChooseFiles items => Some (FilesSelected items)
  | PressReset => Some ClickReset
  | TypeText id value => Some (EditText id value)
  | TypeDuration id value => Some (EditDuration id value)
  | ChooseFps o => Some (SelectFps o)
  | ChooseResolution r => Some (SelectResolution r)
  | ToggleMusic checked => Some (ToggleBgm checked)
  | _ => None
  end.

Definition runFrom (p : Page) (signals : list Signal) : Page :=
  fold_left step signals p.

Definition run (signals : list Signal) : Page := runFrom initialPage signals.

(** The signals of an event of a session that starts in state [s]: the
    click, then what the collaborator does during that call, then the
    timer. *)
Definition signalsOf (s : State) (ev : Event) : list Signal :=
  match ev with
  | FilesSelected items => [ChooseFiles items]
  | ClickReset => [PressReset]
  | ClickRunAgent ocr =>
      let call := ocr (ocrInput (images s)) in
      PressRunAgent :: List.map OcrReports (reports call)
        ++ [OcrSettles (settles call); TimerFires]
  | ClickRenderVideo render =>
      let call := render (renderRequest s) in
      PressRenderVideo :: List.map RenderReports (reports call)
        ++ [RenderSettles (settles call)]
  | EditText id value => [TypeText id value]
  | EditDuration id value => [TypeDuration id value]
  | SelectFps o => [ChooseFps o]
  | SelectResolution r => [ChooseResolution r]
  | ToggleBgm checked => [ToggleMusic checked]
  end.

Fixpoint schedule (s : State) (events : list Event) : list Signal :=
  match events with
  | [] => []
  | ev :: rest => signalsOf s ev ++ schedule (handle s ev) rest
  end.

(** No file is chosen while a collaborator's call is in flight. *)
Fixpoint undisturbedFrom (p : Page) (signals : list Signal) : Prop :=
  match signals with
  | [] => True
  | sig :: rest =>
      match sig, suspended p with
      | ChooseFiles _, AwaitingOcr _ => False
      | ChooseFiles _, AwaitingRender _ => False
      | _, _ => True
      end
      /\ undisturbedFrom (step p sig) rest
  end.

(** A render request the renderer can work with. *)
Definition wellFormedRequest (req : RenderRequest) : Prop :=
  pages req <> []
  /\ req_subtitles req <> []
  /\ Forall (fun u => 500 <= SubtitleItem.durationMs u) (req_subtitles req)
  /\ ((width req, height req) = (1280, 720)
      \/ (width req, height req) = (1920, 1080))
  /\ (req_fps req = 24 \/ req_fps req = 30 \/ req_fps req = 60).

(** *** Predicates on events and states *)

(** The collaborator called by the event resolves whatever it is given. *)
Definition eventResolves (ev : Event) : Prop :=
  match ev with
  | ClickRunAgent ocr =>
      forall input, exists results, settles (ocr input) = Resolved results
  | ClickRenderVideo render =>
      forall req, exists url, settles (render req) = Resolved url
  | _ => True
  end.

(** The collaborator called by the event reports fractions in [[0, 1]]. *)
Definition eventInUnit (ev : Event) : Prop :=
  match ev with
  | ClickRunAgent ocr => forall input, Forall inUnit (reports (ocr input))
  | ClickRenderVideo render => forall req, Forall inUnit (reports (render req))
  | _ => True
  end.

(** Results, captions and video only exist together with the pages they
    come from, and the frame rate is one of the three options. *)
Definition consistent (s : State) : Prop :=
  (ocrResults s <> [] -> images s <> [])
  /\ (subtitles s <> [] -> images s <> [])
  /\ (videoUrl s <> None -> images s <> [] /\ subtitles s <> [])
  /\ (fps s = 24 \/ fps s = 30 \/ fps s = 60).

(** What may follow the decimal numeral of [n] in a field without
    changing what [parseInt] reads: nothing, or text that starts with
    neither a digit nor, after a lone [0], the [x] of a hexadecimal
    prefix. *)
Definition plainTail (n : Z) (tail : jsstring) : Prop :=
  match tail with
  | [] => True
  | c :: _ =>
      ((48 <=? c) && (c <=? 57))%N = false
      /\ (n = 0 -> c <> 120%N /\ c <> 88%N)
  end.

(** The code units of a string that are not white space. *)
Definition nonSpace (s : jsstring) : jsstring :=
  filter (fun c => negb (isWhiteSpace c)) s.

(** A cue moved by [d] milliseconds. *)
Definition shiftCue (d : Z) (c : SrtReader.Cue) : SrtReader.Cue :=
  let '(start, end_, text) := c in (start + d, end_ + d, text).

(** Sample files for the examples: a text file between two images. *)
Definition sampleFiles : list (FileEntry.t * Visit) :=
  [ (FileEntry.mk (str "b.png") (str "image/png") 2048,
     mkVisit 1700000000000 (str "blob:b"));
    (FileEntry.mk (str "notes.txt") (str "text/plain") 10,
     mkVisit 1700000000000 (str "blob:n"));
    (FileEntry.mk (str "a.jpg") (str "image/jpeg") 1536,
     mkVisit 1700000000001 (str "blob:a")) ].

(** What the progress card can show between two events, with the busy
    flag that goes with it. *)
Definition stage (s : State) : Prop :=
  (agentLabel s = str "Idle" /\ agentStep s = 0 /\ isProcessing s = false
   /\ ocrResults s = [] /\ subtitles s = [] /\ videoUrl s = None)
  \/ (agentLabel s = str "Ready to render" /\ agentStep s = 65
      /\ isProcessing s = false)
  \/ (agentLabel s = str "Completed" /\ agentStep s = 100
      /\ isProcessing s = false)
  \/ (agentLabel s = str "Analyzing pages with OCR"
      /\ isProcessing s = true)
  \/ (agentLabel s = str "Rendering animation to video"
      /\ isProcessing s = true).

(** The same for a page: while a handler is suspended the page is busy
    and shows the label of that handler's stage. *)
Definition pageStage (p : Page) : Prop :=
  let s := state p in
  match suspended p with
  | NotSuspended => stage s
  | AwaitingOcr _ =>
      agentLabel s = str "Analyzing pages with OCR" /\ isProcessing s = true
  | AwaitingTimer =>
      agentLabel s = str "Planning camera motions" /\ agentStep s = 50
      /\ isProcessing s = true
  | AwaitingRender _ =>
      agentLabel s = str "Rendering animation to video"
      /\ isProcessing s = true
  end.

(** The frame rate is one of the three options of the select. *)
Definition fpsOption (s : State) : Prop :=
  fps s = 24 \/ fps s = 30 \/ fps s = 60.

(** The request of a render in flight is well formed. *)
Definition pendingRequest (p : Page) : Prop :=
  match suspended p with
  | AwaitingRender req => wellFormedRequest req
  | _ => True
  end.

(** What a suspended handler has captured is still what the page shows:
    the pages of a recognition in flight are the current pages, and a
    render in flight still has its pages and captions. A suspended
    handler keeps the page busy. *)
Definition capturedPages (p : Page) : Prop :=
  match suspended p with
  | NotSuspended => True
  | AwaitingOcr captured =>
      captured = images (state p) /\ captured <> []
      /\ isProcessing (state p) = true
  | AwaitingTimer => isProcessing (state p) = true
  | AwaitingRender _ =>
      images (state p) <> [] /\ subtitles (state p) <> []
      /\ isProcessing (state p) = true
  end.

(** * Properties *)

Unset Implicit Arguments.

(** ** Basic facts about the primitives *)

Lemma eqb_true_iff (a b : jsstring) : JS.eqb a b = true <-> a = b.
Proof.
  unfold JS.eqb. destruct (list_eq_dec N.eq_dec a b); split;
    congruence.
Qed.

Lemma eqb_false_iff (a b : jsstring) : JS.eqb a b = false <-> a <> b.
Proof.
  unfold JS.eqb. destruct (list_eq_dec N.eq_dec a b); split;
    congruence.
Qed.

Lemma Math_round_integer (z : Z) : Math_round (inject_Z z) = z.
Proof.
  unfold Math_round, Qfloor, Qplus, inject_Z. simpl. symmetry.
  apply Z.div_unique with (r := 1); lia.
Qed.

Lemma Math_round_le (x y : Q) : (x <= y)%Q -> Math_round x <= Math_round y.
Proof.
  intros H. unfold Math_round. apply Qfloor_resp_le.
  apply Qplus_le_compat; [exact H | apply Qle_refl].
Qed.

Lemma Math_round_compat (x y : Q) : (x == y)%Q -> Math_round x = Math_round y.
Proof.
  intros H. unfold Math_round. apply Qfloor_comp. rewrite H. reflexivity.
Qed.

(** ** Rounding to a double *)

Section Binary64.
Local Open Scope Q_scope.

Lemma pow2_pos (e : Z) : 0 < pow2 e.
Proof. apply Qpower_0_lt. reflexivity. Qed.

Lemma pow2_add (a b : Z) : pow2 (a + b) == pow2 a * pow2 b.
Proof. apply Qpower_plus. discriminate. Qed.

Lemma pow2_le (a b : Z) : (a <= b)%Z -> pow2 a <= pow2 b.
Proof. intros H. apply Qpower_le_compat_l; [exact H | discriminate]. Qed.

Lemma pow2_lt (a b : Z) : (a < b)%Z -> pow2 a < pow2 b.
Proof. intros H. apply Qpower_lt_compat_l; [exact H | reflexivity]. Qed.

Lemma pow2_lt_inv (a b : Z) : pow2 a < pow2 b -> (a < b)%Z.
Proof. intros H. apply (Qpower_lt_compat_l_inv 2); [exact H | reflexivity]. Qed.

Lemma pow2_Z (n : Z) : (0 <= n)%Z -> pow2 n == inject_Z (2 ^ n).
Proof. intros H. symmetry. apply (Zpower_Qpower 2 n H). Qed.

Lemma pow2_opp (e : Z) : pow2 e * pow2 (- e) == 1.
Proof.
  rewrite <- pow2_add. replace (e + - e)%Z with 0%Z by lia. reflexivity.
Qed.

Lemma div_pow2 (x : Q) (e : Z) : x / pow2 e == x * pow2 (- e).
Proof.
  unfold Qdiv. apply Qmult_comp; [reflexivity|].
  unfold pow2. rewrite Qpower_opp. reflexivity.
Qed.

(** *** The binary logarithm *)

Lemma Qlog2_spec (x : Q) :
  0 < x -> pow2 (Qlog2 x) <= x /\ x < pow2 (Qlog2 x + 1).
Proof.
  intros Hx. destruct x as [n d]. unfold Qlog2. cbn [Qnum Qden].
  assert (Hn : (0 < n)%Z).
  { unfold Qlt in Hx. cbn in Hx. lia. }
  set (a := Z.log2 n). set (b := Z.log2 (Zpos d)).
  assert (Ha : (0 <= a)%Z) by apply Z.log2_nonneg.
  assert (Hb : (0 <= b)%Z) by apply Z.log2_nonneg.
  destruct (Z.log2_spec n Hn) as [Hn1 Hn2]. fold a in Hn1, Hn2.
  destruct (Z.log2_spec (Zpos d) eq_refl) as [Hd1 Hd2]. fold b in Hd1, Hd2.
  assert (Ex : inject_Z n == (n # d) * inject_Z (Zpos d)).
  { unfold Qeq, Qmult, inject_Z. cbn. lia. }
  assert (Hdpos : 0 < inject_Z (Zpos d)) by reflexivity.
  (* 2^(a-b-1) < x < 2^(a-b+1) *)
  assert (Lo : pow2 (a - b - 1) < n # d).
  { apply (Qmult_lt_r _ _ (inject_Z (Zpos d)) Hdpos). rewrite <- Ex.
    apply Qlt_le_trans with (pow2 (a - b - 1) * pow2 (b + 1)).
    - apply Qmult_lt_l; [apply pow2_pos|].
      rewrite pow2_Z by lia. rewrite <- Zlt_Qlt.
      replace (b + 1)%Z with (Z.succ b) by lia. exact Hd2.
    - rewrite <- pow2_add. replace (a - b - 1 + (b + 1))%Z with a by lia.
      rewrite pow2_Z by lia. rewrite <- Zle_Qle. exact Hn1. }
  assert (Hi : n # d < pow2 (a - b + 1)).
  { apply (Qmult_lt_r _ _ (inject_Z (Zpos d)) Hdpos). rewrite <- Ex.
    apply Qlt_le_trans with (pow2 (a - b + 1) * pow2 b).
    - rewrite <- pow2_add. replace (a - b + 1 + b)%Z with (Z.succ a) by lia.
      rewrite pow2_Z by lia. rewrite <- Zlt_Qlt. exact Hn2.
    - apply Qmult_le_l; [apply pow2_pos|].
      rewrite pow2_Z by lia. rewrite <- Zle_Qle. exact Hd1. }
  destruct (Qle_bool (pow2 (a - b)) (n # d)) eqn:E.
  - apply Qle_bool_iff in E. split; assumption.
  - split; [apply Qlt_le_weak; exact Lo|].
    replace (a - b - 1 + 1)%Z with (a - b)%Z by lia.
    apply Qnot_le_lt. intros H. apply Qle_bool_iff in H. congruence.
Qed.

Lemma Qlog2_lt (x : Q) (k : Z) : 0 < x -> x < pow2 k -> (Qlog2 x < k)%Z.
Proof.
  intros Hx H. apply pow2_lt_inv.
  apply Qle_lt_trans with x; [apply Qlog2_spec; exact Hx | exact H].
Qed.

Lemma Qlog2_le (x : Q) (k : Z) : 0 < x -> pow2 k <= x -> (k <= Qlog2 x)%Z.
Proof.
  intros Hx H.
  assert (k < Qlog2 x + 1)%Z; [|lia].
  apply pow2_lt_inv.
  apply Qle_lt_trans with x; [exact H | apply Qlog2_spec; exact Hx].
Qed.

Lemma Qlog2_mono (x y : Q) : 0 < x -> x <= y -> (Qlog2 x <= Qlog2 y)%Z.
Proof.
  intros Hx Hxy. apply Qlog2_le; [apply Qlt_le_trans with x; assumption|].
  apply Qle_trans with x; [apply Qlog2_spec; exact Hx | exact Hxy].
Qed.

Lemma Qlog2_comp (x y : Q) : 0 < x -> x == y -> Qlog2 x = Qlog2 y.
Proof.
  intros Hx E.
  assert (Hy : 0 < y) by (rewrite <- E; exact Hx).
  apply Z.le_antisymm; apply Qlog2_mono; try assumption;
    rewrite E; apply Qle_refl.
Qed.

(** *** Rounding to an integer *)

Lemma roundHalfEven_Z (n : Z) : roundHalfEven (inject_Z n) = n.
Proof.
  unfold roundHalfEven. rewrite Qfloor_Z.
  assert (E : (inject_Z n - inject_Z n ?= 1 # 2) = Lt).
  { rewrite <- Qlt_alt. ring_simplify (inject_Z n - inject_Z n). reflexivity. }
  rewrite E. reflexivity.
Qed.

Lemma roundHalfEven_near (x : Q) :
  inject_Z (roundHalfEven x) - (1 # 2) <= x
  /\ x <= inject_Z (roundHalfEven x) + (1 # 2).
Proof.
  unfold roundHalfEven.
  pose proof (Qfloor_le x) as Hlo. pose proof (Qlt_floor x) as Hhi.
  rewrite inject_Z_plus in Hhi. change (inject_Z 1) with 1 in Hhi.
  destruct (Qcompare_spec (x - inject_Z (Qfloor x)) (1 # 2)) as [E|E|E].
  - destruct (Z.even (Qfloor x));
      [|rewrite inject_Z_plus; change (inject_Z 1) with 1]; lra.
  - lra.
  - rewrite inject_Z_plus. change (inject_Z 1) with 1. lra.
Qed.

Lemma roundHalfEven_mono (x y : Q) :
  x <= y -> (roundHalfEven x <= roundHalfEven y)%Z.
Proof.
  intros Hxy. pose proof (Qfloor_resp_le x y Hxy) as Hf.
  assert (Hx : (Qfloor x <= roundHalfEven x <= Qfloor x + 1)%Z).
  { unfold roundHalfEven.
    destruct (x - inject_Z (Qfloor x) ?= 1 # 2);
      [destruct (Z.even (Qfloor x))| |]; lia. }
  assert (Hy : (Qfloor y <= roundHalfEven y <= Qfloor y + 1)%Z).
  { unfold roundHalfEven.
    destruct (y - inject_Z (Qfloor y) ?= 1 # 2);
      [destruct (Z.even (Qfloor y))| |]; lia. }
  destruct (Z.eq_dec (Qfloor x) (Qfloor y)) as [E|E]; [|lia].
  unfold roundHalfEven. rewrite <- E.
  destruct (Qcompare_spec (x - inject_Z (Qfloor x)) (1 # 2)) as [Ex|Ex|Ex];
    destruct (Qcompare_spec (y - inject_Z (Qfloor x)) (1 # 2)) as [Ey|Ey|Ey];
    try destruct (Z.even (Qfloor x)); try lia; exfalso; lra.
Qed.

Lemma roundHalfEven_comp (x y : Q) :
  x == y -> roundHalfEven x = roundHalfEven y.
Proof.
  intros E. apply Z.le_antisymm; apply roundHalfEven_mono; rewrite E;
    apply Qle_refl.
Qed.

(** *** Rounding to a double *)

Lemma ulpExp_mono (x y : Q) : 0 < x -> x <= y -> (ulpExp x <= ulpExp y)%Z.
Proof.
  intros Hx Hxy. unfold ulpExp. pose proof (Qlog2_mono x y Hx Hxy). lia.
Qed.

Lemma roundPositive_nonneg (x : Q) : 0 <= x -> 0 <= roundPositive x.
Proof.
  intros Hx. unfold roundPositive. apply Qmult_le_0_compat.
  - change 0 with (inject_Z 0). rewrite <- Zle_Qle.
    rewrite <- (roundHalfEven_Z 0). apply roundHalfEven_mono.
    apply Qle_shift_div_l; [apply pow2_pos|]. rewrite Qmult_0_l. exact Hx.
  - apply Qlt_le_weak, pow2_pos.
Qed.

Lemma roundPositive_mono (x y : Q) : 0 < x -> x <= y -> roundPositive x <= roundPositive y.
Proof.
  intros Hx Hxy.
  assert (Hy : 0 < y) by (apply Qlt_le_trans with x; assumption).
  pose proof (ulpExp_mono x y Hx Hxy) as He.
  destruct (Z.eq_dec (ulpExp x) (ulpExp y)) as [E|E].
  - unfold roundPositive. rewrite E. apply Qmult_le_compat_r.
    + rewrite <- Zle_Qle. apply roundHalfEven_mono.
      apply Qmult_le_compat_r; [exact Hxy|].
      apply Qlt_le_weak, Qinv_lt_0_compat, pow2_pos.
    + apply Qlt_le_weak, pow2_pos.
  - assert (Hlt : (ulpExp x < ulpExp y)%Z) by lia. clear E He.
    assert (Ey : ulpExp y = (Qlog2 y - 52)%Z) by (unfold ulpExp in *; lia).
    apply Qle_trans with (pow2 (ulpExp x + 53)).
    + unfold roundPositive.
      rewrite pow2_add, (Qmult_comm (pow2 (ulpExp x))).
      apply Qmult_le_compat_r; [|apply Qlt_le_weak, pow2_pos].
      rewrite (pow2_Z 53) by lia. rewrite <- Zle_Qle.
      rewrite <- (roundHalfEven_Z (2 ^ 53)). apply roundHalfEven_mono.
      apply Qle_shift_div_r; [apply pow2_pos|].
      rewrite <- (pow2_Z 53) by lia.
      rewrite <- pow2_add.
      apply Qlt_le_weak.
      apply Qlt_le_trans with (pow2 (Qlog2 x + 1));
        [apply Qlog2_spec; exact Hx|].
      apply pow2_le. unfold ulpExp. lia.
    + apply Qle_trans with (pow2 (ulpExp y + 52)); [apply pow2_le; lia|].
      unfold roundPositive.
      rewrite pow2_add, (Qmult_comm (pow2 (ulpExp y))).
      apply Qmult_le_compat_r; [|apply Qlt_le_weak, pow2_pos].
      rewrite (pow2_Z 52) by lia. rewrite <- Zle_Qle.
      rewrite <- (roundHalfEven_Z (2 ^ 52)) at 1. apply roundHalfEven_mono.
      apply Qle_shift_div_l; [apply pow2_pos|].
      rewrite <- (pow2_Z 52) by lia.
      rewrite <- pow2_add.
      replace (52 + ulpExp y)%Z with (Qlog2 y) by lia.
      apply Qlog2_spec; exact Hy.
Qed.

Lemma roundPositive_comp (x y : Q) : 0 < x -> x == y -> roundPositive x == roundPositive y.
Proof.
  intros Hx E. unfold roundPositive, ulpExp. rewrite (Qlog2_comp x y Hx E).
  set (e := Z.max (Qlog2 y - 52) (-1074)).
  apply Qmult_comp; [|reflexivity].
  rewrite (roundHalfEven_comp (x / pow2 e) (y / pow2 e)); [reflexivity|].
  rewrite E. reflexivity.
Qed.

Lemma binary64_0 : binary64 0 == 0.
Proof. reflexivity. Qed.

Lemma binary64_nonneg (x : Q) : 0 <= x -> 0 <= binary64 x.
Proof.
  intros Hx. unfold binary64.
  destruct (Qcompare_spec x 0) as [E|E|E]; [apply Qle_refl|lra|].
  apply roundPositive_nonneg. exact Hx.
Qed.

Lemma binary64_opp (x : Q) : binary64 (- x) == - binary64 x.
Proof.
  unfold binary64.
  destruct (Qcompare_spec x 0) as [E|E|E];
    destruct (Qcompare_spec (- x) 0) as [E'|E'|E']; try (exfalso; lra).
  - reflexivity.
  - rewrite Qopp_involutive. reflexivity.
  - rewrite (roundPositive_comp (- - x) x); [reflexivity|lra|ring].
Qed.

Lemma binary64_mono (x y : Q) : x <= y -> binary64 x <= binary64 y.
Proof.
  intros Hxy. unfold binary64.
  destruct (Qcompare_spec x 0) as [Ex|Ex|Ex];
    destruct (Qcompare_spec y 0) as [Ey|Ey|Ey]; try (exfalso; lra).
  - apply Qle_refl.
  - apply roundPositive_nonneg. lra.
  - pose proof (roundPositive_nonneg (- x)). lra.
  - pose proof (roundPositive_mono (- y) (- x)). lra.
  - pose proof (roundPositive_nonneg (- x)).
    pose proof (roundPositive_nonneg y). lra.
  - apply roundPositive_mono; assumption.
Qed.

Lemma binary64_comp (x y : Q) : x == y -> binary64 x == binary64 y.
Proof.
  intros E. apply Qle_antisym; apply binary64_mono; rewrite E; apply Qle_refl.
Qed.

(** Safe integers are doubles. *)
Lemma roundPositive_Z (n : Z) :
  (0 < n < 2 ^ 53)%Z -> roundPositive (inject_Z n) == inject_Z n.
Proof.
  intros [Hn Hlt].
  assert (Hq : 0 < inject_Z n) by (rewrite Zlt_Qlt in Hn; exact Hn).
  set (e := ulpExp (inject_Z n)).
  assert (He : (-1074 <= e <= 0)%Z).
  { unfold e, ulpExp.
    assert (Qlog2 (inject_Z n) < 53)%Z; [|lia].
    apply Qlog2_lt; [exact Hq|].
    rewrite pow2_Z by lia. rewrite <- Zlt_Qlt. exact Hlt. }
  unfold roundPositive. fold e.
  rewrite (roundHalfEven_comp _ (inject_Z (n * 2 ^ (- e)))).
  - rewrite roundHalfEven_Z, inject_Z_mult, <- pow2_Z by lia.
    rewrite <- Qmult_assoc, (Qmult_comm (pow2 (- e))), pow2_opp. ring.
  - rewrite div_pow2, inject_Z_mult, <- pow2_Z by lia. reflexivity.
Qed.

Lemma inject_Z_pos (n : Z) : (0 < n)%Z -> 0 < inject_Z n.
Proof. intros H. change 0 with (inject_Z 0). rewrite <- Zlt_Qlt. exact H. Qed.

Lemma binary64_pos (x : Q) : 0 < x -> binary64 x = roundPositive x.
Proof.
  intros H. unfold binary64. apply Qgt_alt in H. rewrite H. reflexivity.
Qed.

Lemma binary64_Z (n : Z) : (Z.abs n < 2 ^ 53)%Z -> binary64 (inject_Z n) == inject_Z n.
Proof.
  intros Hn. destruct (Z.lt_trichotomy n 0) as [H|[->|H]].
  - assert (E : inject_Z n == - inject_Z (- n)).
    { rewrite inject_Z_opp. ring. }
    rewrite (binary64_comp _ _ E), binary64_opp, binary64_pos by (apply inject_Z_pos; lia).
    rewrite roundPositive_Z by lia. symmetry. exact E.
  - reflexivity.
  - rewrite binary64_pos by (apply inject_Z_pos; lia). apply roundPositive_Z. lia.
Qed.

(** The error of one rounding is at most half a unit in the last place. *)
Lemma roundPositive_near (x : Q) :
  roundPositive x - pow2 (ulpExp x - 1) <= x /\ x <= roundPositive x + pow2 (ulpExp x - 1).
Proof.
  unfold roundPositive. set (e := ulpExp x).
  pose proof (roundHalfEven_near (x / pow2 e)) as [Hlo Hhi].
  pose proof (pow2_pos e) as He.
  assert (Eh : pow2 (e - 1) == (1 # 2) * pow2 e).
  { unfold Z.sub. rewrite pow2_add. rewrite Qmult_comm. reflexivity. }
  assert (Ex : x / pow2 e * pow2 e == x).
  { field. intros H. rewrite H in He. discriminate. }
  rewrite Eh. set (r := inject_Z (roundHalfEven (x / pow2 e))) in *.
  set (P := pow2 e) in *.
  assert (H1 : (r - (1 # 2)) * P <= x / P * P)
    by (apply Qmult_le_compat_r; [exact Hlo | apply Qlt_le_weak, He]).
  assert (H2 : x / P * P <= (r + (1 # 2)) * P)
    by (apply Qmult_le_compat_r; [exact Hhi | apply Qlt_le_weak, He]).
  rewrite Ex in H1, H2.
  assert (E1 : r * P - (1 # 2) * P == (r - (1 # 2)) * P) by ring.
  assert (E2 : r * P + (1 # 2) * P == (r + (1 # 2)) * P) by ring.
  rewrite E1, E2. split; assumption.
Qed.

End Binary64.

Lemma Qfloor_unique (x : Q) (n : Z) :
  (inject_Z n <= x)%Q -> (x < inject_Z (n + 1))%Q -> Qfloor x = n.
Proof.
  intros Hlo Hhi. apply Z.le_antisymm.
  - assert (Qfloor x < n + 1); [|lia].
    rewrite Zlt_Qlt. apply Qle_lt_trans with x; [apply Qfloor_le | exact Hhi].
  - rewrite <- (Qfloor_Z n). apply Qfloor_resp_le. exact Hlo.
Qed.

Lemma Number_ofInteger_safe (n : Z) :
  Z.abs n < 2 ^ 53 -> Number_ofInteger n = n.
Proof.
  intros H. unfold Number_ofInteger.
  rewrite (Qfloor_comp _ _ (binary64_Z n H)). apply Qfloor_Z.
Qed.

Lemma Number_ofInteger_mono (a b : Z) :
  a <= b -> Number_ofInteger a <= Number_ofInteger b.
Proof.
  intros H. apply Qfloor_resp_le, binary64_mono. rewrite <- Zle_Qle. exact H.
Qed.

Lemma binary64_near_small (x : Q) (k : Z) :
  (0 < x)%Q -> (x < pow2 k)%Q -> (-1021 <= k)%Z ->
  (binary64 x <= x + pow2 (k - 54))%Q.
Proof.
  intros Hx Hk Hmin. rewrite binary64_pos by exact Hx.
  pose proof (roundPositive_near x) as [Hlo _].
  assert (He : (ulpExp x - 1 <= k - 54)%Z).
  { unfold ulpExp. pose proof (Qlog2_lt x k Hx Hk). lia. }
  pose proof (pow2_le _ _ He). lra.
Qed.

Lemma floor_quotient (a b : Z) :
  0 <= a -> 0 < b < 2 ^ 22 -> a < 2 ^ 32 * b ->
  Qfloor (Number_div (inject_Z a) (inject_Z b)) = a / b.
Proof.
  intros Ha [Hb Hb22] Hab. unfold Number_div.
  set (x := (inject_Z a / inject_Z b)%Q).
  assert (Hbq : (0 < inject_Z b)%Q) by (apply inject_Z_pos; exact Hb).
  pose proof (Z.div_mod a b ltac:(lia)) as Hdm.
  pose proof (Z.mod_pos_bound a b Hb) as Hr.
  assert (Hq : 0 <= a / b) by (apply Z.div_pos; lia).
  assert (Hq32 : a / b < 2 ^ 32) by (apply Z.div_lt_upper_bound; lia).
  (* x = q + r / b *)
  assert (Ex : (x * inject_Z b == inject_Z a)%Q).
  { unfold x. field. intros E. rewrite E in Hbq. discriminate. }
  assert (Hlo : (inject_Z (a / b) <= x)%Q).
  { apply (Qmult_le_r _ _ (inject_Z b) Hbq). rewrite Ex.
    rewrite <- inject_Z_mult, <- Zle_Qle. nia. }
  assert (Hhi : (x + / inject_Z b <= inject_Z (a / b + 1))%Q).
  { apply (Qmult_le_r _ _ (inject_Z b) Hbq).
    rewrite Qmult_plus_distr_l, Ex, Qmult_comm, Qmult_inv_r
      by (intros E; rewrite E in Hbq; discriminate).
    rewrite <- inject_Z_mult. change 1%Q with (inject_Z 1).
    rewrite <- inject_Z_plus, <- Zle_Qle. nia. }
  apply Qfloor_unique.
  - rewrite <- (binary64_Z (a / b)) by lia. apply binary64_mono. exact Hlo.
  - destruct (Qlt_le_dec 0 x) as [Hx|Hx].
    + apply Qle_lt_trans with (x + pow2 (32 - 54))%Q.
      * apply binary64_near_small; [exact Hx| |lia].
        apply Qlt_le_trans with (inject_Z (a / b + 1)).
        -- assert (0 < / inject_Z b)%Q by (apply Qinv_lt_0_compat; exact Hbq).
           lra.
        -- rewrite (pow2_Z 32) by lia. rewrite <- Zle_Qle. lia.
      * apply Qlt_le_trans with (x + / inject_Z b)%Q; [|exact Hhi].
        apply Qplus_lt_r.
        assert (E22 : (pow2 (32 - 54) == / inject_Z (2 ^ 22))%Q)
          by reflexivity.
        rewrite E22.
        apply (Qmult_lt_r _ _ (inject_Z b) Hbq).
        rewrite (Qmult_comm (/ inject_Z b)), Qmult_inv_r
          by (intros E; rewrite E in Hbq; discriminate).
        apply (Qmult_lt_l _ _ (inject_Z (2 ^ 22))); [reflexivity|].
        rewrite Qmult_assoc, Qmult_inv_r, Qmult_1_l, Qmult_1_r by discriminate.
        rewrite <- Zlt_Qlt. exact Hb22.
    + assert (E0 : (x == 0)%Q).
      { apply Qle_antisym; [exact Hx|].
        apply Qle_trans with (inject_Z (a / b)); [|exact Hlo].
        change 0%Q with (inject_Z 0). rewrite <- Zle_Qle. exact Hq. }
      rewrite (binary64_comp _ _ E0). 
      change (binary64 0) with 0%Q. change 0%Q with (inject_Z 0).
      rewrite <- Zlt_Qlt. lia.
Qed.

(** On the values used in the examples below, the operations on Numbers
    are those of the Standard Library's specification of binary64
    arithmetic: the products [0.3 * 25], [0.58 * 25] and [30 * 0.15], the
    sum [1e22 + 500] and the quotient [1e22 / 3600000]. *)
Lemma binary64_SpecFloat :
  let double := SpecFloat.S754_finite false in
  let mul := SpecFloat.SFmul 53 1024 in
  let threeTenths := double 5404319552844595%positive (-54) in
  let fiftyEightHundredths := double 5224175567749775%positive (-53) in
  let threeTwentieths := double 5404319552844595%positive (-55) in
  let twentyFive := double 7036874417766400%positive (-48) in
  let thirty := double 8444249301319680%positive (-48) in
  let tenToThe22 := double 4768371582031250%positive 21 in
  let fiveHundred := double 8796093022208000%positive (-44) in
  let msPerHour := double 7730941132800000%positive (-31) in
  Qeq (valueOf threeTenths) (binary64 (3 # 10))
  /\ Qeq (valueOf fiftyEightHundredths) (binary64 (58 # 100))
  /\ Qeq (valueOf threeTwentieths) (binary64 (15 # 100))
  /\ Qeq (valueOf twentyFive) 25
  /\ Qeq (valueOf thirty) 30
  /\ Qeq (valueOf tenToThe22) (inject_Z (10 ^ 22))
  /\ Qeq (valueOf fiveHundred) 500
  /\ Qeq (valueOf msPerHour) 3600000
  /\ Qeq (valueOf (mul threeTenths twentyFive))
         (Number_mul (binary64 (3 # 10)) 25)
  /\ Qeq (valueOf (mul fiftyEightHundredths twentyFive))
         (Number_mul (binary64 (58 # 100)) 25)
  /\ Qeq (valueOf (mul thirty threeTwentieths))
         (Number_mul 30 (binary64 (15 # 100)))
  /\ Qeq (valueOf (SpecFloat.SFadd 53 1024 tenToThe22 fiveHundred))
         (inject_Z (Number_add (10 ^ 22) 500))
  /\ Qeq (valueOf (SpecFloat.SFdiv 53 1024 tenToThe22 msPerHour))
         (Number_div (inject_Z (10 ^ 22)) 3600000).
Proof. cbv zeta. repeat split; vm_compute; reflexivity. Qed.

(** ** Duration estimation *)

(** C7 as stated fails: the count the code uses is [chunk.length], the
    number of UTF-16 code units, in which a character outside the Basic
    Multilingual Plane counts twice. Thirty such characters get 3600 ms
    where [round(60 * characterCount)] is 1800, and outlast forty
    letters. *)
Lemma duration_counts_code_units :
  characterCount thirtyFaces = 30%nat
  /\ characterCount fortyLetters = 40%nat
  /\ chunkDurationMs thirtyFaces = 3600
  /\ chunkDurationMs thirtyFaces
     <> clamp 1500 7000
          (Math_round (inject_Z (60 * Z.of_nat (characterCount thirtyFaces))))
  /\ (characterCount thirtyFaces <= characterCount fortyLetters)%nat
  /\ ~ chunkDurationMs thirtyFaces <= chunkDurationMs fortyLetters.
Proof.
  split; [vm_compute; reflexivity|]. split; [vm_compute; reflexivity|].
  split; [vm_compute; reflexivity|]. split; [vm_compute; discriminate|].
  split; [vm_compute; repeat constructor|].
  vm_compute. intros H. apply H. reflexivity.
Qed.

(** C7, amended. The duration of a caption is [round(60 * n)] clamped to
    [[1500, 7000]], where [n] is the length of the caption in UTF-16 code
    units (the rounding is the identity, the product being an integer);
    it always lies in that range and never decreases when that length
    grows. *)
Theorem chunkDurationMs_clamped (s1 s2 : jsstring)
    (Hlen : (List.length s1 <= List.length s2)%nat) :
  chunkDurationMs s1
  = clamp 1500 7000 (Math_round (inject_Z (60 * Z.of_nat (List.length s1))))
  /\ chunkDurationMs s1 = clamp 1500 7000 (60 * Z.of_nat (List.length s1))
  /\ 1500 <= chunkDurationMs s1 <= 7000
  /\ chunkDurationMs s1 <= chunkDurationMs s2.
Proof.
  unfold chunkDurationMs, clamp, JS.length. rewrite !Math_round_integer.
  destruct (60 * Z.of_nat (List.length s1) <? 1500) eqn:E1;
    destruct (7000 <? 60 * Z.of_nat (List.length s1)) eqn:E2;
    rewrite ?Z.ltb_lt, ?Z.ltb_ge in *; lia.
Qed.

Lemma chunkDurationMs_clamped_witness :
  chunkDurationMs fortyLetters = 2400
  /\ chunkDurationMs thirtyFaces = 3600
  /\ chunkDurationMs fortyLetters <= chunkDurationMs thirtyFaces.
Proof.
  destruct (chunkDurationMs_clamped fortyLetters thirtyFaces
              ltac:(apply Nat.leb_le; reflexivity))
    as (_ & E1 & _ & Hle).
  destruct (chunkDurationMs_clamped thirtyFaces thirtyFaces
              ltac:(apply Nat.leb_le; reflexivity))
    as (_ & E2 & _).
  split; [rewrite E1; reflexivity|].
  split; [rewrite E2; reflexivity | exact Hle].
Defined.

(** ** Subtitle edits *)

Lemma map_id_when {A} (f : A -> A) (l : list A) :
  (forall x, In x l -> f x = x) -> List.map f l = l.
Proof.
  induction l as [|x l IH]; simpl; intros H; [reflexivity|].
  rewrite H by (left; reflexivity). f_equal.
  apply IH. intros y Hy. apply H. right. exact Hy.
Qed.

Lemma Forall2_map_r {A B} (R : A -> B -> Prop) (f : A -> B) (l : list A) :
  (forall x, R x (f x)) -> Forall2 R l (List.map f l).
Proof.
  intros H. induction l; simpl; constructor; auto.
Qed.

Lemma withSubtitles_same (s : State) : withSubtitles (subtitles s) s = s.
Proof. destruct s; reflexivity. Qed.

(** C10. Both edits keep the list's length and order (the lists are
    related position by position); a unit whose id differs is unchanged;
    a unit with the given id changes in the named field only; with no
    matching id nothing changes at all. *)
Theorem update_subtitle_frame (s : State) (id text : jsstring) (dur : Z) :
  Forall2
    (fun u u' =>
       (SubtitleItem.id u <> id -> u' = u)
       /\ (SubtitleItem.id u = id ->
           u' = SubtitleItem.mk (SubtitleItem.id u) text
                  (SubtitleItem.durationMs u) (SubtitleItem.pageIndex u)))
    (subtitles s) (subtitles (updateSubtitleText id text s))
  /\ Forall2
    (fun u u' =>
       (SubtitleItem.id u <> id -> u' = u)
       /\ (SubtitleItem.id u = id ->
           u' = SubtitleItem.mk (SubtitleItem.id u) (SubtitleItem.text u)
                  dur (SubtitleItem.pageIndex u)))
    (subtitles s) (subtitles (updateSubtitleDuration id dur s))
  /\ ((forall u, In u (subtitles s) -> SubtitleItem.id u <> id) ->
      updateSubtitleText id text s = s
      /\ updateSubtitleDuration id dur s = s).
Proof.
  split; [|split].
  - unfold updateSubtitleText. simpl. apply Forall2_map_r. intros u.
    destruct (JS.eqb (SubtitleItem.id u) id) eqn:E.
    + apply eqb_true_iff in E. split; [congruence | reflexivity].
    + apply eqb_false_iff in E. split; [reflexivity | congruence].
  - unfold updateSubtitleDuration. simpl. apply Forall2_map_r. intros u.
    destruct (JS.eqb (SubtitleItem.id u) id) eqn:E.
    + apply eqb_true_iff in E. split; [congruence | reflexivity].
    + apply eqb_false_iff in E. split; [reflexivity | congruence].
  - intros Hno. unfold updateSubtitleText, updateSubtitleDuration.
    rewrite !map_id_when.
    + split; apply withSubtitles_same.
    + intros u Hu. apply Hno in Hu. apply eqb_false_iff in Hu.
      rewrite Hu. reflexivity.
    + intros u Hu. apply Hno in Hu. apply eqb_false_iff in Hu.
      rewrite Hu. reflexivity.
Qed.

Lemma update_subtitle_frame_witness :
  updateSubtitleText (str "zz") (str "X") editing = editing
  /\ updateSubtitleDuration (str "zz") 900 editing = editing.
Proof.
  apply (update_subtitle_frame editing (str "zz") (str "X") 900).
  intros u [<-|[<-|[]]]; vm_compute; discriminate.
Defined.

(** ** Running the handlers *)

Lemma notify_setAgentStep (f : Q -> Z) (fs : list Q) (s : State) :
  notify (fun p => setAgentStep (f p)) fs s
  = (Resolved tt,
     fold_left (fun st p => withAgentStep (f p) st) fs s,
     List.map f fs).
Proof.
  revert s. induction fs as [|p fs IH]; intros s; simpl.
  - reflexivity.
  - unfold bind at 1. unfold setAgentStep at 1. rewrite IH. reflexivity.
Qed.

Lemma last_nonempty {A} (x : A) (l : list A) (d d' : A) :
  last (x :: l) d = last (x :: l) d'.
Proof.
  revert x. induction l as [|y l IH]; intros x; [reflexivity|].
  change (last (y :: l) d = last (y :: l) d'). apply IH.
Qed.

Lemma fold_withAgentStep (f : Q -> Z) (fs : list Q) (s : State) :
  fold_left (fun st p => withAgentStep (f p) st) fs s
  = withAgentStep (last (List.map f fs) (agentStep s)) s.
Proof.
  revert s. induction fs as [|p fs IH]; intros s.
  - destruct s; reflexivity.
  - cbn [fold_left List.map]. rewrite IH.
    rewrite (last_nonempty (f p) (List.map f fs) (agentStep s) (f p)).
    destruct s. unfold withAgentStep. cbn.
    destruct (List.map f fs); reflexivity.
Qed.

Lemma await_resolved {A} (c : Call A) (f : Q -> Z) (a : A) (s : State) :
  settles c = Resolved a ->
  await c (fun p => setAgentStep (f p)) s
  = (Resolved a,
     withAgentStep (last (List.map f (reports c)) (agentStep s)) s,
     List.map f (reports c)).
Proof.
  intros H. unfold await, bind. rewrite notify_setAgentStep, H.
  rewrite fold_withAgentStep, app_nil_r. reflexivity.
Qed.

Lemma await_rejected {A} (c : Call A) (f : Q -> Z) (e : jsstring)
    (s : State) :
  settles c = Rejected e ->
  await c (fun p => setAgentStep (f p)) s
  = (Rejected e,
     withAgentStep (last (List.map f (reports c)) (agentStep s)) s,
     List.map f (reports c)).
Proof.
  intros H. unfold await, bind. rewrite notify_setAgentStep, H.
  rewrite fold_withAgentStep, app_nil_r. reflexivity.
Qed.

Lemma runAgent_resolved (ocr : OcrService) (s : State)
    (results : list OcrResult.t) :
  images s <> [] ->
  settles (ocr (ocrInput (images s))) = Resolved results ->
  runAgent ocr s
  = (Resolved tt,
     mkState (images s) false results (buildSubtitles (images s) results)
       65 (str "Ready to render") (videoUrl s) (bgmEnabled s) (fps s)
       (resolution s),
     0 :: List.map ocrPercent (reports (ocr (ocrInput (images s))))
       ++ [50; 65]).
Proof.
  intros Himg Hres. unfold runAgent.
  destruct (images s) as [|i imgs] eqn:E; [congruence|].
  cbn [List.length Nat.eqb].
  unfold bind at 1. unfold setIsProcessing at 1, update at 1.
  unfold bind at 1. unfold setAgentStep at 1.
  unfold bind at 1. unfold setAgentLabel at 1, update at 1.
  unfold bind at 1.
  rewrite (@await_resolved _ _ ocrPercent _ _ Hres).
  destruct s. cbn in E. subst. reflexivity.
Qed.

Lemma runAgent_rejected (ocr : OcrService) (s : State) (e : jsstring) :
  images s <> [] ->
  settles (ocr (ocrInput (images s))) = Rejected e ->
  runAgent ocr s
  = (Rejected e,
     mkState (images s) true (ocrResults s) (subtitles s)
       (last (List.map ocrPercent (reports (ocr (ocrInput (images s))))) 0)
       (str "Analyzing pages with OCR") (videoUrl s) (bgmEnabled s) (fps s)
       (resolution s),
     0 :: List.map ocrPercent (reports (ocr (ocrInput (images s))))).
Proof.
  intros Himg Hres. unfold runAgent.
  destruct (images s) as [|i imgs] eqn:E; [congruence|].
  cbn [List.length Nat.eqb].
  unfold bind at 1. unfold setIsProcessing at 1, update at 1.
  unfold bind at 1. unfold setAgentStep at 1.
  unfold bind at 1. unfold setAgentLabel at 1, update at 1.
  unfold bind at 1.
  rewrite (@await_rejected _ _ ocrPercent _ _ Hres).
  destruct s. cbn in E. subst. reflexivity.
Qed.

Lemma runAgent_no_images (ocr : OcrService) (s : State) :
  images s = [] -> runAgent ocr s = (Resolved tt, s, []).
Proof.
  intros E. unfold runAgent. rewrite E. reflexivity.
Qed.

Lemma renderVideo_resolved (render : RenderService) (s : State)
    (url : jsstring) :
  images s <> [] -> subtitles s <> [] ->
  settles (render (renderRequest s)) = Resolved url ->
  renderVideo render s
  = (Resolved tt,
     mkState (images s) false (ocrResults s) (subtitles s) 100
       (str "Completed") (Some url) (bgmEnabled s) (fps s) (resolution s),
     70 :: List.map renderPercent (reports (render (renderRequest s)))
        ++ [100]).
Proof.
  intros Himg Hsub Hres. unfold renderVideo.
  destruct (images s) as [|i imgs] eqn:E; [congruence|].
  destruct (subtitles s) as [|u subs] eqn:E'; [congruence|].
  cbn [List.length Nat.eqb orb].
  unfold bind at 1. unfold setIsProcessing at 1, update at 1.
  unfold bind at 1. unfold setAgentLabel at 1, update at 1.
  unfold bind at 1. unfold setAgentStep at 1.
  unfold bind at 1.
  rewrite (@await_resolved _ _ renderPercent _ _ Hres).
  destruct s. cbn in E, E'. subst. reflexivity.
Qed.

Lemma renderVideo_rejected (render : RenderService) (s : State)
    (e : jsstring) :
  images s <> [] -> subtitles s <> [] ->
  settles (render (renderRequest s)) = Rejected e ->
  renderVideo render s
  = (Rejected e,
     mkState (images s) true (ocrResults s) (subtitles s)
       (last (List.map renderPercent (reports (render (renderRequest s))))
             70)
       (str "Rendering animation to video") (videoUrl s) (bgmEnabled s)
       (fps s) (resolution s),
     70 :: List.map renderPercent (reports (render (renderRequest s)))).
Proof.
  intros Himg Hsub Hres. unfold renderVideo.
  destruct (images s) as [|i imgs] eqn:E; [congruence|].
  destruct (subtitles s) as [|u subs] eqn:E'; [congruence|].
  cbn [List.length Nat.eqb orb].
  unfold bind at 1. unfold setIsProcessing at 1, update at 1.
  unfold bind at 1. unfold setAgentLabel at 1, update at 1.
  unfold bind at 1. unfold setAgentStep at 1.
  unfold bind at 1.
  rewrite (@await_rejected _ _ renderPercent _ _ Hres).
  destruct s. cbn in E, E'. subst. reflexivity.
Qed.

Lemma renderVideo_guard (render : RenderService) (s : State) :
  images s = [] \/ subtitles s = [] ->
  renderVideo render s = (Resolved tt, s, []).
Proof.
  intros [E|E]; unfold renderVideo; rewrite E; cbn [List.length Nat.eqb orb].
  - reflexivity.
  - rewrite orb_true_r. reflexivity.
Qed.

(** ** Progress *)

Lemma ocrPercent_mono (p q : Q) : (p <= q)%Q -> ocrPercent p <= ocrPercent q.
Proof.
  intros H. apply Math_round_le, binary64_mono.
  apply Qmult_le_compat_r; [exact H | discriminate].
Qed.

Lemma renderPercent_mono (p q : Q) :
  (p <= q)%Q -> renderPercent p <= renderPercent q.
Proof.
  intros H. unfold renderPercent, Number_add. apply Number_ofInteger_mono.
  assert (Math_round (Number_mul 30 p) <= Math_round (Number_mul 30 q));
    [|lia].
  apply Math_round_le, binary64_mono.
  rewrite !(Qmult_comm 30). apply Qmult_le_compat_r; [exact H | discriminate].
Qed.

Lemma ocrPercent_0 : ocrPercent 0 = 0.
Proof. vm_compute. reflexivity. Qed.

Lemma ocrPercent_1 : ocrPercent 1 = 25.
Proof. vm_compute. reflexivity. Qed.

Lemma renderPercent_0 : renderPercent 0 = 70.
Proof. vm_compute. reflexivity. Qed.

Lemma renderPercent_1 : renderPercent 1 = 100.
Proof. vm_compute. reflexivity. Qed.

Lemma ocrPercent_range (p : Q) : inUnit p -> 0 <= ocrPercent p <= 25.
Proof.
  intros [H0 H1].
  pose proof (ocrPercent_mono 0 p H0). pose proof (ocrPercent_mono p 1 H1).
  rewrite ocrPercent_0 in *. rewrite ocrPercent_1 in *. lia.
Qed.

Lemma renderPercent_range (p : Q) : inUnit p -> 70 <= renderPercent p <= 100.
Proof.
  intros [H0 H1].
  pose proof (renderPercent_mono 0 p H0).
  pose proof (renderPercent_mono p 1 H1).
  rewrite renderPercent_0 in *. rewrite renderPercent_1 in *. lia.
Qed.

(** Rounding a value to a double before rounding it to an integer moves
    the integer by one at most. *)
Lemma Math_round_binary64 (x : Q) :
  (0 <= x)%Q -> (x <= inject_Z (2 ^ 52))%Q ->
  Z.abs (Math_round (binary64 x) - Math_round x) <= 1.
Proof.
  intros H0 Hhi.
  pose proof (Qfloor_le x) as Hlo. pose proof (Qlt_floor x) as Hup.
  set (k := Qfloor x) in *.
  assert (Hk0 : 0 <= k).
  { unfold k. rewrite <- (Qfloor_Z 0). apply Qfloor_resp_le. exact H0. }
  assert (Hk1 : k <= 2 ^ 52).
  { unfold k. rewrite <- (Qfloor_Z (2 ^ 52)). apply Qfloor_resp_le.
    exact Hhi. }
  assert (Hb : (inject_Z k <= binary64 x)%Q /\ (binary64 x <= inject_Z (k + 1))%Q).
  { split.
    - rewrite <- (binary64_Z k) by lia. apply binary64_mono. exact Hlo.
    - rewrite <- (binary64_Z (k + 1)) by lia. apply binary64_mono.
      apply Qlt_le_weak. exact Hup. }
  destruct Hb as [Hb1 Hb2].
  pose proof (Math_round_le _ _ Hb1) as R1.
  pose proof (Math_round_le _ _ Hb2) as R2.
  pose proof (Math_round_le _ _ Hlo) as R3.
  pose proof (Math_round_le _ _ (Qlt_le_weak _ _ Hup)) as R4.
  rewrite Math_round_integer in R1, R2, R3, R4. lia.
Qed.

Lemma ocrPercent_near (f : Q) :
  inUnit f ->
  Z.abs (ocrPercent f - exactOcrPercent f) <= 1
  /\ ((binary64 (f * 25) == f * 25)%Q -> ocrPercent f = exactOcrPercent f).
Proof.
  intros [H0 H1]. unfold ocrPercent, exactOcrPercent, Number_mul.
  rewrite (Math_round_compat (25 * f) (f * 25)) by apply Qmult_comm.
  split.
  - apply Math_round_binary64; [|change (inject_Z (2 ^ 52)) with
      (4503599627370496 # 1)%Q]; lra.
  - intros E. apply Math_round_compat. exact E.
Qed.

Lemma renderPercent_unit (f : Q) :
  inUnit f -> renderPercent f = 70 + Math_round (Number_mul 30 f).
Proof.
  intros [H0 H1]. unfold renderPercent, Number_add.
  apply Number_ofInteger_safe.
  assert (H : 0 <= Math_round (Number_mul 30 f) <= 30); [|lia].
  unfold Number_mul. split.
  - change 0 with (Math_round (binary64 (30 * 0))).
    apply Math_round_le, binary64_mono. lra.
  - change 30 with (Math_round (binary64 (30 * 1))) at 2.
    apply Math_round_le, binary64_mono. lra.
Qed.

Lemma renderPercent_near (f : Q) :
  inUnit f ->
  Z.abs (renderPercent f - exactRenderPercent f) <= 1
  /\ ((binary64 (30 * f) == 30 * f)%Q ->
      renderPercent f = exactRenderPercent f).
Proof.
  intros Hf. rewrite (renderPercent_unit f Hf). destruct Hf as [H0 H1].
  unfold exactRenderPercent, Number_mul. split.
  - assert (Z.abs (Math_round (binary64 (30 * f)) - Math_round (30 * f)) <= 1);
      [|lia].
    apply Math_round_binary64; [|change (inject_Z (2 ^ 52)) with
      (4503599627370496 # 1)%Q]; lra.
  - intros E. f_equal. apply Math_round_compat. exact E.
Qed.

(** C8 as stated fails: the percent is rounded from the double product,
    not from the exact one. The Number 0.3 is slightly below 3/10 and 25
    times it slightly below 7.5, which rounds to 7; but the product, as a
    double, is 7.5, and the page displays 8. In the same way the Number
    0.15 displays 75 during rendering where the formula gives 74. *)
Lemma product_is_rounded :
  inUnit (binary64 (3 # 10)) /\ inUnit (binary64 (15 # 100))
  /\ snd (runAgent threeTenthsOcr loaded) = [0; 8; 50; 65]
  /\ exactOcrPercent (binary64 (3 # 10)) = 7
  /\ snd (renderVideo threeTwentiethsRender editing) = [70; 75; 100]
  /\ exactRenderPercent (binary64 (15 # 100)) = 74
  /\ snd (runAgent threeTenthsOcr loaded)
     <> 0 :: List.map exactOcrPercent
               (reports (threeTenthsOcr (ocrInput (images loaded))))
          ++ [50; 65]
  /\ snd (renderVideo threeTwentiethsRender editing)
     <> 70 :: List.map exactRenderPercent
                (reports (threeTwentiethsRender (renderRequest editing)))
           ++ [100].
Proof.
  repeat split; try (vm_compute; reflexivity); try (vm_compute; discriminate).
Qed.

(** C8, amended. A run of [runAgent] that recognizes successfully
    displays 0, then for each reported fraction [Math.round] of the
    double product [fraction * 25], then the fixed checkpoints 50 and 65;
    a successful [renderVideo] displays 70, then 70 plus [Math.round] of
    the double product [30 * fraction] for each report, and ends at 100.
    For a fraction in [[0, 1]] these percents lie in [[0, 25]] and
    [[70, 100]], are within 1 of [round(25 * fraction)] and
    [70 + round(30 * fraction)], and equal them when the product is a
    double. The fractions 0, 0.4, 1 display 0, 10, 25 and 0.5 displays
    85. *)
Theorem progress_mapping (ocr : OcrService) (render : RenderService)
    (s s' : State) (results : list OcrResult.t) (url : jsstring)
    (Himages : images s <> [])
    (Hocr : settles (ocr (ocrInput (images s))) = Resolved results)
    (Himages' : images s' <> []) (Hsubtitles' : subtitles s' <> [])
    (Hrender : settles (render (renderRequest s')) = Resolved url)
    (f : Q) (Hf : inUnit f) :
  snd (runAgent ocr s)
  = 0 :: List.map (fun fraction => Math_round (Number_mul fraction 25))
           (reports (ocr (ocrInput (images s))))
      ++ [50; 65]
  /\ snd (renderVideo render s')
     = 70 :: List.map
               (fun fraction =>
                  Number_add 70 (Math_round (Number_mul 30 fraction)))
               (reports (render (renderRequest s')))
          ++ [100]
  /\ agentStep (snd (fst (renderVideo render s'))) = 100
  /\ 0 <= Math_round (Number_mul f 25) <= 25
  /\ Z.abs (Math_round (Number_mul f 25) - exactOcrPercent f) <= 1
  /\ ((binary64 (f * 25) == f * 25)%Q ->
      Math_round (Number_mul f 25) = exactOcrPercent f)
  /\ Number_add 70 (Math_round (Number_mul 30 f))
     = 70 + Math_round (Number_mul 30 f)
  /\ 70 <= 70 + Math_round (Number_mul 30 f) <= 100
  /\ Z.abs (70 + Math_round (Number_mul 30 f) - exactRenderPercent f) <= 1
  /\ ((binary64 (30 * f) == 30 * f)%Q ->
      70 + Math_round (Number_mul 30 f) = exactRenderPercent f)
  /\ List.map (fun fraction => Math_round (Number_mul fraction 25))
       [0; binary64 (4 # 10); 1]%Q
     = [0; 10; 25]
  /\ Number_add 70 (Math_round (Number_mul 30 (1 # 2))) = 85.
Proof.
  rewrite (runAgent_resolved ocr s results Himages Hocr).
  rewrite (renderVideo_resolved render s' url Himages' Hsubtitles' Hrender).
  cbn [fst snd agentStep].
  pose proof (ocrPercent_range f Hf) as H25.
  pose proof (ocrPercent_near f Hf) as [N25 E25].
  pose proof (renderPercent_range f Hf) as H30.
  pose proof (renderPercent_near f Hf) as [N30 E30].
  pose proof (renderPercent_unit f Hf) as U30.
  rewrite U30 in H30, N30, E30.
  repeat split; try assumption; try apply H25; try apply H30;
    vm_compute; reflexivity.
Qed.

Lemma progress_mapping_witness :
  snd (runAgent (steadyOcr [str "Hello world."]) loaded) = [0; 0; 10; 25; 50; 65]
  /\ snd (renderVideo steadyRender editing) = [70; 85; 100; 100].
Proof.
  assert (H1 : images loaded <> []) by (vm_compute; discriminate).
  assert (H2 : images editing <> []) by (vm_compute; discriminate).
  assert (H3 : subtitles editing <> []) by (vm_compute; discriminate).
  destruct (progress_mapping (steadyOcr [str "Hello world."]) steadyRender
              loaded editing
              [OcrResult.mk (UploadedImage.id page1) (str "Hello world.")]
              (str "blob:video") H1 eq_refl H2 H3 eq_refl (1 # 2)
              ltac:(split; discriminate))
    as (Ha & Hb & _).
  split; [rewrite Ha | rewrite Hb]; vm_compute; reflexivity.
Defined.

(** ** Rejections *)

(** C1 as stated fails: when the OCR call rejects, [isProcessing] is
    still [true] after the rejection has reached the caller. *)
Lemma busy_after_rejection :
  fst (fst (runAgent failingOcr loaded)) = Rejected (str "ocr failed")
  /\ ~ isProcessing (snd (fst (runAgent failingOcr loaded))) = false.
Proof.
  split.
  - reflexivity.
  - vm_compute. discriminate.
Qed.

(** C1, amended. A rejection of the OCR call, or of the render call,
    reaches the caller of the handler; the results, captions, video handle
    and page list are what they were, the stage label is the one set
    before the call and the percent is the one last displayed; the busy
    flag set on entry is still set. *)
Theorem rejection_propagates (ocr : OcrService) (render : RenderService)
    (s : State) (e : jsstring) (Himages : images s <> []) :
  (settles (ocr (ocrInput (images s))) = Rejected e ->
   let '(outcome, s', shown) := runAgent ocr s in
   outcome = Rejected e
   /\ images s' = images s
   /\ ocrResults s' = ocrResults s
   /\ subtitles s' = subtitles s
   /\ videoUrl s' = videoUrl s
   /\ agentLabel s' = str "Analyzing pages with OCR"
   /\ agentStep s' = last shown 0
   /\ isProcessing s' = true)
  /\ (subtitles s <> [] ->
      settles (render (renderRequest s)) = Rejected e ->
      let '(outcome, s', shown) := renderVideo render s in
      outcome = Rejected e
      /\ images s' = images s
      /\ ocrResults s' = ocrResults s
      /\ subtitles s' = subtitles s
      /\ videoUrl s' = videoUrl s
      /\ agentLabel s' = str "Rendering animation to video"
      /\ agentStep s' = last shown 0
      /\ isProcessing s' = true).
Proof.
  split.
  - intros Hrej. rewrite (runAgent_rejected ocr s e Himages Hrej).
    cbn [images ocrResults subtitles videoUrl agentLabel agentStep
         isProcessing].
    repeat split.
    destruct (List.map ocrPercent (reports (ocr (ocrInput (images s)))))
      as [|x l] eqn:E; [reflexivity|].
    change (last (x :: l) 0 = last (x :: l) 0). reflexivity.
  - intros Hsub Hrej.
    rewrite (renderVideo_rejected render s e Himages Hsub Hrej).
    cbn [images ocrResults subtitles videoUrl agentLabel agentStep
         isProcessing].
    repeat split.
    destruct (List.map renderPercent (reports (render (renderRequest s))))
      as [|x l] eqn:E; [reflexivity|].
    change (last (x :: l) 70 = last (x :: l) 0). apply last_nonempty.
Qed.

Lemma rejection_propagates_witness :
  isProcessing (snd (fst (runAgent failingOcr loaded))) = true.
Proof.
  assert (H : images loaded <> []) by (vm_compute; discriminate).
  pose proof (proj1 (@rejection_propagates failingOcr failingRender loaded
                       (str "ocr failed") H) eq_refl) as P.
  destruct (runAgent failingOcr loaded) as [[outcome s'] shown].
  apply P.
Defined.

(** Nothing the user can do afterwards clears the flag: every control
    that could is disabled while it is set. *)
Lemma busy_is_permanent (s : State) (events : list Event) :
  isProcessing s = true ->
  isProcessing (fold_left handle events s) = true.
Proof.
  revert s. induction events as [|ev events IH]; intros s Hs; [exact Hs|].
  cbn [fold_left]. apply IH.
  destruct ev as [items| |ocr|render|id v|id v|o|r|b]; cbn [handle];
    try (destruct (List.length (subtitles s) =? 0)%nat; [exact Hs|];
         destruct s; exact Hs).
  - destruct items; [destruct s|]; exact Hs.
  - rewrite Hs. exact Hs.
  - rewrite Hs. exact Hs.
  - rewrite Hs, orb_true_r. exact Hs.
Qed.

(** ** Monotonicity of the displayed percent *)

Lemma chain_weaken (lo lo' hi hi' : Z) (l : list Z) :
  lo' <= lo -> hi <= hi' -> chain lo hi l -> chain lo' hi' l.
Proof.
  revert lo lo'. induction l as [|x l IH]; simpl; intros lo lo' H1 H2 H.
  - lia.
  - destruct H as [Hx Hl]. split; [lia|].
    apply (IH x x); [lia | exact H2 | exact Hl].
Qed.

Lemma chain_app (a b c : Z) (l1 l2 : list Z) :
  chain a b l1 -> chain b c l2 -> chain a c (l1 ++ l2).
Proof.
  revert a. induction l1 as [|x l1 IH]; simpl; intros a H1 H2.
  - apply chain_weaken with (lo := b) (hi := c); [exact H1 | lia | exact H2].
  - destruct H1 as [Hx Hl]. split; [exact Hx|]. apply IH; assumption.
Qed.

Lemma chain_nondecreasing (lo hi : Z) (l : list Z) :
  chain lo hi l -> nondecreasing l.
Proof.
  revert lo. induction l as [|x l IH]; intros lo H; [exact I|].
  destruct H as [Hx Hl]. destruct l as [|y l]; [exact I|].
  split; [apply Hl | apply (IH x Hl)].
Qed.

Lemma chain_map_from (f : Q -> Z) (hi : Z) (fs : list Q) (p : Q) :
  (forall a b, (a <= b)%Q -> f a <= f b) ->
  (forall a, inUnit a -> f a <= hi) ->
  inUnit p -> Forall inUnit fs -> ascending (p :: fs) ->
  chain (f p) hi (List.map f fs).
Proof.
  intros Hmono Hhi. revert p.
  induction fs as [|q fs IH]; intros p Hp Hfs Hasc.
  - apply Hhi. exact Hp.
  - inversion Hfs as [|? ? Hq Hfs']; subst. destruct Hasc as [Hpq Hasc].
    split; [apply Hmono; exact Hpq|]. apply IH; assumption.
Qed.

(** A monotone map of ascending fractions is a chain. *)
Lemma chain_map (f : Q -> Z) (lo hi : Z) (fs : list Q) :
  (forall a b, (a <= b)%Q -> f a <= f b) ->
  (forall a, inUnit a -> lo <= f a <= hi) ->
  lo <= hi ->
  Forall inUnit fs -> ascending fs -> chain lo hi (List.map f fs).
Proof.
  intros Hmono Hrange Hlohi Hfs Hasc. destruct fs as [|p fs]; [exact Hlohi|].
  inversion Hfs as [|? ? Hp Hfs']; subst.
  split; [apply Hrange; exact Hp|].
  apply chain_map_from; try assumption. intros a Ha. apply Hrange. exact Ha.
Qed.

Lemma Forall_map_range (f : Q -> Z) (lo hi : Z) (fs : list Q) :
  (forall a, inUnit a -> lo <= f a <= hi) ->
  Forall inUnit fs ->
  Forall (fun x => lo <= x <= hi) (List.map f fs).
Proof.
  intros Hrange Hfs. apply Forall_map.
  eapply Forall_impl; [|exact Hfs]. exact Hrange.
Qed.

(** What [runAgent] displays: nothing (no page), or 0 and the mapped
    reports (rejection), followed by the two checkpoints (success). *)
Lemma runAgent_shown (ocr : OcrService) (s : State) :
  let mapped :=
    List.map ocrPercent (reports (ocr (ocrInput (images s)))) in
  snd (runAgent ocr s) = []
  \/ snd (runAgent ocr s) = [0] ++ mapped
  \/ snd (runAgent ocr s) = [0] ++ mapped ++ [50; 65].
Proof.
  cbv zeta. destruct (images s) as [|i imgs] eqn:E.
  - left. rewrite runAgent_no_images by exact E. reflexivity.
  - assert (Hne : images s <> []) by congruence. rewrite <- E.
    destruct (settles (ocr (ocrInput (images s)))) as [results|e] eqn:Hs.
    + right. right. rewrite (runAgent_resolved ocr s results Hne Hs).
      reflexivity.
    + right. left. rewrite (runAgent_rejected ocr s e Hne Hs). reflexivity.
Qed.

Lemma renderVideo_shown (render : RenderService) (s : State) :
  let mapped :=
    List.map renderPercent (reports (render (renderRequest s))) in
  snd (renderVideo render s) = []
  \/ snd (renderVideo render s) = [70] ++ mapped
  \/ snd (renderVideo render s) = [70] ++ mapped ++ [100].
Proof.
  cbv zeta. destruct (images s) as [|i imgs] eqn:E.
  { left. rewrite renderVideo_guard by (left; exact E). reflexivity. }
  destruct (subtitles s) as [|u subs] eqn:E'.
  { left. rewrite renderVideo_guard by (right; exact E'). reflexivity. }
  assert (Hne : images s <> []) by congruence.
  assert (Hne' : subtitles s <> []) by congruence.
  destruct (settles (render (renderRequest s))) as [url|e] eqn:Hs.
  - right. right. rewrite (renderVideo_resolved render s url Hne Hne' Hs).
    reflexivity.
  - right. left. rewrite (renderVideo_rejected render s e Hne Hne' Hs).
    reflexivity.
Qed.

Lemma runAgent_chain (ocr : OcrService) (s : State) :
  Forall inUnit (reports (ocr (ocrInput (images s)))) ->
  ascending (reports (ocr (ocrInput (images s)))) ->
  chain 0 65 (snd (runAgent ocr s)).
Proof.
  intros Hunit Hasc.
  assert (Hc : chain 0 25
                 (List.map ocrPercent (reports (ocr (ocrInput (images s)))))).
  { apply chain_map;
      [exact ocrPercent_mono | exact ocrPercent_range | lia | assumption ..]. }
  destruct (runAgent_shown ocr s) as [->|[->| ->]].
  - simpl. lia.
  - apply chain_app with (b := 0); [simpl; lia|].
    apply chain_weaken with (lo := 0) (hi := 25); [lia | lia | exact Hc].
  - apply chain_app with (b := 0); [simpl; lia|].
    apply chain_app with (b := 25); [exact Hc | simpl; lia].
Qed.

Lemma renderVideo_chain (render : RenderService) (s : State) :
  Forall inUnit (reports (render (renderRequest s))) ->
  ascending (reports (render (renderRequest s))) ->
  chain 65 100 (snd (renderVideo render s)).
Proof.
  intros Hunit Hasc.
  assert (Hc : chain 70 100
                 (List.map renderPercent
                    (reports (render (renderRequest s))))).
  { apply chain_map;
      [exact renderPercent_mono | exact renderPercent_range | lia
      | assumption ..]. }
  destruct (renderVideo_shown render s) as [->|[->| ->]].
  - simpl. lia.
  - apply chain_app with (b := 70); [simpl; lia | exact Hc].
  - apply chain_app with (b := 70); [simpl; lia|].
    apply chain_app with (b := 100); [exact Hc | simpl; lia].
Qed.

Lemma runAgent_bounded (ocr : OcrService) (s : State) :
  Forall inUnit (reports (ocr (ocrInput (images s)))) ->
  Forall (fun percent => 0 <= percent <= 100) (snd (runAgent ocr s)).
Proof.
  intros Hunit.
  assert (Hm : Forall (fun x => 0 <= x <= 100)
                 (List.map ocrPercent (reports (ocr (ocrInput (images s)))))).
  { apply Forall_map_range; [|exact Hunit].
    intros a Ha. pose proof (ocrPercent_range a Ha). lia. }
  destruct (runAgent_shown ocr s) as [->|[->| ->]];
    rewrite ?Forall_app; repeat split; try exact Hm;
    repeat constructor; lia.
Qed.

Lemma renderVideo_bounded (render : RenderService) (s : State) :
  Forall inUnit (reports (render (renderRequest s))) ->
  Forall (fun percent => 0 <= percent <= 100) (snd (renderVideo render s)).
Proof.
  intros Hunit.
  assert (Hm : Forall (fun x => 0 <= x <= 100)
                 (List.map renderPercent
                    (reports (render (renderRequest s))))).
  { apply Forall_map_range; [|exact Hunit].
    intros a Ha. pose proof (renderPercent_range a Ha). lia. }
  destruct (renderVideo_shown render s) as [->|[->| ->]];
    rewrite ?Forall_app; repeat split; try exact Hm;
    repeat constructor; lia.
Qed.

(** C2 as stated fails: nothing guards against a late report. An OCR
    service that reports 1 and then 0 makes the display go from 25 back
    to 0. *)
Lemma percent_regresses :
  Forall inUnit (reports (regressingOcr (ocrInput (images loaded))))
  /\ snd (runAgent regressingOcr loaded) = [0; 25; 0; 50; 65]
  /\ ~ nondecreasing (snd (runAgent regressingOcr loaded)).
Proof.
  split; [|split; [reflexivity|]].
  - repeat constructor; discriminate.
  - vm_compute. intros (_ & H & _). apply H. reflexivity.
Qed.

(** C2, amended. Over [runAgent] followed by [renderVideo], whatever the
    outcome of either call: when the collaborators report fractions in
    [[0, 1]], every displayed percent is within [[0, 100]]; when, as their
    contract says, the fractions of each call also never decrease, the
    displayed percent never decreases. *)
Theorem percent_monotone (ocr : OcrService) (render : RenderService)
    (s s' : State)
    (Hocr : Forall inUnit (reports (ocr (ocrInput (images s)))))
    (Hrender : Forall inUnit (reports (render (renderRequest s')))) :
  let shown := snd (runAgent ocr s) ++ snd (renderVideo render s') in
  Forall (fun percent => 0 <= percent <= 100) shown
  /\ (ascending (reports (ocr (ocrInput (images s)))) ->
      ascending (reports (render (renderRequest s'))) ->
      nondecreasing shown).
Proof.
  cbv zeta. split.
  - apply Forall_app. split.
    + apply runAgent_bounded. exact Hocr.
    + apply renderVideo_bounded. exact Hrender.
  - intros Hasc Hasc'. apply (chain_nondecreasing 0 100).
    apply chain_app with (b := 65).
    + apply runAgent_chain; assumption.
    + apply renderVideo_chain; assumption.
Qed.

Lemma percent_monotone_witness :
  nondecreasing (snd (runAgent (steadyOcr []) loaded)
                 ++ snd (renderVideo steadyRender editing)).
Proof.
  apply (percent_monotone (steadyOcr []) steadyRender loaded editing).
  - repeat constructor; discriminate.
  - repeat constructor; discriminate.
  - vm_compute. repeat split; discriminate.
  - vm_compute. repeat split; discriminate.
Defined.

(** ** The duration floor *)

Lemma forEachFrom_invariant {A St} (P : St -> Prop)
    (f : St -> A -> nat -> St) :
  (forall s x i, P s -> P (f s x i)) ->
  forall l i s, P s -> P (forEachFrom f i l s).
Proof.
  intros Hf l. induction l as [|x l IH]; intros i s Hs; simpl.
  - exact Hs.
  - apply IH. apply Hf. exact Hs.
Qed.

Lemma fold_left_invariant {A St} (P : St -> Prop) (f : St -> A -> St) :
  (forall s x, P s -> P (f s x)) ->
  forall l s, P s -> P (fold_left f l s).
Proof.
  intros Hf l. induction l as [|x l IH]; intros s Hs; simpl.
  - exact Hs.
  - apply IH. apply Hf. exact Hs.
Qed.

Lemma chunkDurationMs_range (chunk : jsstring) :
  1500 <= chunkDurationMs chunk <= 7000.
Proof. unfold chunkDurationMs. lia. Qed.

(** Every caption the timeline builder creates lasts between 1500 and
    7000 ms. *)
Lemma buildSubtitles_durations (images : list UploadedImage.t)
    (results : list OcrResult.t) :
  Forall (fun u => 1500 <= SubtitleItem.durationMs u <= 7000)
         (buildSubtitles images results).
Proof.
  set (P := Forall (fun u => 1500 <= SubtitleItem.durationMs u <= 7000)).
  assert (Hseg : P (forEach pushPage results [])).
  { unfold forEach. apply forEachFrom_invariant; [|constructor].
    intros subs r i Hsubs. unfold pushPage.
    apply fold_left_invariant; [|exact Hsubs].
    intros acc chunk Hacc. unfold pushChunk.
    apply Forall_app. split; [exact Hacc|].
    constructor; [|constructor]. apply chunkDurationMs_range. }
  unfold buildSubtitles.
  destruct (List.length (forEach pushPage results []) =? 0)%nat;
    [|exact Hseg].
  unfold forEach at 1. apply forEachFrom_invariant; [|exact Hseg].
  intros subs img i Hsubs. unfold pushFallback.
  apply Forall_app. split; [exact Hsubs|].
  constructor; [|constructor]. simpl. lia.
Qed.

Lemma runAgent_subtitles (ocr : OcrService) (s : State) :
  subtitles (snd (fst (runAgent ocr s))) = subtitles s
  \/ exists results,
       subtitles (snd (fst (runAgent ocr s)))
       = buildSubtitles (images s) results.
Proof.
  destruct (images s) as [|i imgs] eqn:E.
  - left. rewrite runAgent_no_images by exact E. reflexivity.
  - assert (Hne : images s <> []) by congruence. rewrite <- E.
    destruct (settles (ocr (ocrInput (images s)))) as [results|e] eqn:Hs.
    + right. exists results. rewrite (runAgent_resolved ocr s results Hne Hs).
      reflexivity.
    + left. rewrite (runAgent_rejected ocr s e Hne Hs). reflexivity.
Qed.

Lemma renderVideo_subtitles (render : RenderService) (s : State) :
  subtitles (snd (fst (renderVideo render s))) = subtitles s.
Proof.
  destruct (images s) as [|i imgs] eqn:E.
  { rewrite renderVideo_guard by (left; exact E). reflexivity. }
  destruct (subtitles s) as [|u subs] eqn:E'.
  { rewrite renderVideo_guard by (right; exact E'). simpl. exact E'. }
  assert (Hne : images s <> []) by congruence.
  assert (Hne' : subtitles s <> []) by congruence.
  rewrite <- E'.
  destruct (settles (render (renderRequest s))) as [url|e] eqn:Hs.
  - rewrite (renderVideo_resolved render s url Hne Hne' Hs). reflexivity.
  - rewrite (renderVideo_rejected render s e Hne Hne' Hs). reflexivity.
Qed.

Lemma handle_floor (s : State) (ev : Event) :
  floorHolds s -> floorHolds (handle s ev).
Proof.
  unfold floorHolds. intros H.
  destruct ev as [items| |ocr|render|id v|id v|o|r|b]; cbn [handle];
    try (destruct (List.length (subtitles s) =? 0)%nat; exact H).
  - destruct items; [constructor | exact H].
  - destruct (isProcessing s); [exact H | constructor].
  - destruct (isProcessing s || (List.length (images s) =? 0)%nat);
      [exact H|].
    destruct (runAgent_subtitles ocr s) as [->|[results ->]]; [exact H|].
    eapply Forall_impl; [|apply buildSubtitles_durations].
    cbn. intros; lia.
  - destruct ((List.length (subtitles s) =? 0)%nat || isProcessing s);
      [exact H|].
    rewrite renderVideo_subtitles. exact H.
  - destruct (List.length (subtitles s) =? 0)%nat; [exact H|].
    unfold updateSubtitleText. cbn [subtitles withSubtitles].
    apply Forall_map. eapply Forall_impl; [|exact H].
    intros u Hu. destruct (JS.eqb (SubtitleItem.id u) id); exact Hu.
  - destruct (List.length (subtitles s) =? 0)%nat; [exact H|].
    unfold onDurationChange, updateSubtitleDuration.
    cbn [subtitles withSubtitles].
    apply Forall_map. eapply Forall_impl; [|exact H].
    intros u Hu. destruct (JS.eqb (SubtitleItem.id u) id); [|exact Hu].
    cbn. lia.
Qed.

Lemma fold_handle_floor (events : list Event) (s : State) :
  floorHolds s -> floorHolds (fold_left handle events s).
Proof.
  revert s. induction events as [|ev events IH]; intros s H; [exact H|].
  cbn [fold_left]. apply IH. apply handle_floor. exact H.
Qed.

(** C9. After any sequence of user events, every caption lasts at least
    500 ms: captions are created with 1500 to 7000 ms (segmented text) or
    2000 ms (fallback), and a duration edit stores
    [max(500, parseInt(value) || 0)] in the caption it names, so an input
    that is not a number, or a number below 500, gives 500 and a larger
    one is kept. *)
Theorem duration_floor (events : list Event) (s : State)
    (id value : jsstring) (u : SubtitleItem.t)
    (images : list UploadedImage.t) (results : list OcrResult.t)
    (Hin : In u (subtitles s)) (Hid : SubtitleItem.id u = id) :
  Forall (fun c => 500 <= SubtitleItem.durationMs c)
         (subtitles (session events))
  /\ Forall (fun c => 1500 <= SubtitleItem.durationMs c <= 7000)
            (buildSubtitles images results)
  /\ In (SubtitleItem.mk (SubtitleItem.id u) (SubtitleItem.text u)
           (Z.max 500 (orZero (parseInt value))) (SubtitleItem.pageIndex u))
        (subtitles (onDurationChange id value s))
  /\ (parseInt value = None -> Z.max 500 (orZero (parseInt value)) = 500)
  /\ (forall v, parseInt value = Some v ->
        Z.max 500 (orZero (parseInt value)) = if v <? 500 then 500 else v)
  /\ parseInt (str "-50") = Some (-50)
  /\ parseInt (str "abc") = None.
Proof.
  split; [|split; [|split; [|split; [|split; [|split]]]]].
  - apply fold_handle_floor. constructor.
  - apply buildSubtitles_durations.
  - unfold onDurationChange, updateSubtitleDuration.
    cbn [subtitles withSubtitles].
    apply in_map_iff. exists u. split; [|exact Hin].
    apply eqb_true_iff in Hid. rewrite Hid. reflexivity.
  - intros ->. reflexivity.
  - intros v ->. cbn [orZero].
    destruct (v <? 500) eqn:E; rewrite ?Z.ltb_lt, ?Z.ltb_ge in E; lia.
  - reflexivity.
  - reflexivity.
Qed.

Lemma duration_floor_witness :
  In (SubtitleItem.mk (str "a") (str "A") 500 0)
     (subtitles (onDurationChange (str "a") (str "-50") editing))
  /\ In (SubtitleItem.mk (str "a") (str "A") 500 0)
        (subtitles (onDurationChange (str "a") (str "abc") editing)).
Proof.
  split.
  - apply (duration_floor [] editing (str "a") (str "-50") captionA [] []).
    + left. reflexivity.
    + reflexivity.
  - apply (duration_floor [] editing (str "a") (str "abc") captionA [] []).
    + left. reflexivity.
    + reflexivity.
Defined.

(** ** The timeline *)

Lemma numberFrom_app (k : nat) (l1 l2 : list (OcrResult.t * nat * jsstring)) :
  numberFrom k (l1 ++ l2)
  = numberFrom k l1 ++ numberFrom (k + List.length l1) l2.
Proof.
  revert k. induction l1 as [|[[r i] c] l1 IH]; intros k; simpl.
  - rewrite Nat.add_0_r. reflexivity.
  - rewrite IH. do 3 f_equal. lia.
Qed.

Lemma numberFrom_length (k : nat) (l : list (OcrResult.t * nat * jsstring)) :
  List.length (numberFrom k l) = List.length l.
Proof.
  revert k. induction l as [|[[r i] c] l IH]; intros k; simpl;
    [reflexivity | rewrite IH; reflexivity].
Qed.

Lemma numberFrom_nth (k j : nat) (l : list (OcrResult.t * nat * jsstring))
    (u : SubtitleItem.t) :
  nth_error (numberFrom k l) j = Some u ->
  exists r pageIndex chunk,
    nth_error l j = Some (r, pageIndex, chunk)
    /\ u = SubtitleItem.mk
             (OcrResult.imageId r ++ str "-" ++ toString (Z.of_nat (k + j)))
             chunk (chunkDurationMs chunk) (Z.of_nat pageIndex).
Proof.
  revert k j. induction l as [|[[r i] c] l IH]; intros k j H.
  - destruct j; discriminate.
  - destruct j as [|j]; simpl in H.
    + injection H as <-. exists r, i, c. rewrite Nat.add_0_r.
      split; reflexivity.
    + apply IH in H. destruct H as (r' & i' & c' & Hn & ->).
      exists r', i', c'. split; [exact Hn|].
      replace (k + S j)%nat with (S k + j)%nat by lia. reflexivity.
Qed.

Lemma fold_pushChunk (r : OcrResult.t) (pageIndex : nat)
    (cs : list jsstring) (subs : list SubtitleItem.t) :
  fold_left (pushChunk r pageIndex) cs subs
  = subs ++ numberFrom (List.length subs)
              (List.map (fun chunk => (r, pageIndex, chunk)) cs).
Proof.
  revert subs. induction cs as [|c cs IH]; intros subs; simpl.
  - rewrite app_nil_r. reflexivity.
  - rewrite IH. unfold pushChunk. rewrite <- app_assoc, length_app. simpl.
    do 3 f_equal. lia.
Qed.

Lemma forEachFrom_pushPage (pageIndex : nat) (results : list OcrResult.t)
    (subs : list SubtitleItem.t) :
  forEachFrom pushPage pageIndex results subs
  = subs ++ numberFrom (List.length subs) (segmentedFrom pageIndex results).
Proof.
  revert pageIndex subs.
  induction results as [|r results IH]; intros i subs; simpl.
  - rewrite app_nil_r. reflexivity.
  - rewrite IH. unfold pushPage. rewrite fold_pushChunk.
    rewrite numberFrom_app, <- app_assoc, length_app, numberFrom_length.
    reflexivity.
Qed.

Lemma forEach_pushPage (results : list OcrResult.t) :
  forEach pushPage results [] = numberFrom 0 (segmentedFrom 0 results).
Proof. unfold forEach. rewrite forEachFrom_pushPage. reflexivity. Qed.

Lemma forEachFrom_pushFallback (idx : nat) (images : list UploadedImage.t)
    (subs : list SubtitleItem.t) :
  forEachFrom pushFallback idx images subs = subs ++ fallbackFrom idx images.
Proof.
  revert idx subs. induction images as [|img images IH]; intros i subs; simpl.
  - rewrite app_nil_r. reflexivity.
  - rewrite IH. unfold pushFallback. rewrite <- app_assoc. reflexivity.
Qed.

Lemma segmentedFrom_In (i : nat) (results : list OcrResult.t)
    (r : OcrResult.t) (p : nat) (c : jsstring) :
  In (r, p, c) (segmentedFrom i results) ->
  (i <= p)%nat /\ nth_error results (p - i) = Some r
  /\ In c (chunks (OcrResult.text r)).
Proof.
  revert i. induction results as [|r0 results IH]; intros i H; simpl in H.
  - contradiction.
  - apply in_app_or in H. destruct H as [H|H].
    + apply in_map_iff in H. destruct H as (c' & [= -> -> ->] & Hc).
      rewrite Nat.sub_diag. repeat split; [lia | exact Hc].
    + apply IH in H. destruct H as (Hle & Hn & Hc).
      split; [lia|]. split; [|exact Hc].
      replace (p - i)%nat with (S (p - S i)) by lia. exact Hn.
Qed.

Lemma segmentedFrom_nil (i : nat) (results : list OcrResult.t) :
  (forall r, In r results -> chunks (OcrResult.text r) = []) ->
  segmentedFrom i results = [].
Proof.
  revert i. induction results as [|r results IH]; intros i H; simpl.
  - reflexivity.
  - rewrite (H r) by (left; reflexivity). simpl.
    apply IH. intros r' Hr'. apply H. right. exact Hr'.
Qed.

Lemma segmentedFrom_nonempty (i : nat) (results : list OcrResult.t)
    (r : OcrResult.t) :
  In r results -> chunks (OcrResult.text r) <> [] ->
  segmentedFrom i results <> [].
Proof.
  revert i. induction results as [|r0 results IH]; intros i Hin Hne; simpl.
  - contradiction.
  - destruct Hin as [->|Hin].
    + destruct (chunks (OcrResult.text r)); [congruence | discriminate].
    + intros H. apply app_eq_nil in H. destruct H as [_ H].
      revert H. apply IH; assumption.
Qed.

Lemma fallbackFrom_length (idx : nat) (images : list UploadedImage.t) :
  List.length (fallbackFrom idx images) = List.length images.
Proof.
  revert idx. induction images as [|img images IH]; intros idx; simpl;
    [reflexivity | rewrite IH; reflexivity].
Qed.

Lemma fallbackFrom_nth (idx k : nat) (images : list UploadedImage.t)
    (img : UploadedImage.t) :
  nth_error images k = Some img ->
  nth_error (fallbackFrom idx images) k
  = Some (SubtitleItem.mk (UploadedImage.id img ++ str "-fallback")
            (str "Page " ++ toString (Z.of_nat (idx + k) + 1)) 2000
            (Z.of_nat (idx + k))).
Proof.
  revert idx k. induction images as [|img0 images IH]; intros idx k H.
  - destruct k; discriminate.
  - destruct k as [|k]; simpl in H |- *.
    + injection H as ->. rewrite Nat.add_0_r. reflexivity.
    + rewrite (IH (S idx) k H).
      replace (S idx + k)%nat with (idx + S k)%nat by lia. reflexivity.
Qed.

Lemma fallbackFrom_durations (idx : nat) (images : list UploadedImage.t) :
  Forall (fun u => SubtitleItem.durationMs u = 2000)
         (fallbackFrom idx images).
Proof.
  revert idx. induction images as [|img images IH]; intros idx;
    constructor; [reflexivity | apply IH].
Qed.

Lemma chunks_empty : chunks [] = [].
Proof. reflexivity. Qed.

Lemma buildSubtitles_segmented (images : list UploadedImage.t)
    (results : list OcrResult.t) :
  segmentedFrom 0 results <> [] ->
  buildSubtitles images results = numberFrom 0 (segmentedFrom 0 results).
Proof.
  intros Hne. unfold buildSubtitles. rewrite forEach_pushPage.
  destruct (segmentedFrom 0 results) as [|[[r i] c] l]; [congruence|].
  reflexivity.
Qed.

Lemma buildSubtitles_fallback (images : list UploadedImage.t)
    (results : list OcrResult.t) :
  segmentedFrom 0 results = [] ->
  buildSubtitles images results = fallbackFrom 0 images.
Proof.
  intros Hnil. unfold buildSubtitles. rewrite forEach_pushPage, Hnil.
  cbn [numberFrom List.length Nat.eqb]. unfold forEach.
  rewrite forEachFrom_pushFallback. reflexivity.
Qed.

(** C3 as stated fails: the number in the id does not restart on each
    page. With two pages of one caption each, the caption of the second
    page is the first of its page but its id ends in 1. *)
Lemma id_index_not_per_page :
  let subs := buildSubtitles [page1; page2] resultsHiHi in
  List.map SubtitleItem.id subs
  = [ UploadedImage.id page1 ++ str "-0"; UploadedImage.id page2 ++ str "-1" ]
  /\ indexWithinPage subs 1 = 0%nat
  /\ nth 1 (List.map SubtitleItem.id subs) []
     <> UploadedImage.id page2 ++ str "-"
        ++ toString (Z.of_nat (indexWithinPage subs 1)).
Proof.
  vm_compute. repeat split. discriminate.
Qed.

(** C3, amended. A caption made from segmented OCR text has the id
    [{imageId}-{k}], where [imageId] is that of the OCR result of its page
    and [k] is the caption's 0-based position in the whole caption list,
    counted across pages. *)
Theorem caption_id_running_index (images : list UploadedImage.t)
    (results : list OcrResult.t) (k : nat) (u : SubtitleItem.t)
    (Hk : nth_error (forEach pushPage results []) k = Some u) :
  nth_error (buildSubtitles images results) k = Some u
  /\ exists r,
       nth_error results (Z.to_nat (SubtitleItem.pageIndex u)) = Some r
       /\ In (SubtitleItem.text u) (chunks (OcrResult.text r))
       /\ SubtitleItem.id u
          = OcrResult.imageId r ++ str "-" ++ toString (Z.of_nat k).
Proof.
  rewrite forEach_pushPage in Hk.
  assert (Hne : segmentedFrom 0 results <> []).
  { intros E. rewrite E in Hk. destruct k; discriminate. }
  rewrite (@buildSubtitles_segmented images results Hne).
  split; [exact Hk|].
  apply numberFrom_nth in Hk. destruct Hk as (r & p & c & Hn & ->).
  apply nth_error_In, segmentedFrom_In in Hn.
  destruct Hn as (_ & Hr & Hc).
  exists r. cbn [SubtitleItem.pageIndex SubtitleItem.text SubtitleItem.id].
  rewrite Nat2Z.id. rewrite Nat.sub_0_r in Hr.
  repeat split; assumption.
Qed.

Lemma caption_id_running_index_witness :
  exists r,
    nth_error resultsHiHi 1 = Some r
    /\ In (str "Hi.") (chunks (OcrResult.text r))
    /\ UploadedImage.id page2 ++ str "-1"
       = OcrResult.imageId r ++ str "-" ++ toString 1.
Proof.
  apply (@caption_id_running_index [page1; page2] resultsHiHi 1
           (SubtitleItem.mk (UploadedImage.id page2 ++ str "-1") (str "Hi.")
              1500 1)).
  reflexivity.
Defined.

(** C5. When no page yields a chunk (in particular when every text is
    empty), the timeline is one caption per page, in page order, with the
    text [Page n] for the n-th page and 2000 ms; so it has as many captions
    as there are pages. When some page yields a chunk, there is no
    fallback: every caption carries a chunk of its own page, so a page
    without chunks has no caption. *)
Theorem fallback_timeline (images : list UploadedImage.t)
    (results : list OcrResult.t) :
  ((forall r, In r results ->
      OcrResult.text r = [] \/ chunks (OcrResult.text r) = []) ->
   buildSubtitles images results = fallbackFrom 0 images
   /\ List.length (buildSubtitles images results) = List.length images
   /\ Forall (fun u => SubtitleItem.durationMs u = 2000)
             (buildSubtitles images results)
   /\ forall k img, nth_error images k = Some img ->
        nth_error (buildSubtitles images results) k
        = Some (SubtitleItem.mk (UploadedImage.id img ++ str "-fallback")
                  (str "Page " ++ toString (Z.of_nat k + 1)) 2000
                  (Z.of_nat k)))
  /\ (forall r0, In r0 results -> chunks (OcrResult.text r0) <> [] ->
      buildSubtitles images results = forEach pushPage results []
      /\ forall u, In u (buildSubtitles images results) ->
           exists r,
             nth_error results (Z.to_nat (SubtitleItem.pageIndex u)) = Some r
             /\ In (SubtitleItem.text u) (chunks (OcrResult.text r)))
  /\ List.map (fun u => (SubtitleItem.text u, SubtitleItem.pageIndex u))
       (buildSubtitles [page1; page2; page3] resultsEndToEnd)
     = [ (str "Hello world.", 0); (str "Line one.", 2);
         (str "Line two.", 2) ].
Proof.
  split; [|split].
  - intros Hall.
    assert (E : buildSubtitles images results = fallbackFrom 0 images).
    { apply buildSubtitles_fallback, segmentedFrom_nil. intros r Hr.
      destruct (Hall r Hr) as [H|H]; [rewrite H; apply chunks_empty|].
      exact H. }
    rewrite E. split; [reflexivity|]. split; [|split].
    + apply fallbackFrom_length.
    + apply fallbackFrom_durations.
    + intros k img Hk. apply (fallbackFrom_nth 0) in Hk. exact Hk.
  - intros r0 Hin Hne.
    assert (Hseg : segmentedFrom 0 results <> []).
    { apply segmentedFrom_nonempty with (r := r0); assumption. }
    rewrite (@buildSubtitles_segmented images results Hseg), forEach_pushPage.
    split; [reflexivity|].
    intros u Hu. apply In_nth_error in Hu. destruct Hu as [k Hk].
    apply numberFrom_nth in Hk. destruct Hk as (r & p & c & Hn & ->).
    apply nth_error_In, segmentedFrom_In in Hn.
    destruct Hn as (_ & Hr & Hc). rewrite Nat.sub_0_r in Hr.
    exists r. cbn [SubtitleItem.pageIndex SubtitleItem.text].
    rewrite Nat2Z.id. split; assumption.
  - vm_compute. reflexivity.
Qed.

Lemma fallback_timeline_witness :
  buildSubtitles [page1; page2]
    [ OcrResult.mk (UploadedImage.id page1) [];
      OcrResult.mk (UploadedImage.id page2) [] ]
  = fallbackFrom 0 [page1; page2]
  /\ List.length
       (buildSubtitles [page1; page2]
          [ OcrResult.mk (UploadedImage.id page1) [];
            OcrResult.mk (UploadedImage.id page2) [] ])
     = 2%nat.
Proof.
  destruct (@fallback_timeline [page1; page2]
              [ OcrResult.mk (UploadedImage.id page1) [];
                OcrResult.mk (UploadedImage.id page2) [] ])
    as (Hfb & _).
  assert (Hall : forall r,
             In r [ OcrResult.mk (UploadedImage.id page1) [];
                    OcrResult.mk (UploadedImage.id page2) [] ] ->
             OcrResult.text r = [] \/ chunks (OcrResult.text r) = []).
  { intros r [<-|[<-|[]]]; left; reflexivity. }
  destruct (Hfb Hall) as (H1 & H2 & _).
  split; [exact H1 | exact H2].
Defined.

(** ** Segmentation *)

Lemma blank_app (a b : jsstring) : blank a -> blank b -> blank (a ++ b).
Proof.
  unfold blank. intros Ha Hb. rewrite forallb_app, Ha, Hb. reflexivity.
Qed.

Lemma blank_rev (a : jsstring) : blank a -> blank (rev a).
Proof.
  unfold blank. rewrite !forallb_forall. intros H x Hx.
  apply H. apply in_rev. exact Hx.
Qed.

Lemma trimStart_split (s : jsstring) :
  exists l, blank l /\ s = l ++ trimStart s.
Proof.
  induction s as [|c s IH]; simpl.
  - exists []. split; reflexivity.
  - destruct (isWhiteSpace c) eqn:E.
    + destruct IH as (l & Hl & Hs). exists (c :: l). split.
      * unfold blank in *. simpl. rewrite E, Hl. reflexivity.
      * simpl. f_equal. exact Hs.
    + exists []. split; reflexivity.
Qed.

Lemma trimStart_head (s : jsstring) (c : N) (t : jsstring) :
  trimStart s = c :: t -> isWhiteSpace c = false.
Proof.
  induction s as [|x s IH]; simpl; [discriminate|].
  destruct (isWhiteSpace x) eqn:E; [exact IH|].
  intros [= <- <-]. exact E.
Qed.

Lemma trimStart_fixed (s : jsstring) (c : N) :
  isWhiteSpace c = false -> trimStart (c :: s) = c :: s.
Proof. intros E. simpl. rewrite E. reflexivity. Qed.

Lemma trimEnd_split (s : jsstring) :
  exists r, blank r /\ s = trimEnd s ++ r.
Proof.
  unfold trimEnd. destruct (trimStart_split (rev s)) as (l & Hl & Hs).
  exists (rev l). split; [apply blank_rev; exact Hl|].
  rewrite <- rev_app_distr, <- Hs, rev_involutive. reflexivity.
Qed.

Lemma trim_split (s : jsstring) :
  exists l r, blank l /\ blank r /\ s = l ++ trim s ++ r.
Proof.
  destruct (trimStart_split s) as (l & Hl & Hs).
  destruct (trimEnd_split (trimStart s)) as (r & Hr & Ht).
  exists l, r. repeat split; [exact Hl | exact Hr|].
  unfold trim. rewrite <- Ht. exact Hs.
Qed.

Lemma last_rev_head {A} (x : A) (l : list A) (d : A) :
  last (rev (x :: l)) d = x.
Proof. simpl. apply last_last. Qed.

Lemma trim_isTrimmed (s : jsstring) : isTrimmed (trim s).
Proof.
  unfold trim, trimEnd.
  destruct (trimStart (rev (trimStart s))) as [|z w] eqn:Ez; [exact I|].
  pose proof (trimStart_head _ _ _ Ez) as Hz.
  (* [rev (z :: w)] ends with [z]; it is a prefix of [trimStart s]. *)
  assert (Hlast : forall d, last (rev (z :: w)) d = z)
    by (intros d; apply last_rev_head).
  destruct (rev (z :: w)) as [|c t] eqn:Er.
  { apply (f_equal (@List.length N)) in Er. rewrite length_rev in Er.
    discriminate. }
  unfold isTrimmed. rewrite Hlast. split; [|exact Hz].
  (* the head [c] is the head of [trimStart s] *)
  destruct (trimStart_split (rev (trimStart s))) as (l & Hl & Hs).
  rewrite Ez in Hs. apply (f_equal (@rev N)) in Hs.
  rewrite rev_involutive, rev_app_distr, Er in Hs. simpl in Hs.
  apply (trimStart_head s _ _ Hs).
Qed.

Lemma isNewline_isWhiteSpace (c : N) :
  isNewline c = true -> isWhiteSpace c = true.
Proof.
  unfold isNewline. intros H. apply N.eqb_eq in H. subst. reflexivity.
Qed.

Lemma runLength_firstn (p : N -> bool) (s : jsstring) :
  forallb p (firstn (runLength p s) s) = true.
Proof.
  induction s as [|c s IH]; simpl; [reflexivity|].
  destruct (p c) eqn:E; simpl; [rewrite E, IH|]; reflexivity.
Qed.

Lemma runLength_le (p : N -> bool) (s : jsstring) :
  (runLength p s <= List.length s)%nat.
Proof.
  induction s as [|c s IH]; simpl; [lia|].
  destruct (p c); simpl; lia.
Qed.

Lemma matchSeparator_blank (prev : option N) (s : jsstring) (n : nat) :
  matchSeparator prev s = Some n ->
  blank (firstn n s) /\ (1 <= n <= List.length s)%nat.
Proof.
  unfold matchSeparator.
  destruct (2 <=? runLength isNewline s)%nat eqn:E2.
  - intros [= <-]. apply Nat.leb_le in E2. split.
    + unfold blank. apply forallb_forall. intros x Hx.
      apply isNewline_isWhiteSpace.
      pose proof (runLength_firstn isNewline s) as H.
      rewrite forallb_forall in H. apply H. exact Hx.
    + pose proof (runLength_le isNewline s). lia.
  - destruct prev as [b|]; [|discriminate].
    destruct (isTerminal b); [|discriminate].
    destruct (1 <=? runLength isWhiteSpace s)%nat eqn:E1; [|discriminate].
    intros [= <-]. apply Nat.leb_le in E1. split.
    + apply runLength_firstn.
    + pose proof (runLength_le isWhiteSpace s). lia.
Qed.

Lemma hasSplitPoint_app (a b : jsstring) :
  hasSplitPoint (a ++ b) = false ->
  hasSplitPoint a = false /\ hasSplitPoint b = false.
Proof.
  induction a as [|x a IH]; intros H.
  - split; [reflexivity | exact H].
  - destruct a as [|y a].
    + split; [reflexivity|]. destruct b as [|z b]; [reflexivity|].
      simpl in H. apply orb_false_iff in H. apply H.
    + change (splitPoint x y || hasSplitPoint ((y :: a) ++ b) = false) in H.
      apply orb_false_iff in H. destruct H as [Hxy H].
      destruct (IH H) as [Ha Hb]. split; [|exact Hb].
      change (splitPoint x y || hasSplitPoint (y :: a) = false).
      rewrite Hxy, Ha. reflexivity.
Qed.

Lemma hasSplitPoint_app_l (a b : jsstring) :
  hasSplitPoint a = true -> hasSplitPoint (a ++ b) = true.
Proof.
  intros H. destruct (hasSplitPoint (a ++ b)) eqn:E; [reflexivity|].
  apply hasSplitPoint_app in E. destruct E as [E _]. congruence.
Qed.

Lemma hasSplitPoint_app_r (a b : jsstring) :
  hasSplitPoint b = true -> hasSplitPoint (a ++ b) = true.
Proof.
  intros H. destruct (hasSplitPoint (a ++ b)) eqn:E; [reflexivity|].
  apply hasSplitPoint_app in E. destruct E as [_ E]. congruence.
Qed.

Lemma hasSplitPoint_snoc (a : jsstring) (c d : N) :
  hasSplitPoint a = false ->
  (a <> [] -> splitPoint (last a d) c = false) ->
  hasSplitPoint (a ++ [c]) = false.
Proof.
  induction a as [|x a IH]; intros Ha Hl; [reflexivity|].
  destruct a as [|y a].
  - simpl. rewrite orb_false_r. apply (Hl ltac:(discriminate)).
  - change (splitPoint x y || hasSplitPoint (y :: a) = false) in Ha.
    apply orb_false_iff in Ha. destruct Ha as [Hxy Ha].
    change (splitPoint x y || hasSplitPoint ((y :: a) ++ [c]) = false).
    rewrite Hxy. simpl orb. apply IH; [exact Ha|].
    intros _. apply Hl. discriminate.
Qed.

(** A split point of [a ++ b] that is not in [a] is at the last code unit
    of [a] or after it. *)
Lemma hasSplitPoint_last (a b : jsstring) (d : N) :
  hasSplitPoint (a ++ b) = true -> hasSplitPoint a = false -> a <> [] ->
  hasSplitPoint (last a d :: b) = true.
Proof.
  induction a as [|x a IH]; intros H Ha Hne; [congruence|].
  destruct a as [|y a]; [exact H|].
  change (splitPoint x y || hasSplitPoint (y :: a) = false) in Ha.
  apply orb_false_iff in Ha. destruct Ha as [Hxy Ha].
  change (splitPoint x y || hasSplitPoint ((y :: a) ++ b) = true) in H.
  rewrite Hxy in H. simpl orb in H.
  apply (IH H Ha). discriminate.
Qed.

Lemma isTerminal_not_space (b : N) :
  isWhiteSpace b = true -> isTerminal b = false.
Proof.
  unfold isTerminal. intros H.
  destruct (b =? 46)%N eqn:E1; [apply N.eqb_eq in E1; subst; discriminate|].
  destruct (b =? 33)%N eqn:E2; [apply N.eqb_eq in E2; subst; discriminate|].
  destruct (b =? 63)%N eqn:E3; [apply N.eqb_eq in E3; subst; discriminate|].
  reflexivity.
Qed.

(** A match either contains two newlines or is white space right after a
    terminator. *)
Lemma matchSeparator_splits (prev : option N) (s : jsstring) (n : nat) :
  matchSeparator prev s = Some n ->
  hasSplitPoint (firstn n s) = true
  \/ exists b a t,
       prev = Some b /\ isTerminal b = true
       /\ firstn n s = a :: t /\ isWhiteSpace a = true.
Proof.
  unfold matchSeparator.
  destruct (2 <=? runLength isNewline s)%nat eqn:E2.
  - intros [= <-]. left. apply Nat.leb_le in E2.
    destruct s as [|a [|b s]]; simpl in E2 |- *; try lia.
    + destruct (isNewline a); simpl in E2; lia.
    + destruct (isNewline a) eqn:Ea; [|simpl in E2; lia].
      destruct (isNewline b) eqn:Eb; [|simpl in E2; lia].
      simpl. unfold splitPoint. rewrite Ea, Eb. reflexivity.
  - destruct prev as [b|]; [|discriminate].
    destruct (isTerminal b) eqn:Eb; [|discriminate].
    destruct (1 <=? runLength isWhiteSpace s)%nat eqn:E1; [|discriminate].
    intros [= <-]. right. apply Nat.leb_le in E1.
    destruct s as [|a s]; simpl in E1 |- *; [lia|].
    destruct (isWhiteSpace a) eqn:Ea; [|lia].
    exists b, a, (firstn (runLength isWhiteSpace s) s).
    repeat split; [exact Eb | exact Ea].
Qed.

Lemma splitFrom_tiles (prev : option N) (piece s : jsstring) :
  scanning prev piece s ->
  tiles (splitFrom prev piece s) (piece ++ s).
Proof.
  funelim (splitFrom prev piece s); intros (Hfree & Hlast & Hstart & Hnl).
  - rewrite app_nil_r. constructor. exact Hfree.
  - destruct (matchSeparator_blank _ _ _ e) as [Hblank Hn].
    replace (piece ++ c :: rest)
      with (piece ++ firstn n (c :: rest) ++ skipn n (c :: rest))
      by (rewrite firstn_skipn; reflexivity).
    apply tiles_cons; [exact Hfree | exact Hblank | |].
    + destruct (matchSeparator_splits _ _ _ e)
        as [Hsp|(b & a & t & -> & Hb & Ht & Ha)].
      * apply hasSplitPoint_app_r. exact Hsp.
      * assert (Hne : piece <> []).
        { intros E. rewrite (Hstart E b eq_refl) in Hb. discriminate. }
        specialize (Hlast Hne). injection Hlast as Hlast.
        rewrite Ht, (app_removelast_last 0%N Hne), <- app_assoc, <- Hlast.
        apply hasSplitPoint_app_r.
        cbn. unfold splitPoint. rewrite Hb, Ha, orb_true_r. reflexivity.
    + apply H. clear H H0 Heqcall.
      repeat split; try reflexivity; try congruence.
      intros _ b Hb. apply isTerminal_not_space.
      unfold blank in Hblank. rewrite forallb_forall in Hblank.
      apply Hblank. apply nth_error_In with (n := (n - 1)%nat).
      rewrite nth_error_firstn.
      destruct (n - 1 <? n)%nat eqn:E; [exact Hb|].
      apply Nat.ltb_ge in E. lia.
  - rewrite <- app_assoc in H. apply H. clear H H0 Heqcall.
    unfold matchSeparator in e.
    destruct (2 <=? runLength isNewline (c :: rest))%nat eqn:E2;
      [discriminate|].
    apply Nat.leb_gt in E2.
    repeat split.
    + apply hasSplitPoint_snoc with (d := 0%N); [exact Hfree|].
      intros Hne. specialize (Hlast Hne). unfold splitPoint.
      apply orb_false_iff. split.
      * destruct (isNewline (last piece 0%N)) eqn:Eb; [|reflexivity].
        simpl. apply (Hnl _ c Hlast Hne eq_refl Eb).
      * rewrite Hlast in e.
        destruct (isTerminal (last piece 0%N)); [|reflexivity].
        simpl in e |- *. destruct (isWhiteSpace c); [discriminate|].
        reflexivity.
    + intros _. rewrite last_last. reflexivity.
    + intros Hnil. destruct piece; discriminate.
    + intros b x [= <-] _ Hx Hb. simpl in E2. rewrite Hb in E2.
      destruct rest as [|y rest]; [discriminate|].
      simpl in Hx. injection Hx as <-. simpl in E2.
      destruct (isNewline y); [lia | reflexivity].
Qed.

Lemma split_tiles (s : jsstring) : tiles (split s) s.
Proof.
  apply (splitFrom_tiles None [] s).
  repeat split; try discriminate; congruence.
Qed.

Lemma tiles_free (ps : list jsstring) (s : jsstring) :
  tiles ps s -> Forall (fun p => hasSplitPoint p = false) ps.
Proof.
  induction 1; constructor; try assumption. constructor.
Qed.

Lemma covers_blank_prefix (g : jsstring) (cs : list jsstring)
    (s : jsstring) :
  blank g -> covers cs s -> covers cs (g ++ s).
Proof.
  intros Hg H. destruct H as [gap Hgap|gap c cs rest Hgap Hc Hrest].
  - constructor. apply blank_app; assumption.
  - rewrite app_assoc. constructor; [apply blank_app| |]; assumption.
Qed.

(** After a chunk ending in [b] and white space with a split point, a
    covered text follows. *)
Lemma covers_follows (b : N) (g : jsstring) (cs : list jsstring)
    (s : jsstring) :
  blank g -> hasSplitPoint (b :: g) = true -> covers cs s ->
  follows b cs (g ++ s).
Proof.
  intros Hg Hsp H. destruct H as [gap Hgap|gap c cs rest Hgap Hc Hrest].
  - constructor. apply blank_app; assumption.
  - rewrite app_assoc. constructor.
    + apply blank_app; assumption.
    + apply (hasSplitPoint_app_l (b :: g) gap). exact Hsp.
    + exact Hc.
    + destruct c as [|x c]; [congruence|].
      rewrite (last_nonempty x c b 0%N). exact Hrest.
Qed.

Lemma blank_trim (s : jsstring) : trim s = [] -> blank s.
Proof.
  intros E. destruct (trim_split s) as (l & r & Hl & Hr & Hs).
  rewrite E in Hs. rewrite Hs. apply blank_app; assumption.
Qed.

Lemma last_app_nonempty (a c : jsstring) (d : N) :
  c <> [] -> last (a ++ c) d = last c d.
Proof.
  intros Hc. induction a as [|x a IH]; [reflexivity|].
  cbn [app]. destruct (a ++ c) as [|y t] eqn:E.
  - apply app_eq_nil in E. destruct E as [_ E]. congruence.
  - exact IH.
Qed.

Lemma tiles_covers (ps : list jsstring) (s : jsstring) :
  tiles ps s -> covers (filter truthy (List.map trim ps)) s.
Proof.
  induction 1 as [p Hfree|p sep ps rest Hfree Hsep Hsp Hrest IH].
  - cbn [List.map filter]. destruct (trim p) as [|x t] eqn:E; cbn [truthy].
    + constructor. apply blank_trim. exact E.
    + destruct (trim_split p) as (l & r & Hl & Hr & Hp).
      rewrite E in Hp. rewrite Hp.
      constructor; [exact Hl | discriminate|]. constructor. exact Hr.
  - cbn [List.map filter]. destruct (trim p) as [|x t] eqn:E; cbn [truthy].
    + apply covers_blank_prefix; [apply blank_trim; exact E|].
      apply covers_blank_prefix; assumption.
    + destruct (trim_split p) as (l & r & Hl & Hr & Hp).
      rewrite E in Hp.
      assert (Hc : x :: t <> []) by discriminate.
      replace (p ++ sep ++ rest)
        with (l ++ (x :: t) ++ (r ++ sep) ++ rest)
        by (rewrite Hp, <- !app_assoc; reflexivity).
      constructor; [exact Hl | exact Hc|].
      apply covers_follows; [apply blank_app; assumption | | exact IH].
      rewrite <- (last_app_nonempty l (x :: t) 0%N Hc).
      apply hasSplitPoint_last.
      * replace ((l ++ x :: t) ++ r ++ sep) with (p ++ sep)
          by (rewrite Hp, <- !app_assoc; reflexivity).
        exact Hsp.
      * rewrite Hp, app_assoc in Hfree.
        apply hasSplitPoint_app in Hfree. apply Hfree.
      * intros E0. apply app_eq_nil in E0. destruct E0 as [_ E0].
        congruence.
Qed.

Lemma follows_In (b : N) (cs : list jsstring) (s : jsstring) :
  follows b cs s -> forall c x, In c cs -> In x c -> In x s.
Proof.
  induction 1 as [b gap Hgap|b gap c0 cs rest Hgap Hsp Hc0 Hrest IH];
    intros c x Hc Hx; [contradiction|].
  apply in_or_app. right. apply in_or_app.
  destruct Hc as [<-|Hc]; [left; exact Hx | right].
  apply (IH c x Hc Hx).
Qed.

Lemma covers_In (cs : list jsstring) (s : jsstring) :
  covers cs s -> forall c x, In c cs -> In x c -> In x s.
Proof.
  intros H c x Hc Hx.
  destruct H as [gap Hgap|gap c0 cs rest Hgap Hc0 Hrest]; [contradiction|].
  apply in_or_app. right. apply in_or_app.
  destruct Hc as [<-|Hc]; [left; exact Hx | right].
  apply (follows_In _ _ _ Hrest c x Hc Hx).
Qed.

Lemma chunks_pieces (text : jsstring) (c : jsstring) :
  In c (chunks text) ->
  c <> [] /\ exists p, In p (split (stripCR text)) /\ c = trim p.
Proof.
  unfold chunks. intros H. apply filter_In in H. destruct H as [H Ht].
  apply in_map_iff in H. destruct H as (p & <- & Hp).
  split; [|exists p; split; [exact Hp | reflexivity]].
  intros E. rewrite E in Ht. discriminate.
Qed.

Lemma chunk_facts (text c : jsstring) :
  In c (chunks text) ->
  c <> [] /\ isTrimmed c /\ hasSplitPoint c = false.
Proof.
  intros Hc. destruct (chunks_pieces text c Hc) as (Hne & p & Hp & ->).
  split; [exact Hne|]. split; [apply trim_isTrimmed|].
  assert (Hfree : hasSplitPoint p = false).
  { pose proof (tiles_free _ _ (split_tiles (stripCR text))) as Hall.
    rewrite Forall_forall in Hall. apply Hall. exact Hp. }
  destruct (trim_split p) as (l & r & _ & _ & E).
  rewrite E in Hfree. apply hasSplitPoint_app in Hfree.
  destruct Hfree as [_ Hfree]. apply hasSplitPoint_app in Hfree.
  apply Hfree.
Qed.


(** The segmentation of the example of the specification. *)
Lemma chunks_example :
  chunks (str "Line one." ++ [CR; LF; CR; LF] ++ str "Line two!  And three? ")
  = [str "Line one."; str "Line two!"; str "And three?"].
Proof. vm_compute. reflexivity. Qed.

(** ** Subtitle export *)

Lemma Number_add_safe (a b : Z) :
  Z.abs (a + b) <= MAX_SAFE_INTEGER -> Number_add a b = a + b.
Proof.
  intros H. apply Number_ofInteger_safe. unfold MAX_SAFE_INTEGER in H. lia.
Qed.

(** Up to [MAX_SAFE_INTEGER] the quotients of [fmt] are not affected by
    their rounding: the code's timestamp is the specification's. *)
Lemma fmt_clock (ms : Z) : 0 <= ms <= MAX_SAFE_INTEGER -> fmt ms = clock ms.
Proof.
  intros [H0 H1]. unfold MAX_SAFE_INTEGER in H1.
  pose proof (Z.rem_bound_pos ms 3600000 H0 ltac:(lia)) as R1.
  pose proof (Z.rem_bound_pos ms 60000 H0 ltac:(lia)) as R2.
  unfold fmt, clock, Math_floor.
  change 3600000%Q with (inject_Z 3600000).
  change 60000%Q with (inject_Z 60000).
  change 1000%Q with (inject_Z 1000).
  rewrite (floor_quotient ms 3600000) by lia.
  rewrite (floor_quotient (Z.rem ms 3600000) 60000) by lia.
  rewrite (floor_quotient (Z.rem ms 60000) 1000) by lia.
  reflexivity.
Qed.

Lemma totalMs_nonneg (subs : list SubtitleItem.t) :
  Forall (fun u => 0 <= SubtitleItem.durationMs u) subs -> 0 <= totalMs subs.
Proof.
  induction 1 as [|u subs Hu Hsubs IH]; [reflexivity|].
  cbn [totalMs fold_right]. fold (totalMs subs). lia.
Qed.

(** While the running time is a safe integer, the loop of [exportSrt]
    writes the entries of the specification. *)
Lemma forEachFrom_pushEntry (idx : nat) (subs : list SubtitleItem.t)
    (lines : list jsstring) (t : Z) :
  0 <= t ->
  Forall (fun u => 0 <= SubtitleItem.durationMs u) subs ->
  t + totalMs subs <= MAX_SAFE_INTEGER ->
  forEachFrom pushEntry idx subs (lines, t)
  = (lines ++ entriesFrom (S idx) (cuesFrom t subs), t + totalMs subs).
Proof.
  intros Ht Hsubs. revert idx lines t Ht.
  induction Hsubs as [|u subs Hu Hsubs IH]; intros idx lines t Ht Hmax.
  - simpl. rewrite app_nil_r, Z.add_0_r. reflexivity.
  - pose proof (totalMs_nonneg subs Hsubs) as Hrest.
    cbn [totalMs fold_right] in Hmax. fold (totalMs subs) in Hmax.
    cbn [forEachFrom pushEntry].
    rewrite Number_add_safe by lia.
    rewrite (fmt_clock t), (fmt_clock (t + SubtitleItem.durationMs u))
      by lia.
    rewrite IH by lia.
    cbn [cuesFrom entriesFrom totalMs fold_right].
    rewrite <- app_assoc. fold (totalMs subs).
    replace (Z.of_nat idx + 1) with (Z.of_nat (S idx)) by lia.
    f_equal. lia.
Qed.

Lemma srtLines_entries (subs : list SubtitleItem.t) :
  safeTimeline subs -> srtLines subs = entriesFrom 1 (cues subs).
Proof.
  intros [Hsubs Hmax]. unfold srtLines, forEach, cues.
  rewrite forEachFrom_pushEntry by (try assumption; lia).
  reflexivity.
Qed.

Lemma cuesFrom_nth (t : Z) (subs : list SubtitleItem.t) (k : nat)
    (u : SubtitleItem.t) :
  nth_error subs k = Some u ->
  nth_error (cuesFrom t subs) k
  = Some (t + totalMs (firstn k subs),
          t + totalMs (firstn k subs) + SubtitleItem.durationMs u,
          SubtitleItem.text u).
Proof.
  revert t k. induction subs as [|v subs IH]; intros t k H.
  - destruct k; discriminate.
  - destruct k as [|k]; simpl in H.
    + injection H as ->. simpl. rewrite Z.add_0_r. reflexivity.
    + cbn [cuesFrom nth_error firstn totalMs fold_right].
      rewrite (IH _ _ H). fold (totalMs (firstn k subs)).
      do 3 f_equal; lia.
Qed.

Lemma entriesFrom_nth (seq k : nat) (cs : list SrtReader.Cue)
    (start end_ : Z) (text : jsstring) :
  nth_error cs k = Some (start, end_, text) ->
  firstn 4 (skipn (4 * k) (entriesFrom seq cs))
  = [ toString (Z.of_nat (seq + k));
      clock start ++ str " --> " ++ clock end_;
      text;
      [] ].
Proof.
  revert seq k. induction cs as [|[[s e] t] cs IH]; intros seq k H.
  - destruct k; discriminate.
  - destruct k as [|k]; simpl in H.
    + injection H as -> -> ->. rewrite Nat.add_0_r. reflexivity.
    + replace (4 * S k)%nat with (4 * k + 4)%nat by lia.
      cbn [entriesFrom]. rewrite <- skipn_skipn.
      change (skipn 4 ([toString (Z.of_nat seq);
                        clock s ++ str " --> " ++ clock e; t; []]
                       ++ entriesFrom (S seq) cs))
        with (entriesFrom (S seq) cs).
      rewrite (IH (S seq) k H).
      replace (seq + S k)%nat with (S seq + k)%nat by lia. reflexivity.
Qed.

Lemma entriesFrom_length (seq : nat) (cs : list SrtReader.Cue) :
  List.length (entriesFrom seq cs) = (4 * List.length cs)%nat.
Proof.
  revert seq. induction cs as [|[[s e] t] cs IH]; intros seq;
    [reflexivity|].
  cbn [entriesFrom List.length app]. rewrite IH. lia.
Qed.

(** *** Decimal numerals *)

Lemma of_lu_rev_digit (d : Decimal.uint) (k : Decimal.uint -> Decimal.uint)
    (v : N) :
  (forall x, Decimal.rev (k x) = Decimal.revapp x (k Decimal.Nil)) ->
  Unsigned.of_lu (k Decimal.Nil) = v ->
  Unsigned.of_lu (Decimal.rev (k d))
  = (Unsigned.of_lu (Decimal.rev d) + v * 10 ^ Unsigned.usize d)%N.
Proof.
  intros Hrev Hv. rewrite Hrev, Unsigned.of_lu_revapp, Hv. reflexivity.
Qed.

Ltac digit_case d IH acc K v :=
  change (fold_left SrtReader.digitStep (str (NilEmpty.string_of_uint d))
            (Some (10 * acc + Z.of_N v))
          = Some (acc * 10 ^ Z.of_N (N.succ (Unsigned.usize d))
                  + Z.of_N (Unsigned.of_lu (Decimal.rev (K d)))));
  (rewrite IH, (of_lu_rev_digit d K v) by reflexivity);
  (rewrite N2Z.inj_succ, Z.pow_succ_r, N2Z.inj_add, N2Z.inj_mul, N2Z.inj_pow
    by lia);
  change (Z.of_N 10) with 10; apply f_equal; ring.

Lemma digits_of_uint (d : Decimal.uint) (acc : Z) :
  fold_left SrtReader.digitStep (str (NilEmpty.string_of_uint d)) (Some acc)
  = Some (acc * 10 ^ Z.of_N (Unsigned.usize d)
          + Z.of_N (Unsigned.of_lu (Decimal.rev d))).
Proof.
  revert acc.
  induction d as [|d IH|d IH|d IH|d IH|d IH|d IH|d IH|d IH|d IH|d IH];
    intros acc.
  - simpl. f_equal. lia.
  - digit_case d IH acc Decimal.D0 0%N.
  - digit_case d IH acc Decimal.D1 1%N.
  - digit_case d IH acc Decimal.D2 2%N.
  - digit_case d IH acc Decimal.D3 3%N.
  - digit_case d IH acc Decimal.D4 4%N.
  - digit_case d IH acc Decimal.D5 5%N.
  - digit_case d IH acc Decimal.D6 6%N.
  - digit_case d IH acc Decimal.D7 7%N.
  - digit_case d IH acc Decimal.D8 8%N.
  - digit_case d IH acc Decimal.D9 9%N.
Qed.

Lemma allDigits_of_uint (d : Decimal.uint) :
  allDigits (str (NilEmpty.string_of_uint d)).
Proof.
  unfold allDigits. induction d; simpl; try exact IHd; reflexivity.
Qed.

Lemma toString_nonneg (n : Z) :
  0 <= n ->
  exists d, d <> Decimal.Nil
    /\ toString n = str (NilEmpty.string_of_uint d)
    /\ Z.of_N (Pos.of_uint d) = n.
Proof.
  intros Hn. unfold toString. destruct n as [|p|p]; [| |lia].
  - exists (Decimal.D0 Decimal.Nil). repeat split. discriminate.
  - exists (Pos.to_uint p). split; [apply Unsigned.to_uint_nonnil|].
    split.
    + cbn [Z.to_int NilZero.string_of_int]. unfold NilZero.string_of_uint.
      pose proof (Unsigned.to_uint_nonnil p).
      destruct (Pos.to_uint p); [congruence | reflexivity ..].
    + rewrite Unsigned.of_to. reflexivity.
Qed.

Lemma str_nonempty (d : Decimal.uint) :
  d <> Decimal.Nil -> str (NilEmpty.string_of_uint d) <> [].
Proof. destruct d; [congruence | discriminate ..]. Qed.

Lemma toString_digits (n : Z) :
  0 <= n ->
  allDigits (toString n) /\ toString n <> []
  /\ fold_left SrtReader.digitStep (toString n) (Some 0) = Some n.
Proof.
  intros Hn. destruct (toString_nonneg n Hn) as (d & Hd & -> & Hv).
  split; [apply allDigits_of_uint|]. split; [apply str_nonempty, Hd|].
  rewrite digits_of_uint, <- Unsigned.of_uint_alt, Hv. reflexivity.
Qed.

Lemma toString_length (n : Z) :
  0 <= n < 1000 ->
  List.length (toString n)
  = if n <? 10 then 1%nat else if n <? 100 then 2%nat else 3%nat.
Proof.
  intros Hn.
  assert (Hall : forallb
            (fun k => Nat.eqb (List.length (toString (Z.of_nat k)))
                              (if Z.of_nat k <? 10 then 1%nat
                               else if Z.of_nat k <? 100 then 2%nat
                               else 3%nat))
            (seq 0 1000) = true) by (vm_compute; reflexivity).
  rewrite forallb_forall in Hall.
  specialize (Hall (Z.to_nat n)). rewrite Z2Nat.id in Hall by lia.
  apply Nat.eqb_eq. apply Hall. apply in_seq. lia.
Qed.

Lemma digitStep_zeros (k : nat) (s : jsstring) :
  fold_left SrtReader.digitStep (repeat 48%N k ++ s) (Some 0)
  = fold_left SrtReader.digitStep s (Some 0).
Proof.
  induction k as [|k IH]; [reflexivity|]. simpl. exact IH.
Qed.

Lemma allDigits_app (a b : jsstring) :
  allDigits a -> allDigits b -> allDigits (a ++ b).
Proof.
  unfold allDigits. intros Ha Hb. rewrite forallb_app, Ha, Hb. reflexivity.
Qed.

Lemma allDigits_zeros (k : nat) : allDigits (repeat 48%N k).
Proof. induction k; [reflexivity | exact IHk]. Qed.

(** A zero-padded non-negative integer reads back as itself. *)
Lemma padStart_number (n : Z) (w : nat) :
  0 <= n ->
  allDigits (padStart (toString n) w)
  /\ SrtReader.number (padStart (toString n) w) = Some n.
Proof.
  intros Hn. destruct (toString_digits n Hn) as (Hd & Hne & Hv).
  unfold padStart. split.
  - apply allDigits_app; [apply allDigits_zeros | exact Hd].
  - unfold SrtReader.number.
    destruct (repeat 48%N (w - List.length (toString n)) ++ toString n)
      as [|c t] eqn:E.
    + apply app_eq_nil in E. destruct E as [_ E]. congruence.
    + rewrite <- E, digitStep_zeros. exact Hv.
Qed.

Lemma padStart_length (n : Z) (w : nat) :
  0 <= n < 1000 -> (List.length (toString n) <= w)%nat ->
  List.length (padStart (toString n) w) = w.
Proof.
  intros Hn Hw. unfold padStart. rewrite length_app, repeat_length. lia.
Qed.

(** *** Splitting at a code unit *)

Lemma splitOn_absent (c : N) (a : jsstring) :
  ~ In c a -> SrtReader.splitOn c a = [a].
Proof.
  induction a as [|x a IH]; intros H; [reflexivity|].
  simpl. destruct (x =? c)%N eqn:E.
  - apply N.eqb_eq in E. subst. exfalso. apply H. left. reflexivity.
  - rewrite IH; [reflexivity|]. intros Hin. apply H. right. exact Hin.
Qed.

Lemma splitOn_app (c : N) (a b : jsstring) :
  ~ In c a ->
  SrtReader.splitOn c (a ++ c :: b) = a :: SrtReader.splitOn c b.
Proof.
  induction a as [|x a IH]; intros H.
  - simpl. rewrite N.eqb_refl. reflexivity.
  - simpl. destruct (x =? c)%N eqn:E.
    + apply N.eqb_eq in E. subst. exfalso. apply H. left. reflexivity.
    + rewrite IH; [reflexivity|]. intros Hin. apply H. right. exact Hin.
Qed.

Lemma allDigits_not_In (c : N) (s : jsstring) :
  allDigits s -> ((48 <=? c) && (c <=? 57))%N = false -> ~ In c s.
Proof.
  unfold allDigits. rewrite forallb_forall. intros H Hc Hin.
  rewrite (H c Hin) in Hc. discriminate.
Qed.

(** *** Timestamps *)

Lemma clock_fields (ms : Z) :
  0 <= ms ->
  exists h m sec cs,
    clock ms = pad h ++ [58%N] ++ pad m ++ [58%N] ++ pad sec ++ [44%N]
               ++ padStart (toString cs) 3
    /\ h = ms / 3600000
    /\ 0 <= h /\ 0 <= m < 60 /\ 0 <= sec < 60 /\ 0 <= cs < 1000
    /\ ((h * 60 + m) * 60 + sec) * 1000 + cs = ms.
Proof.
  intros Hms.
  exists (ms / 3600000), (Z.rem ms 3600000 / 60000),
         (Z.rem ms 60000 / 1000), (Z.rem ms 1000).
  split; [reflexivity|]. split; [reflexivity|].
  rewrite !Z.rem_mod_nonneg by lia.
  Z.div_mod_to_equations. lia.
Qed.

Lemma pad_two (n : Z) :
  0 <= n < 60 ->
  allDigits (pad n) /\ SrtReader.number (pad n) = Some n
  /\ List.length (pad n) = 2%nat.
Proof.
  intros Hn. unfold pad.
  destruct (@padStart_number n 2 ltac:(lia)) as [Hd Hv].
  repeat split; [exact Hd | exact Hv|].
  apply padStart_length; [lia|].
  rewrite toString_length by lia.
  destruct (n <? 10); [lia|].
  destruct (n <? 100) eqn:E; [lia|]. apply Z.ltb_ge in E. lia.
Qed.

Lemma pad_three (n : Z) :
  0 <= n < 1000 ->
  allDigits (padStart (toString n) 3)
  /\ SrtReader.number (padStart (toString n) 3) = Some n
  /\ List.length (padStart (toString n) 3) = 3%nat.
Proof.
  intros Hn.
  destruct (@padStart_number n 3 ltac:(lia)) as [Hd Hv].
  repeat split; [exact Hd | exact Hv|].
  apply padStart_length; [lia|].
  rewrite toString_length by lia.
  destruct (n <? 10); [lia|]. destruct (n <? 100); lia.
Qed.

(** Reading a formatted time gives the time back, whatever the number of
    hours. *)
Lemma timestamp_clock (ms : Z) :
  0 <= ms -> SrtReader.timestamp (clock ms) = Some ms.
Proof.
  intros Hms.
  destruct (clock_fields ms Hms)
    as (h & m & sec & cs & -> & _ & Hh & Hm & Hsec & Hcs & Hval).
  destruct (@padStart_number h 2 Hh) as [Hdh Hvh]. fold (pad h) in Hdh, Hvh.
  destruct (pad_two m Hm) as (Hdm & Hvm & Hlm).
  destruct (pad_two sec Hsec) as (Hds & Hvs & Hls).
  destruct (pad_three cs Hcs) as (Hdc & Hvc & Hlc).
  unfold SrtReader.timestamp.
  cbn [app].
  rewrite splitOn_app by (apply allDigits_not_In; [exact Hdh | reflexivity]).
  rewrite splitOn_app by (apply allDigits_not_In; [exact Hdm | reflexivity]).
  rewrite splitOn_absent.
  2:{ intros Hin. apply in_app_or in Hin. destruct Hin as [Hin|[Hin|Hin]].
      - revert Hin. apply allDigits_not_In; [exact Hds | reflexivity].
      - discriminate.
      - revert Hin. apply allDigits_not_In; [exact Hdc | reflexivity]. }
  rewrite splitOn_app by (apply allDigits_not_In; [exact Hds | reflexivity]).
  rewrite splitOn_absent
    by (apply allDigits_not_In; [exact Hdc | reflexivity]).
  rewrite Hvh, Hvm, Hvs, Hvc, Hlm, Hls, Hlc.
  cbn [Nat.eqb andb].
  destruct (m <? 60) eqn:E1; [|apply Z.ltb_ge in E1; lia].
  destruct (sec <? 60) eqn:E2; [|apply Z.ltb_ge in E2; lia].
  cbn [andb]. f_equal. exact Hval.
Qed.

Lemma clock_chars (ms : Z) (c : N) :
  0 <= ms ->
  ((48 <=? c) && (c <=? 57))%N = false -> c <> 58%N -> c <> 44%N ->
  ~ In c (clock ms).
Proof.
  intros Hms Hc H58 H44.
  destruct (clock_fields ms Hms)
    as (h & m & sec & cs & -> & _ & Hh & Hm & Hsec & Hcs & _).
  destruct (@padStart_number h 2 Hh) as [Hdh _]. fold (pad h) in Hdh.
  destruct (pad_two m Hm) as (Hdm & _).
  destruct (pad_two sec Hsec) as (Hds & _).
  destruct (pad_three cs Hcs) as (Hdc & _).
  pose proof (@allDigits_not_In c _ Hdh Hc) as Nh.
  pose proof (@allDigits_not_In c _ Hdm Hc) as Nm.
  pose proof (@allDigits_not_In c _ Hds Hc) as Ns.
  pose proof (@allDigits_not_In c _ Hdc Hc) as Nc.
  rewrite !in_app_iff. cbn [In]. intuition congruence.
Qed.

Lemma timing_clock (a b : Z) :
  0 <= a -> 0 <= b ->
  SrtReader.timing (clock a ++ str " --> " ++ clock b) = Some (a, b).
Proof.
  intros Ha Hb. unfold SrtReader.timing.
  change (str " --> ") with ([32%N] ++ str "-->" ++ [32%N]).
  rewrite <- !app_assoc. cbn [app].
  rewrite splitOn_app
    by (apply clock_chars; [exact Ha | reflexivity | discriminate ..]).
  rewrite (@splitOn_app 32 (str "-->"))
    by (intros [H|[H|[H|[]]]]; discriminate).
  rewrite splitOn_absent
    by (apply clock_chars; [exact Hb | reflexivity | discriminate ..]).
  assert (E : JS.eqb (str "-->") (str "-->") = true)
    by (apply eqb_true_iff; reflexivity).
  rewrite E, !timestamp_clock by assumption. reflexivity.
Qed.

(** *** Lines and blocks *)

Lemma splitOn_nonempty (c : N) (s : jsstring) : SrtReader.splitOn c s <> [].
Proof.
  induction s as [|x s IH]; simpl; [discriminate|].
  destruct (x =? c)%N; [discriminate|].
  destruct (SrtReader.splitOn c s); [congruence | discriminate].
Qed.

Lemma splitOn_glue (c : N) (a b : jsstring) :
  SrtReader.splitOn c (a ++ c :: b)
  = SrtReader.splitOn c a ++ SrtReader.splitOn c b.
Proof.
  induction a as [|x a IH]; simpl.
  - rewrite N.eqb_refl. reflexivity.
  - destruct (x =? c)%N; rewrite IH; [reflexivity|].
    pose proof (splitOn_nonempty c a) as Hne.
    destruct (SrtReader.splitOn c a); [congruence | reflexivity].
Qed.

Lemma splitOn_join (c : N) (lines : list jsstring) :
  lines <> [] ->
  SrtReader.splitOn c (join [c] lines)
  = List.concat (List.map (SrtReader.splitOn c) lines).
Proof.
  induction lines as [|l lines IH]; intros Hne; [congruence|].
  destruct lines as [|l' lines].
  - simpl. rewrite app_nil_r. reflexivity.
  - change (join [c] (l :: l' :: lines))
      with (l ++ c :: join [c] (l' :: lines)).
    rewrite splitOn_glue, IH by discriminate. reflexivity.
Qed.

Lemma join_splitOn (c : N) (s : jsstring) :
  join [c] (SrtReader.splitOn c s) = s.
Proof.
  induction s as [|x s IH]; [reflexivity|].
  simpl. pose proof (splitOn_nonempty c s) as Hne.
  destruct (x =? c)%N eqn:E.
  - apply N.eqb_eq in E. subst x.
    destruct (SrtReader.splitOn c s) as [|p ps]; [congruence|].
    change (join [c] ([] :: p :: ps)) with (c :: join [c] (p :: ps)).
    rewrite IH. reflexivity.
  - destruct (SrtReader.splitOn c s) as [|p ps]; [congruence|].
    destruct ps as [|q ps].
    + simpl in IH |- *. rewrite IH. reflexivity.
    + change (join [c] ((x :: p) :: q :: ps))
        with (x :: (p ++ c :: join [c] (q :: ps))).
      change (join [c] (p :: q :: ps))
        with (p ++ c :: join [c] (q :: ps)) in IH.
      rewrite IH. reflexivity.
Qed.

Lemma blocks_text (textLines t : list jsstring) (acc : list SrtReader.Cue)
    (rest : list jsstring) (s e : Z) :
  Forall (fun line => line <> []) textLines ->
  SrtReader.blocks (SrtReader.Text s e t) acc (textLines ++ [] :: rest)
  = SrtReader.blocks SrtReader.Index
      ((s, e, join [LF] (rev t ++ textLines)) :: acc) rest.
Proof.
  revert t. induction textLines as [|l tl IH]; intros t H.
  - simpl. rewrite app_nil_r. reflexivity.
  - inversion H as [|? ? Hl Htl]; subst.
    cbn [app SrtReader.blocks].
    destruct l as [|x l]; [congruence|]. cbn [truthy].
    rewrite IH by exact Htl. cbn [rev]. rewrite <- app_assoc.
    reflexivity.
Qed.

Lemma blocks_cue_text (text : jsstring) (acc : list SrtReader.Cue)
    (rest : list jsstring) (s e : Z) :
  readable text ->
  SrtReader.blocks (SrtReader.Text s e []) acc
    (SrtReader.splitOn LF text ++ [] :: rest)
  = SrtReader.blocks SrtReader.Index ((s, e, text) :: acc) rest.
Proof.
  intros [->|H].
  - reflexivity.
  - rewrite blocks_text by exact H. cbn [rev app].
    rewrite join_splitOn. reflexivity.
Qed.

Lemma number_toString (n : Z) :
  0 <= n ->
  SrtReader.number (toString n) = Some n
  /\ truthy (toString n) = true
  /\ ~ In LF (toString n).
Proof.
  intros Hn. destruct (toString_digits n Hn) as (Hd & Hne & Hv).
  split; [|split].
  - unfold SrtReader.number. destruct (toString n); [congruence | exact Hv].
  - destruct (toString n); [congruence | reflexivity].
  - apply allDigits_not_In; [exact Hd | reflexivity].
Qed.

Lemma blocks_entries (cs : list SrtReader.Cue) (seq : nat)
    (acc : list SrtReader.Cue) :
  Forall wellFormedCue cs ->
  SrtReader.blocks SrtReader.Index acc
    (List.concat (List.map (SrtReader.splitOn LF) (entriesFrom seq cs)))
  = Some (rev acc ++ cs).
Proof.
  revert seq acc. induction cs as [|[[s e] t] cs IH]; intros seq acc H.
  - simpl. rewrite app_nil_r. reflexivity.
  - inversion H as [|? ? Hc Hcs]; subst.
    cbn [wellFormedCue] in Hc. destruct Hc as (Hs & He & Ht).
    destruct (@number_toString (Z.of_nat seq) ltac:(lia)) as (Hnum & Htr & Hlf).
    cbn [entriesFrom app List.map List.concat].
    rewrite (splitOn_absent _ _ Hlf).
    rewrite (@splitOn_absent LF (clock s ++ str " --> " ++ clock e)).
    2:{ rewrite !in_app_iff. intros [Hin|[Hin|Hin]].
        - revert Hin. apply clock_chars; [exact Hs | reflexivity | discriminate ..].
        - destruct Hin as [Hin|[Hin|[Hin|[Hin|[Hin|[]]]]]]; discriminate.
        - revert Hin. apply clock_chars; [exact He | reflexivity | discriminate ..]. }
    cbn [app SrtReader.blocks SrtReader.splitOn].
    rewrite Htr, Hnum, (timing_clock s e Hs He).
    rewrite (blocks_cue_text _ _ _ _ _ Ht), IH by exact Hcs.
    cbn [rev]. rewrite <- app_assoc. reflexivity.
Qed.

Lemma cuesFrom_wellFormed (t : Z) (subs : list SubtitleItem.t) :
  0 <= t -> Forall exportable subs -> Forall wellFormedCue (cuesFrom t subs).
Proof.
  revert t. induction subs as [|u subs IH]; intros t Ht H; [constructor|].
  inversion H as [|? ? [Hd Hr] Hsubs]; subst.
  cbn [cuesFrom]. constructor.
  - repeat split; [lia | lia | exact Hr].
  - apply IH; [lia | exact Hsubs].
Qed.

(** An exported document reads back as the cues it was made from. *)
Lemma exportable_safe (subs : list SubtitleItem.t) :
  Forall exportable subs -> totalMs subs <= MAX_SAFE_INTEGER ->
  safeTimeline subs.
Proof.
  intros H Hmax. split; [|exact Hmax].
  eapply Forall_impl; [|exact H]. intros u [Hu _]. exact Hu.
Qed.

Lemma export_roundtrip (subs : list SubtitleItem.t) :
  Forall exportable subs -> totalMs subs <= MAX_SAFE_INTEGER ->
  SrtReader.parseSrt (join [LF] (srtLines subs)) = Some (cues subs).
Proof.
  intros H Hmax. unfold SrtReader.parseSrt.
  rewrite srtLines_entries by (apply exportable_safe; assumption).
  destruct subs as [|u subs]; [reflexivity|].
  rewrite splitOn_join.
  - apply (blocks_entries _ 1%nat []).
    apply cuesFrom_wellFormed; [lia | exact H].
  - unfold cues. cbn [cuesFrom entriesFrom]. discriminate.
Qed.

(** The fields of a timestamp: digits only, two or more for the hours,
    exactly two for minutes and seconds, three for the milliseconds. *)
Lemma clock_shape (ms : Z) :
  0 <= ms ->
  exists hh mm ss mmm,
    clock ms = hh ++ str ":" ++ mm ++ str ":" ++ ss ++ str "," ++ mmm
    /\ allDigits hh /\ allDigits mm /\ allDigits ss /\ allDigits mmm
    /\ (2 <= List.length hh)%nat /\ List.length mm = 2%nat
    /\ List.length ss = 2%nat /\ List.length mmm = 3%nat
    /\ SrtReader.number hh = Some (ms / 3600000)
    /\ SrtReader.number mm = Some ((ms / 60000) mod 60)
    /\ SrtReader.number ss = Some ((ms / 1000) mod 60)
    /\ SrtReader.number mmm = Some (ms mod 1000).
Proof.
  intros Hms.
  destruct (clock_fields ms Hms)
    as (h & m & sec & cs & E & Eh & Hh & Hm & Hsec & Hcs & Hval).
  destruct (@padStart_number h 2 Hh) as [Hdh Hvh]. fold (pad h) in Hdh, Hvh.
  destruct (pad_two m Hm) as (Hdm & Hvm & Hlm).
  destruct (pad_two sec Hsec) as (Hds & Hvs & Hls).
  destruct (pad_three cs Hcs) as (Hdc & Hvc & Hlc).
  exists (pad h), (pad m), (pad sec), (padStart (toString cs) 3).
  split; [exact E|].
  repeat (split; [assumption|]).
  split; [unfold pad, padStart; rewrite length_app, repeat_length; lia|].
  repeat (split; [assumption|]).
  assert (Em : m = (ms / 60000) mod 60)
    by (subst h; Z.div_mod_to_equations; lia).
  assert (Es : sec = (ms / 1000) mod 60)
    by (subst h; Z.div_mod_to_equations; lia).
  assert (Ec : cs = ms mod 1000)
    by (subst h; Z.div_mod_to_equations; lia).
  rewrite <- Eh, <- Em, <- Es, <- Ec. repeat split; assumption.
Qed.

(** *** Captions as built are exportable *)

Lemma splitOn_head (c x : N) (s : jsstring) :
  x <> c ->
  exists p ps,
    SrtReader.splitOn c (x :: s) = (x :: p) :: ps
    /\ ps = tl (SrtReader.splitOn c s).
Proof.
  intros Hx. simpl. apply N.eqb_neq in Hx. rewrite Hx.
  pose proof (splitOn_nonempty c s) as Hne.
  destruct (SrtReader.splitOn c s) as [|p ps]; [congruence|].
  exists p, ps. split; reflexivity.
Qed.

Lemma splitOn_lines (s : jsstring) :
  hasSplitPoint s = false ->
  (s <> [] -> last s 0%N <> LF) ->
  Forall (fun line => line <> []) (tl (SrtReader.splitOn LF s)).
Proof.
  induction s as [|x s IH]; intros Hfree Hlast; [constructor|].
  assert (Hfree' : hasSplitPoint s = false).
  { apply (hasSplitPoint_app [x] s). exact Hfree. }
  assert (Hlast' : s <> [] -> last s 0%N <> LF).
  { intros Hs. destruct s as [|y s]; [congruence|].
    apply Hlast. discriminate. }
  specialize (IH Hfree' Hlast').
  destruct (N.eq_dec x LF) as [->|Hx].
  - simpl. destruct s as [|y s].
    + exfalso. apply Hlast; [discriminate | reflexivity].
    + assert (Hy : y <> LF).
      { intros ->. simpl in Hfree. discriminate. }
      destruct (splitOn_head LF y s Hy) as (p & ps & E & Eps).
      rewrite E in IH |- *. constructor; [discriminate | exact IH].
  - destruct (splitOn_head LF x s Hx) as (p & ps & E & Eps).
    rewrite E, Eps. exact IH.
Qed.

Lemma chunk_readable (text c : jsstring) :
  In c (chunks text) -> readable c.
Proof.
  intros Hc. destruct (chunk_facts text c Hc) as (Hne & Htrim & Hfree).
  right. destruct c as [|x c]; [congruence|].
  destruct Htrim as [Hx Hl].
  assert (Hx' : x <> LF) by (intros ->; discriminate).
  destruct (splitOn_head LF x c Hx') as (p & ps & E & Eps).
  rewrite E. constructor; [discriminate|]. rewrite Eps.
  apply splitOn_lines.
  - apply (hasSplitPoint_app [x] c). exact Hfree.
  - intros Hc0 El. rewrite (last_nonempty x c x 0%N) in Hl.
    destruct c as [|y c]; [congruence|].
    change (last (x :: y :: c) 0%N) with (last (y :: c) 0%N) in Hl.
    rewrite El in Hl. discriminate.
Qed.

Lemma placeholder_readable (n : Z) :
  0 <= n -> readable (str "Page " ++ toString n).
Proof.
  intros Hn. right.
  destruct (number_toString n Hn) as (_ & _ & Hlf).
  rewrite splitOn_absent.
  - constructor; [discriminate | constructor].
  - intros Hin. apply in_app_or in Hin. destruct Hin as [Hin|Hin].
    + destruct Hin as [H|[H|[H|[H|[H|[]]]]]]; discriminate.
    + exact (Hlf Hin).
Qed.

Lemma numberFrom_exportable (k : nat)
    (l : list (OcrResult.t * nat * jsstring)) :
  (forall r i c, In (r, i, c) l -> In c (chunks (OcrResult.text r))) ->
  Forall exportable (numberFrom k l).
Proof.
  revert k. induction l as [|[[r i] c] l IH]; intros k H; [constructor|].
  cbn [numberFrom]. constructor.
  - split; cbn.
    + pose proof (chunkDurationMs_range c). lia.
    + apply (chunk_readable (OcrResult.text r)). apply (H r i c).
      left. reflexivity.
  - apply IH. intros r' i' c' Hin. apply (H r' i' c'). right. exact Hin.
Qed.

Lemma fallbackFrom_exportable (idx : nat) (images : list UploadedImage.t) :
  Forall exportable (fallbackFrom idx images).
Proof.
  revert idx. induction images as [|img images IH]; intros idx;
    [constructor|].
  cbn [fallbackFrom]. constructor; [|apply IH].
  split; cbn; [lia|]. apply placeholder_readable. lia.
Qed.

(** Whatever the OCR results, the captions the timeline builder creates
    can be exported and read back. *)
Lemma buildSubtitles_exportable (images : list UploadedImage.t)
    (results : list OcrResult.t) :
  Forall exportable (buildSubtitles images results).
Proof.
  destruct (segmentedFrom 0 results) as [|x l] eqn:E.
  - rewrite (buildSubtitles_fallback images results E).
    apply fallbackFrom_exportable.
  - rewrite (buildSubtitles_segmented images results)
      by (rewrite E; discriminate).
    apply numberFrom_exportable. intros r i c Hin.
    apply segmentedFrom_In in Hin. apply Hin.
Qed.

Lemma totalMs_nth (subs : list SubtitleItem.t) :
  Forall (fun u => 0 <= SubtitleItem.durationMs u) subs ->
  forall (k : nat) (u : SubtitleItem.t),
    nth_error subs k = Some u ->
    0 <= totalMs (firstn k subs)
    /\ totalMs (firstn k subs) + SubtitleItem.durationMs u <= totalMs subs.
Proof.
  induction 1 as [|v subs Hv Hsubs IH]; intros k u Hk.
  - destruct k; discriminate Hk.
  - pose proof (totalMs_nonneg subs Hsubs) as Hrest.
    destruct k as [|k]; cbn [nth_error firstn totalMs fold_right] in *;
      fold (totalMs subs).
    + injection Hk as <-. lia.
    + fold (totalMs (firstn k subs)). destruct (IH k u Hk). lia.
Qed.

(** C4 as stated fails: the running time is a Number, and a sum beyond
    [MAX_SAFE_INTEGER] is rounded to a double. The duration field
    accepts [10000000000000000000000]; after that caption of 10^22 ms a
    caption of 500 ms is exported as ending when it starts, and the
    hours written for 10^22 ms are one more than the quotient. *)
Lemma running_time_is_rounded :
  let long := SubtitleItem.mk (str "a") (str "A") (10 ^ 22) 0 in
  let short := SubtitleItem.mk (str "b") (str "B") 500 0 in
  subtitles
    (onDurationChange (str "a") (str "10000000000000000000000")
       (withSubtitles [captionA; short] initialState))
  = [long; short]
  /\ cues [long; short]
     = [ (0, 10 ^ 22, str "A"); (10 ^ 22, 10 ^ 22 + 500, str "B") ]
  /\ nth_error (srtLines [long; short]) 5
     = Some (fmt (10 ^ 22) ++ str " --> " ++ fmt (10 ^ 22))
  /\ firstn 16 (fmt (10 ^ 22)) = str "2777777777777778"
  /\ 10 ^ 22 / 3600000 = 2777777777777777
  /\ srtLines [long; short] <> entriesFrom 1 (cues [long; short]).
Proof.
  cbv zeta. repeat split; try (vm_compute; reflexivity).
  vm_compute. discriminate.
Qed.

(** C4, amended. For a caption list whose durations are not negative
    and add up to [MAX_SAFE_INTEGER] (2^53 - 1) at most, the exported
    document is, for each caption in order, its 1-based number, the line
    [start --> end], its text and an empty line, joined by newlines,
    where each caption starts when the previous one ends and the first at
    0. A time up to [MAX_SAFE_INTEGER] is written as hours (two digits or
    more, never reduced modulo 24), minutes and seconds (two digits each)
    and milliseconds (three digits), and reads back as the same number of
    milliseconds. Such a document reads back as the same (start, end,
    text) triples when no caption text has an empty line, and so does
    the document of a caption list the timeline builder creates; the
    two-caption example of the specification gives the stated document
    and triples. *)
Theorem exportSrt_format (s : State) (k : nat) (u : SubtitleItem.t) (ms : Z)
    (images : list UploadedImage.t) (results : list OcrResult.t)
    (Hk : nth_error (subtitles s) k = Some u)
    (Hsafe : safeTimeline (subtitles s))
    (Hms : 0 <= ms <= MAX_SAFE_INTEGER)
    (Hbuilt : totalMs (buildSubtitles images results) <= MAX_SAFE_INTEGER) :
  let subs := subtitles s in
  let start := totalMs (firstn k subs) in
  let end_ := start + SubtitleItem.durationMs u in
  exportSrt s = join [LF] (entriesFrom 1 (cues subs))
  /\ nth_error (cues subs) k = Some (start, end_, SubtitleItem.text u)
  /\ firstn 4 (skipn (4 * k) (srtLines subs))
     = [ toString (Z.of_nat k + 1);
         fmt start ++ str " --> " ++ fmt end_;
         SubtitleItem.text u;
         [] ]
  /\ (exists hh mm ss mmm,
        fmt ms = hh ++ str ":" ++ mm ++ str ":" ++ ss ++ str "," ++ mmm
        /\ allDigits hh /\ allDigits mm /\ allDigits ss /\ allDigits mmm
        /\ (2 <= List.length hh)%nat /\ List.length mm = 2%nat
        /\ List.length ss = 2%nat /\ List.length mmm = 3%nat
        /\ SrtReader.number hh = Some (ms / 3600000)
        /\ SrtReader.number mm = Some ((ms / 60000) mod 60)
        /\ SrtReader.number ss = Some ((ms / 1000) mod 60)
        /\ SrtReader.number mmm = Some (ms mod 1000))
  /\ SrtReader.timestamp (fmt ms) = Some ms
  /\ (Forall exportable subs ->
      SrtReader.parseSrt (exportSrt s) = Some (cues subs))
  /\ SrtReader.parseSrt
       (exportSrt (withSubtitles (buildSubtitles images results) s))
     = Some (cues (buildSubtitles images results))
  /\ exportSrt (withSubtitles [captionA; captionB] initialState)
     = exampleDocument
  /\ cues [captionA; captionB]
     = [ (0, 1500, str "A"); (1500, 3500, str "B") ]
  /\ SrtReader.parseSrt exampleDocument
     = Some [ (0, 1500, str "A"); (1500, 3500, str "B") ]
  /\ fmt (100 * 3600000) = str "100:00:00,000".
Proof.
  cbv zeta.
  pose proof (cuesFrom_nth 0 (subtitles s) k u Hk) as Hcue.
  rewrite !Z.add_0_l in Hcue.
  destruct (totalMs_nth (subtitles s) (proj1 Hsafe) k u Hk) as [Hk0 Hk1].
  pose proof (proj2 Hsafe) as Hmax.
  split; [unfold exportSrt; rewrite srtLines_entries by exact Hsafe;
          reflexivity|].
  split; [exact Hcue|].
  split.
  { rewrite srtLines_entries by exact Hsafe. unfold cues.
    rewrite (entriesFrom_nth 1 k _ _ _ _ Hcue).
    rewrite !fmt_clock
      by (pose proof (proj1 Hsafe) as Hall;
          rewrite Forall_forall in Hall;
          pose proof (Hall u (nth_error_In _ _ Hk)); lia).
    replace (Z.of_nat (1 + k)) with (Z.of_nat k + 1) by lia. reflexivity. }
  rewrite (fmt_clock ms Hms).
  split; [apply clock_shape; lia|].
  split; [apply timestamp_clock; lia|].
  split; [intros Hall; apply export_roundtrip; [exact Hall | exact Hmax]|].
  split; [apply export_roundtrip;
          [apply buildSubtitles_exportable | exact Hbuilt]|].
  repeat split; vm_compute; reflexivity.
Qed.

Lemma exportSrt_format_witness :
  SrtReader.parseSrt (exportSrt editing) = Some (cues (subtitles editing))
  /\ SrtReader.timestamp (fmt 90000000) = Some 90000000.
Proof.
  assert (Hk : nth_error (subtitles editing) 1 = Some captionB)
    by reflexivity.
  assert (Hsafe : safeTimeline (subtitles editing)).
  { split; [repeat constructor; vm_compute; discriminate|].
    vm_compute. discriminate. }
  assert (Hms : 0 <= 90000000 <= MAX_SAFE_INTEGER)
    by (split; vm_compute; discriminate).
  assert (Hbuilt : totalMs (buildSubtitles [] []) <= MAX_SAFE_INTEGER)
    by (vm_compute; discriminate).
  destruct (exportSrt_format editing 1 captionB 90000000 [] [] Hk Hsafe Hms
              Hbuilt)
    as (_ & _ & _ & _ & Hts & Hrt & _).
  split; [|exact Hts].
  apply Hrt. change (Forall exportable [captionA; captionB]).
  constructor; [|constructor; [|constructor]];
    (split; [vm_compute; discriminate|]);
    right; vm_compute; repeat constructor; discriminate.
Defined.

(** * Further properties of the page *)

(** ** Segmentation: what is kept and what is dropped *)

Lemma nonSpace_app (a b : jsstring) :
  nonSpace (a ++ b) = nonSpace a ++ nonSpace b.
Proof. apply filter_app. Qed.

Lemma nonSpace_blank (g : jsstring) : blank g -> nonSpace g = [].
Proof.
  unfold blank, nonSpace. induction g as [|x g IH]; simpl; [reflexivity|].
  intros H. apply andb_true_iff in H. destruct H as [Hx Hg].
  rewrite Hx. simpl. apply IH. exact Hg.
Qed.

Lemma blank_nonSpace (g : jsstring) : nonSpace g = [] -> blank g.
Proof.
  unfold blank, nonSpace. induction g as [|x g IH]; simpl; [reflexivity|].
  destruct (isWhiteSpace x); simpl; [exact IH | discriminate].
Qed.

Lemma follows_nonSpace (b : N) (cs : list jsstring) (s : jsstring) :
  follows b cs s -> nonSpace s = nonSpace (List.concat cs).
Proof.
  induction 1 as [b gap Hgap|b gap c cs rest Hgap Hsp Hc Hrest IH].
  - apply nonSpace_blank. exact Hgap.
  - cbn [List.concat]. rewrite !nonSpace_app, IH, (nonSpace_blank gap Hgap).
    reflexivity.
Qed.

Lemma covers_nonSpace (cs : list jsstring) (s : jsstring) :
  covers cs s -> nonSpace s = nonSpace (List.concat cs).
Proof.
  intros H. destruct H as [gap Hgap|gap c cs rest Hgap Hc Hrest].
  - apply nonSpace_blank. exact Hgap.
  - cbn [List.concat].
    rewrite !nonSpace_app, (follows_nonSpace _ _ _ Hrest),
      (nonSpace_blank gap Hgap).
    reflexivity.
Qed.

Lemma nonSpace_stripCR (text : jsstring) :
  nonSpace (stripCR text) = nonSpace text.
Proof.
  unfold nonSpace, stripCR. induction text as [|x text IH]; [reflexivity|].
  simpl. destruct (x =? CR)%N eqn:E.
  - apply N.eqb_eq in E. subst x. simpl. exact IH.
  - simpl. rewrite IH. reflexivity.
Qed.

Lemma chunks_cover (text : jsstring) : covers (chunks text) (stripCR text).
Proof. apply tiles_covers, split_tiles. Qed.

Lemma chunks_nonSpace (text : jsstring) :
  nonSpace (List.concat (chunks text)) = nonSpace text.
Proof.
  rewrite <- (covers_nonSpace _ _ (chunks_cover text)).
  apply nonSpace_stripCR.
Qed.

(** X1. Segmentation drops white space and nothing else: the code units of
    the chunks that are not white space are, in order, those of the
    text. *)
Theorem chunks_keep_content (text : jsstring) :
  nonSpace (List.concat (chunks text)) = nonSpace text.
Proof. apply chunks_nonSpace. Qed.

Lemma chunks_nil_blank (text : jsstring) :
  chunks text = [] <-> blank text.
Proof.
  split.
  - intros E. apply blank_nonSpace.
    rewrite <- chunks_nonSpace, E. reflexivity.
  - intros Hb. destruct (chunks text) as [|c cs] eqn:E; [reflexivity|].
    exfalso.
    assert (Hc : In c (chunks text)) by (rewrite E; left; reflexivity).
    destruct (chunk_facts text c Hc) as (Hne & Htrim & _).
    pose proof (chunks_nonSpace text) as Hk.
    rewrite (nonSpace_blank text Hb), E in Hk.
    destruct c as [|x c]; [congruence|]. destruct Htrim as [Hx _].
    cbn in Hk. unfold nonSpace in Hk. cbn in Hk. rewrite Hx in Hk.
    discriminate.
Qed.

(** X2. A text yields no chunk exactly when it is white space only. *)
Theorem chunks_nil_iff_blank (text : jsstring) :
  chunks text = [] <-> blank text.
Proof. apply chunks_nil_blank. Qed.

Lemma trim_fixed (c : jsstring) : isTrimmed c -> trim c = c.
Proof.
  destruct c as [|x c]; [reflexivity|]. intros [Hx Hl].
  unfold trim. rewrite (trimStart_fixed c x Hx). unfold trimEnd.
  destruct (rev (x :: c)) as [|y r] eqn:E.
  { apply (f_equal (@List.length N)) in E. rewrite length_rev in E.
    discriminate. }
  assert (Hy : y = last (x :: c) x).
  { assert (E' : x :: c = rev (y :: r))
      by (rewrite <- E, rev_involutive; reflexivity).
    rewrite E'. symmetry. apply last_rev_head. }
  rewrite (trimStart_fixed r y) by (rewrite Hy; exact Hl).
  rewrite <- E. apply rev_involutive.
Qed.

Lemma split_whole (s : jsstring) : hasSplitPoint s = false -> split s = [s].
Proof.
  intros Hfree. pose proof (split_tiles s) as Ht.
  inversion Ht as [p Hp Ep Es|p sep ps rest Hp Hsep Hsp Hrest Ep Es].
  - reflexivity.
  - exfalso. rewrite <- Es, app_assoc in Hfree.
    rewrite (hasSplitPoint_app_l (p ++ sep) rest Hsp) in Hfree.
    discriminate.
Qed.

Lemma stripCR_fixed (s : jsstring) : ~ In CR s -> stripCR s = s.
Proof.
  unfold stripCR. induction s as [|x s IH]; intros H; [reflexivity|].
  simpl. destruct (x =? CR)%N eqn:E.
  - apply N.eqb_eq in E. subst. exfalso. apply H. left. reflexivity.
  - simpl. f_equal. apply IH. intros Hin. apply H. right. exact Hin.
Qed.

Lemma chunk_no_CR (text c : jsstring) : In c (chunks text) -> ~ In CR c.
Proof.
  intros Hc Hcr.
  pose proof (covers_In _ _ (chunks_cover text) _ _ Hc Hcr) as H.
  unfold stripCR in H. apply filter_In in H. destruct H as [_ H].
  rewrite N.eqb_refl in H. discriminate.
Qed.

(** X3. Segmentation is stable: a chunk, segmented again, is that chunk
    alone. *)
Theorem chunks_stable (text c : jsstring) (Hc : In c (chunks text)) :
  chunks c = [c].
Proof.
  destruct (chunk_facts text c Hc) as (Hne & Htrim & Hfree).
  unfold chunks.
  rewrite (stripCR_fixed c (chunk_no_CR text c Hc)), (split_whole c Hfree).
  cbn [List.map filter]. rewrite (trim_fixed c Htrim).
  destruct c; [congruence | reflexivity].
Qed.

Lemma chunks_stable_witness : chunks (str "Line two!") = [str "Line two!"].
Proof.
  apply (chunks_stable
           (str "Line one." ++ [CR; LF; CR; LF]
            ++ str "Line two!  And three? ")).
  vm_compute. right. left. reflexivity.
Defined.

(** ** The timeline: emptiness, order, page references *)

Lemma segmentedFrom_nil_iff (i : nat) (results : list OcrResult.t) :
  segmentedFrom i results = []
  <-> Forall (fun r => blank (OcrResult.text r)) results.
Proof.
  revert i. induction results as [|r results IH]; intros i; simpl.
  - split; [constructor | reflexivity].
  - split.
    + intros H. apply app_eq_nil in H. destruct H as [Hr Hrest].
      apply map_eq_nil in Hr. constructor.
      * apply chunks_nil_blank. exact Hr.
      * apply (IH (S i)). exact Hrest.
    + intros H. inversion H as [|? ? Hr Hrest]; subst.
      apply chunks_nil_blank in Hr. rewrite Hr. simpl.
      apply (IH (S i)). exact Hrest.
Qed.

Lemma buildSubtitles_nil_iff (images : list UploadedImage.t)
    (results : list OcrResult.t) :
  buildSubtitles images results = []
  <-> images = [] /\ Forall (fun r => blank (OcrResult.text r)) results.
Proof.
  destruct (segmentedFrom 0 results) as [|x l] eqn:E.
  - rewrite (buildSubtitles_fallback images results E).
    apply segmentedFrom_nil_iff in E. split.
    + intros H. split; [|exact E].
      destruct images; [reflexivity | discriminate].
    + intros [-> _]. reflexivity.
  - rewrite (buildSubtitles_segmented images results)
      by (rewrite E; discriminate).
    rewrite E. destruct x as [[r i] c]. split; [discriminate|].
    intros [_ H]. apply (segmentedFrom_nil_iff 0) in H. congruence.
Qed.

(** X4. The timeline is empty only when there is no page and no text:
    with at least one page, or one OCR text that is not white space only,
    [buildSubtitles] has a caption, so the render guard lets it through. *)
Theorem timeline_empty_iff (images : list UploadedImage.t)
    (results : list OcrResult.t) :
  buildSubtitles images results = []
  <-> images = [] /\ Forall (fun r => blank (OcrResult.text r)) results.
Proof. apply buildSubtitles_nil_iff. Qed.

Lemma numberFrom_pageIndex (k : nat)
    (l : list (OcrResult.t * nat * jsstring)) :
  List.map SubtitleItem.pageIndex (numberFrom k l)
  = List.map (fun x => Z.of_nat (snd (fst x))) l.
Proof.
  revert k. induction l as [|[[r i] c] l IH]; intros k; [reflexivity|].
  cbn [numberFrom List.map]. rewrite IH. reflexivity.
Qed.

Lemma chain_repeat (i : Z) (n : nat) : chain i i (repeat i n).
Proof. induction n; simpl; [lia | split; [lia | assumption]]. Qed.

Lemma map_const_repeat {A B} (b : B) (l : list A) :
  List.map (fun _ => b) l = repeat b (List.length l).
Proof. induction l; simpl; [reflexivity | f_equal; assumption]. Qed.

Lemma segmentedFrom_chain (i : nat) (results : list OcrResult.t) :
  chain (Z.of_nat i) (Z.of_nat (i + List.length results))
    (List.map (fun x => Z.of_nat (snd (fst x))) (segmentedFrom i results)).
Proof.
  revert i. induction results as [|r results IH]; intros i; simpl.
  - lia.
  - rewrite map_app, map_map. cbn [fst snd].
    rewrite map_const_repeat.
    apply chain_app with (b := Z.of_nat i); [apply chain_repeat|].
    apply chain_weaken
      with (lo := Z.of_nat (S i))
           (hi := Z.of_nat (S i + List.length results));
      [lia | lia | apply IH].
Qed.

Lemma fallbackFrom_chain (idx : nat) (images : list UploadedImage.t) :
  chain (Z.of_nat idx) (Z.of_nat (idx + List.length images))
    (List.map SubtitleItem.pageIndex (fallbackFrom idx images)).
Proof.
  revert idx. induction images as [|img images IH]; intros idx; simpl.
  - lia.
  - split; [lia|].
    apply chain_weaken
      with (lo := Z.of_nat (S idx))
           (hi := Z.of_nat (S idx + List.length images));
      [lia | lia | apply IH].
Qed.

(** X5. Captions are in page order: along the timeline the page index
    never decreases. *)
Theorem captions_in_page_order (images : list UploadedImage.t)
    (results : list OcrResult.t) :
  nondecreasing
    (List.map SubtitleItem.pageIndex (buildSubtitles images results)).
Proof.
  destruct (segmentedFrom 0 results) as [|x l] eqn:E.
  - rewrite (buildSubtitles_fallback images results E).
    apply (chain_nondecreasing _ _ _ (fallbackFrom_chain 0 images)).
  - rewrite (buildSubtitles_segmented images results)
      by (rewrite E; discriminate).
    rewrite numberFrom_pageIndex.
    apply (chain_nondecreasing _ _ _ (segmentedFrom_chain 0 results)).
Qed.

Lemma fallbackFrom_pageIndex (idx : nat) (images : list UploadedImage.t)
    (u : SubtitleItem.t) :
  In u (fallbackFrom idx images) ->
  Z.of_nat idx <= SubtitleItem.pageIndex u
               < Z.of_nat (idx + List.length images).
Proof.
  revert idx. induction images as [|img images IH]; intros idx H;
    [contradiction|].
  destruct H as [<-|H].
  - cbn. lia.
  - apply IH in H. cbn [List.length]. lia.
Qed.

(** X6. When the OCR service returns at most one result per page, every
    caption refers to an existing page: its page index is within the page
    list. *)
Theorem caption_page_index_valid (images : list UploadedImage.t)
    (results : list OcrResult.t)
    (Hlen : (List.length results <= List.length images)%nat) :
  Forall (fun u => 0 <= SubtitleItem.pageIndex u
                     < Z.of_nat (List.length images))
         (buildSubtitles images results).
Proof.
  apply Forall_forall. intros u Hu.
  destruct (segmentedFrom 0 results) as [|x l] eqn:E.
  - rewrite (buildSubtitles_fallback images results E) in Hu.
    apply fallbackFrom_pageIndex in Hu. cbn in Hu. lia.
  - rewrite (buildSubtitles_segmented images results) in Hu
      by (rewrite E; discriminate).
    apply In_nth_error in Hu. destruct Hu as [k Hk].
    apply numberFrom_nth in Hk. destruct Hk as (r & p & c & Hn & ->).
    apply nth_error_In, segmentedFrom_In in Hn.
    destruct Hn as (_ & Hr & _). rewrite Nat.sub_0_r in Hr.
    assert (Hp : (p < List.length results)%nat).
    { apply nth_error_Some. congruence. }
    cbn. lia.
Qed.

Lemma caption_page_index_valid_witness :
  Forall (fun u => 0 <= SubtitleItem.pageIndex u < 3)
         (buildSubtitles [page1; page2; page3] resultsEndToEnd).
Proof.
  apply (caption_page_index_valid [page1; page2; page3] resultsEndToEnd).
  simpl. lia.
Defined.

(** ** Identifiers are distinct *)

Lemma digits_dash_inj (x y p q : jsstring) :
  allDigits x -> allDigits y ->
  x ++ 45%N :: p = y ++ 45%N :: q -> x = y /\ p = q.
Proof.
  revert y. induction x as [|a x IH]; intros y Hx Hy E.
  - destruct y as [|b y].
    + injection E as E. split; [reflexivity | exact E].
    + injection E as E1 E2. subst b. unfold allDigits in Hy. simpl in Hy.
      discriminate.
  - destruct y as [|b y].
    + injection E as E1 E2. subst a. unfold allDigits in Hx. simpl in Hx.
      discriminate.
    + injection E as E1 E2. subst b.
      unfold allDigits in Hx, Hy. simpl in Hx, Hy.
      apply andb_true_iff in Hx. apply andb_true_iff in Hy.
      destruct (IH y (proj2 Hx) (proj2 Hy) E2) as [-> ->].
      split; reflexivity.
Qed.

Lemma allDigits_rev (d : jsstring) : allDigits d -> allDigits (rev d).
Proof.
  unfold allDigits. rewrite !forallb_forall. intros H x Hx.
  apply H. apply in_rev. exact Hx.
Qed.

(** Two strings [a-d] with digit suffixes are equal only if the suffixes
    are. *)
Lemma dash_suffix_inj (a b d1 d2 : jsstring) :
  allDigits d1 -> allDigits d2 ->
  a ++ str "-" ++ d1 = b ++ str "-" ++ d2 -> a = b /\ d1 = d2.
Proof.
  intros H1 H2 E. apply (f_equal (@rev N)) in E.
  change (str "-") with [45%N] in E.
  rewrite !rev_app_distr in E. cbn [rev app] in E.
  rewrite <- !app_assoc in E. cbn [app] in E.
  destruct (digits_dash_inj _ _ _ _ (allDigits_rev d1 H1)
              (allDigits_rev d2 H2) E) as [Ed Ea].
  split.
  - rewrite <- (rev_involutive a), Ea. apply rev_involutive.
  - rewrite <- (rev_involutive d1), Ed. apply rev_involutive.
Qed.

Lemma toString_nat_inj (a b : nat) :
  toString (Z.of_nat a) = toString (Z.of_nat b) -> a = b.
Proof.
  intros E.
  destruct (toString_digits (Z.of_nat a) ltac:(lia)) as (_ & _ & Ha).
  destruct (toString_digits (Z.of_nat b) ltac:(lia)) as (_ & _ & Hb).
  rewrite E in Ha. rewrite Ha in Hb. injection Hb as Hb. lia.
Qed.

Lemma toString_nat_digits (a : nat) : allDigits (toString (Z.of_nat a)).
Proof. apply (toString_digits (Z.of_nat a)). lia. Qed.

Lemma numberFrom_id_In (k : nat) (l : list (OcrResult.t * nat * jsstring))
    (x : jsstring) :
  In x (List.map SubtitleItem.id (numberFrom k l)) ->
  exists a j, (k <= j)%nat /\ x = a ++ str "-" ++ toString (Z.of_nat j).
Proof.
  revert k. induction l as [|[[r i] c] l IH]; intros k H; [contradiction|].
  destruct H as [<-|H].
  - exists (OcrResult.imageId r), k. split; [lia | reflexivity].
  - apply IH in H. destruct H as (a & j & Hj & ->).
    exists a, j. split; [lia | reflexivity].
Qed.

Lemma numberFrom_ids_NoDup (k : nat)
    (l : list (OcrResult.t * nat * jsstring)) :
  NoDup (List.map SubtitleItem.id (numberFrom k l)).
Proof.
  revert k. induction l as [|[[r i] c] l IH]; intros k; [constructor|].
  cbn [numberFrom List.map]. constructor; [|apply IH].
  intros H. apply numberFrom_id_In in H. destruct H as (a & j & Hj & E).
  cbn [SubtitleItem.id] in E. apply dash_suffix_inj in E;
    [|apply toString_nat_digits | apply toString_nat_digits].
  destruct E as [_ E]. apply toString_nat_inj in E. lia.
Qed.

Lemma NoDup_map_inj {A B} (f : A -> B) (l : list A) :
  (forall a b, f a = f b -> a = b) -> NoDup l -> NoDup (List.map f l).
Proof.
  intros Hinj H. induction H as [|x l Hx Hl IH]; simpl; constructor.
  - intros Hin. apply in_map_iff in Hin. destruct Hin as (y & E & Hy).
    apply Hinj in E. subst y. exact (Hx Hy).
  - exact IH.
Qed.

Lemma fallbackFrom_ids (idx : nat) (images : list UploadedImage.t) :
  List.map SubtitleItem.id (fallbackFrom idx images)
  = List.map (fun img => UploadedImage.id img ++ str "-fallback") images.
Proof.
  revert idx. induction images as [|img images IH]; intros idx;
    [reflexivity|].
  cbn [fallbackFrom List.map]. rewrite IH. reflexivity.
Qed.

(** X7. Captions made from OCR text always have pairwise distinct ids,
    and so do the fallback captions when the pages have distinct ids:
    the React keys of the caption rows are unique and an edit addresses
    one row. *)
Theorem caption_ids_unique (images : list UploadedImage.t)
    (results : list OcrResult.t) :
  NoDup (List.map SubtitleItem.id (forEach pushPage results []))
  /\ (NoDup (List.map UploadedImage.id images) ->
      NoDup (List.map SubtitleItem.id (buildSubtitles images results))).
Proof.
  split.
  - rewrite forEach_pushPage. apply numberFrom_ids_NoDup.
  - intros Himg. destruct (segmentedFrom 0 results) as [|x l] eqn:E.
    + rewrite (buildSubtitles_fallback images results E), fallbackFrom_ids.
      rewrite <- (map_map UploadedImage.id (fun i => i ++ str "-fallback")).
      apply NoDup_map_inj; [|exact Himg].
      intros a b Hab. apply app_inv_tail in Hab. exact Hab.
    + rewrite (buildSubtitles_segmented images results)
        by (rewrite E; discriminate).
      apply numberFrom_ids_NoDup.
Qed.

Lemma caption_ids_unique_witness :
  NoDup (List.map SubtitleItem.id
           (buildSubtitles [page1; page2]
              [ OcrResult.mk (UploadedImage.id page1) [];
                OcrResult.mk (UploadedImage.id page2) [] ])).
Proof.
  apply (caption_ids_unique [page1; page2]
           [ OcrResult.mk (UploadedImage.id page1) [];
             OcrResult.mk (UploadedImage.id page2) [] ]).
  repeat constructor; simpl; intros H;
    repeat (destruct H as [H|H]; [discriminate|]); exact H.
Defined.

(** *** Uploaded images *)

Lemma forEachFrom_pushItem (idx : nat) (files : list (FileEntry.t * Visit))
    (items : list UploadedImage.t) :
  forEachFrom pushItem idx files items = items ++ collectFrom idx files.
Proof.
  revert idx items.
  induction files as [|[file visit] files IH]; intros idx items.
  - simpl. rewrite app_nil_r. reflexivity.
  - cbn [forEachFrom collectFrom pushItem]. rewrite IH.
    destruct (startsWith (FileEntry.type file) (str "image/")); simpl.
    + rewrite <- app_assoc. reflexivity.
    + reflexivity.
Qed.

Lemma collectItems_collectFrom (files : list (FileEntry.t * Visit)) :
  collectItems files = collectFrom 0 files.
Proof. unfold collectItems, forEach. apply forEachFrom_pushItem. Qed.

Lemma collectFrom_In (idx : nat) (files : list (FileEntry.t * Visit))
    (img : UploadedImage.t) :
  In img (collectFrom idx files)
  <-> exists k file visit,
        nth_error files k = Some (file, visit)
        /\ startsWith (FileEntry.type file) (str "image/") = true
        /\ img = UploadedImage.mk
                   (toString (now visit) ++ str "-"
                    ++ toString (Z.of_nat (idx + k)))
                   (FileEntry.name file) (objectUrl visit).
Proof.
  revert idx. induction files as [|[file visit] files IH]; intros idx.
  - split; [contradiction|]. intros (k & f & v & H & _).
    destruct k; discriminate.
  - cbn [collectFrom]. rewrite in_app_iff, IH. split.
    + intros [H|(k & f & v & Hk & Hty & ->)].
      * destruct (startsWith (FileEntry.type file) (str "image/")) eqn:E;
          [|contradiction].
        destruct H as [<-|[]]. exists 0%nat, file, visit.
        rewrite Nat.add_0_r. repeat split. exact E.
      * exists (S k), f, v. repeat split; [exact Hk | exact Hty|].
        replace (idx + S k)%nat with (S idx + k)%nat by lia. reflexivity.
    + intros (k & f & v & Hk & Hty & ->). destruct k as [|k].
      * left. injection Hk as -> ->. rewrite Hty, Nat.add_0_r.
        left. reflexivity.
      * right. exists k, f, v. repeat split; [exact Hk | exact Hty|].
        replace (idx + S k)%nat with (S idx + k)%nat by lia. reflexivity.
Qed.

Lemma collectFrom_ids_NoDup (idx : nat)
    (files : list (FileEntry.t * Visit)) :
  NoDup (List.map UploadedImage.id (collectFrom idx files)).
Proof.
  revert idx. induction files as [|[file visit] files IH]; intros idx;
    [constructor|].
  cbn [collectFrom].
  destruct (startsWith (FileEntry.type file) (str "image/")); [|apply IH].
  cbn [app List.map]. constructor; [|apply IH].
  intros H. apply in_map_iff in H. destruct H as (img & E & Himg).
  apply collectFrom_In in Himg. destruct Himg as (k & f & v & _ & _ & ->).
  cbn [UploadedImage.id] in E. apply dash_suffix_inj in E;
    [|apply toString_nat_digits | apply toString_nat_digits].
  destruct E as [_ E]. apply toString_nat_inj in E. lia.
Qed.

Lemma collectFrom_length (idx : nat) (files : list (FileEntry.t * Visit)) :
  (List.length (collectFrom idx files) <= List.length files)%nat.
Proof.
  revert idx. induction files as [|[file visit] files IH]; intros idx;
    [simpl; lia|].
  cbn [collectFrom]. rewrite length_app. specialize (IH (S idx)).
  destruct (startsWith (FileEntry.type file) (str "image/")); simpl; lia.
Qed.

(** X8. Whatever the clock returns and however the names sort, the pages
    kept by a file selection are exactly the files whose type starts with
    [image/], each with the id [`${Date.now()}-${idx}`] of its position
    among all chosen files; these ids are pairwise distinct. *)
Theorem selected_images (files : list (FileEntry.t * Visit))
    (sorted : list UploadedImage.t) (Hsort : sortedItems files sorted) :
  NoDup (List.map UploadedImage.id sorted)
  /\ (List.length sorted <= List.length files)%nat
  /\ forall img,
       In img sorted
       <-> exists k file visit,
             nth_error files k = Some (file, visit)
             /\ startsWith (FileEntry.type file) (str "image/") = true
             /\ img = UploadedImage.mk
                        (toString (now visit) ++ str "-"
                         ++ toString (Z.of_nat k))
                        (FileEntry.name file) (objectUrl visit).
Proof.
  unfold sortedItems in Hsort. rewrite collectItems_collectFrom in Hsort.
  split; [|split].
  - apply (Permutation_NoDup
             (Permutation_map UploadedImage.id Hsort)).
    apply collectFrom_ids_NoDup.
  - rewrite <- (Permutation_length Hsort). apply collectFrom_length.
  - intros img. rewrite <- (collectFrom_In 0 files img). split.
    + apply Permutation_in. apply Permutation_sym. exact Hsort.
    + apply Permutation_in. exact Hsort.
Qed.

Lemma selected_images_witness :
  NoDup (List.map UploadedImage.id (rev (collectItems sampleFiles)))
  /\ List.map UploadedImage.name (rev (collectItems sampleFiles))
     = [str "a.jpg"; str "b.png"].
Proof.
  split; [|reflexivity].
  apply (selected_images sampleFiles (rev (collectItems sampleFiles))).
  apply Permutation_rev.
Defined.

(** ** Edits: composition *)

Lemma updateSubtitleText_map (id text : jsstring) (s : State) :
  subtitles (updateSubtitleText id text s)
  = List.map (fun u =>
      if JS.eqb (SubtitleItem.id u) id
      then SubtitleItem.mk (SubtitleItem.id u) text
             (SubtitleItem.durationMs u) (SubtitleItem.pageIndex u)
      else u) (subtitles s).
Proof. reflexivity. Qed.

Lemma updateSubtitleDuration_map (id : jsstring) (d : Z) (s : State) :
  subtitles (updateSubtitleDuration id d s)
  = List.map (fun u =>
      if JS.eqb (SubtitleItem.id u) id
      then SubtitleItem.mk (SubtitleItem.id u) (SubtitleItem.text u)
             d (SubtitleItem.pageIndex u)
      else u) (subtitles s).
Proof. reflexivity. Qed.

Lemma state_eq_subtitles (s1 s2 : State) :
  images s1 = images s2 -> isProcessing s1 = isProcessing s2 ->
  ocrResults s1 = ocrResults s2 -> subtitles s1 = subtitles s2 ->
  agentStep s1 = agentStep s2 -> agentLabel s1 = agentLabel s2 ->
  videoUrl s1 = videoUrl s2 -> bgmEnabled s1 = bgmEnabled s2 ->
  fps s1 = fps s2 -> resolution s1 = resolution s2 -> s1 = s2.
Proof.
  destruct s1, s2; cbn; intros; subst; reflexivity.
Qed.

Lemma eqb_reflect (a b : jsstring) : reflect (a = b) (JS.eqb a b).
Proof.
  destruct (JS.eqb a b) eqn:E; constructor.
  - apply eqb_true_iff. exact E.
  - apply eqb_false_iff. exact E.
Qed.

Ltac edit_eq :=
  apply state_eq_subtitles; try reflexivity;
  repeat first [ rewrite updateSubtitleText_map
               | rewrite updateSubtitleDuration_map ];
  rewrite ?map_map;
  apply map_ext; intros u; cbn [SubtitleItem.id];
  repeat
    match goal with
    | |- context [JS.eqb ?a ?b] =>
        destruct (eqb_reflect a b); cbn [SubtitleItem.id] in *
    end;
  try reflexivity; try congruence.

(** X9. Edits compose as assignments: a second edit of the same field of
    the same id overrides the first, a text edit and a duration edit
    commute, and edits of different ids commute. *)
Theorem edits_compose (s : State) (id id' text text' : jsstring)
    (d d' : Z) :
  updateSubtitleText id text' (updateSubtitleText id text s)
  = updateSubtitleText id text' s
  /\ updateSubtitleDuration id d' (updateSubtitleDuration id d s)
     = updateSubtitleDuration id d' s
  /\ updateSubtitleText id text (updateSubtitleDuration id' d s)
     = updateSubtitleDuration id' d (updateSubtitleText id text s)
  /\ (id <> id' ->
      updateSubtitleText id text (updateSubtitleText id' text' s)
      = updateSubtitleText id' text' (updateSubtitleText id text s))
  /\ (id <> id' ->
      updateSubtitleDuration id d (updateSubtitleDuration id' d' s)
      = updateSubtitleDuration id' d' (updateSubtitleDuration id d s)).
Proof.
  split; [edit_eq|]. split; [edit_eq|]. split; [edit_eq|].
  split; intros Hne; edit_eq.
Qed.

Lemma edits_compose_witness :
  updateSubtitleText (str "a") (str "X")
    (updateSubtitleText (str "b") (str "Y") editing)
  = updateSubtitleText (str "b") (str "Y")
      (updateSubtitleText (str "a") (str "X") editing).
Proof.
  apply (edits_compose editing (str "a") (str "b") (str "X") (str "Y") 0 0).
  discriminate.
Defined.

Lemma nth_error_split_at {A} (l : list A) (k : nat) (x : A) :
  nth_error l k = Some x -> l = firstn k l ++ x :: skipn (S k) l.
Proof.
  revert k. induction l as [|y l IH]; intros k H.
  - destruct k; discriminate.
  - destruct k as [|k]; simpl in H.
    + injection H as ->. reflexivity.
    + cbn [firstn skipn app]. f_equal. apply IH. exact H.
Qed.

Lemma NoDup_split_ids (subs : list SubtitleItem.t) (k : nat)
    (u : SubtitleItem.t) :
  NoDup (List.map SubtitleItem.id subs) ->
  nth_error subs k = Some u ->
  (forall v, In v (firstn k subs) -> SubtitleItem.id v <> SubtitleItem.id u)
  /\ (forall v, In v (skipn (S k) subs) ->
      SubtitleItem.id v <> SubtitleItem.id u).
Proof.
  intros Hnd Hk. rewrite (nth_error_split_at subs k u Hk) in Hnd.
  rewrite map_app in Hnd. cbn [List.map] in Hnd.
  apply NoDup_remove_2 in Hnd. split; intros v Hv E; apply Hnd;
    apply in_or_app; [left | right]; rewrite <- E; apply in_map; exact Hv.
Qed.

Lemma edit_rows (s : State) (k : nat) (u : SubtitleItem.t)
    (text : jsstring) (d : Z) :
  NoDup (List.map SubtitleItem.id (subtitles s)) ->
  nth_error (subtitles s) k = Some u ->
  subtitles (updateSubtitleText (SubtitleItem.id u) text s)
  = firstn k (subtitles s)
    ++ SubtitleItem.mk (SubtitleItem.id u) text (SubtitleItem.durationMs u)
         (SubtitleItem.pageIndex u)
    :: skipn (S k) (subtitles s)
  /\ subtitles (updateSubtitleDuration (SubtitleItem.id u) d s)
     = firstn k (subtitles s)
       ++ SubtitleItem.mk (SubtitleItem.id u) (SubtitleItem.text u) d
            (SubtitleItem.pageIndex u)
       :: skipn (S k) (subtitles s).
Proof.
  intros Hids Hk.
  destruct (NoDup_split_ids _ k u Hids Hk) as [Ha Hb].
  assert (Eu : JS.eqb (SubtitleItem.id u) (SubtitleItem.id u) = true)
    by (apply eqb_true_iff; reflexivity).
  rewrite updateSubtitleText_map, updateSubtitleDuration_map.
  pose proof (nth_error_split_at _ k u Hk) as Hs.
  set (a := firstn k (subtitles s)) in *.
  set (b := skipn (S k) (subtitles s)) in *.
  clearbody a b. rewrite Hs.
  rewrite !map_app. cbn [List.map]. rewrite Eu.
  rewrite !map_id_when; [split; reflexivity | ..];
    intros v Hv;
    (apply Hb in Hv || apply Ha in Hv);
    apply eqb_false_iff in Hv; rewrite Hv; reflexivity.
Qed.

(** X10. When the caption ids are pairwise distinct, an edit rewrites the
    one row with that id and leaves the rows before and after it as they
    are. *)
Theorem edit_changes_one_row (s : State) (k : nat) (u : SubtitleItem.t)
    (text : jsstring) (d : Z)
    (Hids : NoDup (List.map SubtitleItem.id (subtitles s)))
    (Hk : nth_error (subtitles s) k = Some u) :
  subtitles (updateSubtitleText (SubtitleItem.id u) text s)
  = firstn k (subtitles s)
    ++ SubtitleItem.mk (SubtitleItem.id u) text (SubtitleItem.durationMs u)
         (SubtitleItem.pageIndex u)
    :: skipn (S k) (subtitles s)
  /\ subtitles (updateSubtitleDuration (SubtitleItem.id u) d s)
     = firstn k (subtitles s)
       ++ SubtitleItem.mk (SubtitleItem.id u) (SubtitleItem.text u) d
            (SubtitleItem.pageIndex u)
       :: skipn (S k) (subtitles s).
Proof. apply edit_rows; assumption. Qed.

Lemma edit_changes_one_row_witness :
  subtitles (updateSubtitleDuration (str "b") 900 editing)
  = [captionA; SubtitleItem.mk (str "b") (str "B") 900 0].
Proof.
  apply (edit_changes_one_row editing 1 captionB (str "X") 900).
  - repeat constructor; simpl; intros H;
      repeat (destruct H as [H|H]; [discriminate|]); exact H.
  - reflexivity.
Defined.

(** ** Edits and the exported timing *)

Lemma totalMs_app (a b : list SubtitleItem.t) :
  totalMs (a ++ b) = totalMs a + totalMs b.
Proof.
  unfold totalMs. induction a as [|u a IH]; simpl; [reflexivity|].
  rewrite IH. lia.
Qed.

Lemma cuesFrom_app (t : Z) (a b : list SubtitleItem.t) :
  cuesFrom t (a ++ b) = cuesFrom t a ++ cuesFrom (t + totalMs a) b.
Proof.
  revert t. induction a as [|u a IH]; intros t.
  - simpl. rewrite Z.add_0_r. reflexivity.
  - cbn [app cuesFrom]. rewrite IH.
    replace (t + totalMs (u :: a))
      with (t + SubtitleItem.durationMs u + totalMs a)
      by (unfold totalMs; cbn [fold_right]; lia).
    reflexivity.
Qed.

Lemma cuesFrom_shift (t d : Z) (l : list SubtitleItem.t) :
  cuesFrom (t + d) l = List.map (shiftCue d) (cuesFrom t l).
Proof.
  revert t. induction l as [|u l IH]; intros t; [reflexivity|].
  cbn [cuesFrom List.map shiftCue].
  replace (t + d + SubtitleItem.durationMs u)
    with (t + SubtitleItem.durationMs u + d) by lia.
  rewrite IH. reflexivity.
Qed.

Lemma cuesFrom_times_text_edit (t : Z) (id text : jsstring)
    (l : list SubtitleItem.t) :
  List.map fst
    (cuesFrom t
       (List.map (fun u =>
          if JS.eqb (SubtitleItem.id u) id
          then SubtitleItem.mk (SubtitleItem.id u) text
                 (SubtitleItem.durationMs u) (SubtitleItem.pageIndex u)
          else u) l))
  = List.map fst (cuesFrom t l).
Proof.
  revert t. induction l as [|u l IH]; intros t; [reflexivity|].
  cbn [List.map cuesFrom].
  destruct (JS.eqb (SubtitleItem.id u) id); cbn [SubtitleItem.durationMs fst];
    rewrite IH; reflexivity.
Qed.

Lemma cues_after_edit (s : State) (k : nat)
    (u : SubtitleItem.t) (d : Z) (id text : jsstring)
    (Hids : NoDup (List.map SubtitleItem.id (subtitles s)))
    (Hk : nth_error (subtitles s) k = Some u) :
  let before := firstn k (subtitles s) in
  let after := skipn (S k) (subtitles s) in
  let start := totalMs before in
  cues (subtitles s)
  = cues before
    ++ (start, start + SubtitleItem.durationMs u, SubtitleItem.text u)
    :: cuesFrom (start + SubtitleItem.durationMs u) after
  /\ cues (subtitles (updateSubtitleDuration (SubtitleItem.id u) d s))
     = cues before
       ++ (start, start + d, SubtitleItem.text u)
       :: List.map (shiftCue (d - SubtitleItem.durationMs u))
            (cuesFrom (start + SubtitleItem.durationMs u) after)
  /\ List.map fst (cues (subtitles (updateSubtitleText id text s)))
     = List.map fst (cues (subtitles s)).
Proof.
  cbv zeta.
  destruct (edit_rows s k u text d Hids Hk) as [_ Hd].
  split; [|split].
  - rewrite (nth_error_split_at _ k u Hk) at 1. unfold cues.
    rewrite cuesFrom_app. reflexivity.
  - rewrite Hd. unfold cues. rewrite cuesFrom_app.
    cbn [cuesFrom SubtitleItem.durationMs SubtitleItem.text].
    rewrite <- cuesFrom_shift. rewrite !Z.add_0_l. do 3 f_equal. lia.
  - rewrite updateSubtitleText_map. apply cuesFrom_times_text_edit.
Qed.

Lemma safeTimeline_text_edit (id text : jsstring) (s : State) :
  safeTimeline (subtitles s) ->
  safeTimeline (subtitles (updateSubtitleText id text s)).
Proof.
  rewrite updateSubtitleText_map. intros [Hall Hmax].
  assert (E : forall l,
             totalMs
               (List.map (fun u =>
                  if JS.eqb (SubtitleItem.id u) id
                  then SubtitleItem.mk (SubtitleItem.id u) text
                         (SubtitleItem.durationMs u)
                         (SubtitleItem.pageIndex u)
                  else u) l)
             = totalMs l).
  { induction l as [|v l IH]; [reflexivity|].
    cbn [List.map totalMs fold_right] in *. fold (totalMs l).
    rewrite <- IH. destruct (JS.eqb (SubtitleItem.id v) id); reflexivity. }
  split; [|rewrite E; exact Hmax].
  apply Forall_map. eapply Forall_impl; [|exact Hall].
  intros v Hv. destruct (JS.eqb (SubtitleItem.id v) id); exact Hv.
Qed.

Lemma safeTimeline_duration_edit (s : State) (k : nat)
    (u : SubtitleItem.t) (d : Z)
    (Hids : NoDup (List.map SubtitleItem.id (subtitles s)))
    (Hk : nth_error (subtitles s) k = Some u) :
  safeTimeline (subtitles s) -> 0 <= d ->
  totalMs (subtitles s) - SubtitleItem.durationMs u + d
  <= MAX_SAFE_INTEGER ->
  safeTimeline (subtitles (updateSubtitleDuration (SubtitleItem.id u) d s)).
Proof.
  intros [Hall Hmax] Hd Hnew.
  destruct (edit_rows s k u [] d Hids Hk) as [_ E]. rewrite E.
  pose proof (nth_error_split_at _ k u Hk) as Hsplit.
  rewrite Hsplit in Hall, Hnew.
  apply Forall_app in Hall. destruct Hall as [Hb Ha].
  inversion Ha as [|? ? Hu Ha']; subst.
  rewrite totalMs_app in Hnew.
  cbn [totalMs fold_right] in Hnew.
  fold (totalMs (skipn (S k) (subtitles s))) in Hnew.
  split.
  - apply Forall_app. split; [exact Hb|]. constructor; [exact Hd | exact Ha'].
  - rewrite totalMs_app. cbn [totalMs fold_right SubtitleItem.durationMs].
    fold (totalMs (skipn (S k) (subtitles s))). lia.
Qed.

(** X11. How edits move the exported cues, when caption ids are distinct
    and the running time stays within [MAX_SAFE_INTEGER] before and
    after the edit: changing the duration of caption [k] keeps every
    earlier entry and the start of entry [k], and shifts every later cue
    by the change; a text edit moves no cue at all. *)
Theorem duration_edit_shifts_cues (s : State) (k : nat)
    (u : SubtitleItem.t) (d : Z) (id text : jsstring)
    (Hids : NoDup (List.map SubtitleItem.id (subtitles s)))
    (Hk : nth_error (subtitles s) k = Some u)
    (Hsafe : safeTimeline (subtitles s))
    (Hd : 0 <= d)
    (Hnew : totalMs (subtitles s) - SubtitleItem.durationMs u + d
            <= MAX_SAFE_INTEGER) :
  let before := firstn k (subtitles s) in
  let after := skipn (S k) (subtitles s) in
  let start := totalMs before in
  srtLines (subtitles s)
  = entriesFrom 1
      (cues before
       ++ (start, start + SubtitleItem.durationMs u, SubtitleItem.text u)
       :: cuesFrom (start + SubtitleItem.durationMs u) after)
  /\ srtLines (subtitles (updateSubtitleDuration (SubtitleItem.id u) d s))
     = entriesFrom 1
         (cues before
          ++ (start, start + d, SubtitleItem.text u)
          :: List.map (shiftCue (d - SubtitleItem.durationMs u))
               (cuesFrom (start + SubtitleItem.durationMs u) after))
  /\ srtLines (subtitles (updateSubtitleText id text s))
     = entriesFrom 1 (cues (subtitles (updateSubtitleText id text s)))
  /\ List.map fst (cues (subtitles (updateSubtitleText id text s)))
     = List.map fst (cues (subtitles s)).
Proof.
  cbv zeta.
  destruct (cues_after_edit s k u d id text Hids Hk) as (E1 & E2 & E3).
  split; [rewrite <- E1; apply srtLines_entries; exact Hsafe|].
  split.
  - rewrite <- E2. apply srtLines_entries.
    apply (safeTimeline_duration_edit s k u d Hids Hk Hsafe Hd Hnew).
  - split; [|exact E3].
    apply srtLines_entries, safeTimeline_text_edit, Hsafe.
Qed.

Lemma duration_edit_shifts_cues_witness :
  srtLines (subtitles (updateSubtitleDuration (str "a") 900 editing))
  = entriesFrom 1 [ (0, 900, str "A"); (900, 2900, str "B") ].
Proof.
  assert (Hids : NoDup (List.map SubtitleItem.id (subtitles editing))).
  { repeat constructor; simpl; intros H;
      repeat (destruct H as [H|H]; [discriminate|]); exact H. }
  assert (Hk : nth_error (subtitles editing) 0 = Some captionA)
    by reflexivity.
  assert (Hsafe : safeTimeline (subtitles editing)).
  { split; [repeat constructor; vm_compute; discriminate|].
    vm_compute. discriminate. }
  destruct (duration_edit_shifts_cues editing 0 captionA 900 (str "a")
              (str "A") Hids Hk Hsafe ltac:(lia)
              ltac:(vm_compute; discriminate)) as (_ & H & _).
  exact H.
Defined.

(** ** The duration field *)

Lemma mathInt_head (c : N) (rest : jsstring) :
  isWhiteSpace c = false ->
  mathInt (c :: rest)
  = if (c =? 45)%N then option_map Z.opp (ParseInt.unsigned rest)
    else if (c =? 43)%N then ParseInt.unsigned rest
    else ParseInt.unsigned (c :: rest).
Proof.
  intros H. unfold mathInt. cbn [trimStart]. rewrite H.
  destruct c as [|p]; [reflexivity|].
  do 6 (destruct p as [p|p|]; try reflexivity).
Qed.

Lemma unsigned_head (c : N) (rest : jsstring) :
  ParseInt.unsigned (c :: rest)
  = match rest with
    | x :: rest' =>
        if ((c =? 48) && ((x =? 120) || (x =? 88)))%N
        then ParseInt.digits 16 0 false rest'
        else ParseInt.digits 10 0 false (c :: rest)
    | [] => ParseInt.digits 10 0 false (c :: rest)
    end.
Proof.
  unfold ParseInt.unsigned.
  destruct c as [|p]; [destruct rest; reflexivity|].
  do 6 (destruct p as [p|p|]; try (destruct rest; reflexivity)).
Qed.

Lemma digitValue_digit (c : N) :
  ((48 <=? c) && (c <=? 57))%N = true ->
  ParseInt.digitValue c = Some (Z.of_N c - 48) /\ Z.of_N c - 48 < 10.
Proof.
  intros H. unfold ParseInt.digitValue. rewrite H. split; [reflexivity|].
  apply andb_true_iff in H. destruct H as [_ H]. apply N.leb_le in H. lia.
Qed.

Lemma digitValue_stop (c : N) :
  ((48 <=? c) && (c <=? 57))%N = false ->
  match ParseInt.digitValue c with
  | Some v => 10 <= v
  | None => True
  end.
Proof.
  intros H. unfold ParseInt.digitValue. rewrite H.
  destruct ((97 <=? c) && (c <=? 122))%N eqn:E1.
  - apply andb_true_iff in E1. destruct E1 as [E1 _].
    apply N.leb_le in E1. lia.
  - destruct ((65 <=? c) && (c <=? 90))%N eqn:E2; [|exact I].
    apply andb_true_iff in E2. destruct E2 as [E2 _].
    apply N.leb_le in E2. lia.
Qed.

Lemma digits_stop (acc : Z) (tail : jsstring) (n : Z) :
  plainTail n tail -> ParseInt.digits 10 acc true tail = Some acc.
Proof.
  destruct tail as [|c tail]; [reflexivity|]. intros [Hc _].
  cbn [ParseInt.digits]. pose proof (digitValue_stop c Hc) as Hs.
  destruct (ParseInt.digitValue c) as [v|]; [|reflexivity].
  destruct (v <? 10) eqn:E; [apply Z.ltb_lt in E; lia | reflexivity].
Qed.

Lemma digits_fold (ds tail : jsstring) (acc n : Z) (seen : bool) :
  allDigits ds -> plainTail n tail -> (ds <> [] \/ seen = true) ->
  ParseInt.digits 10 acc seen (ds ++ tail)
  = fold_left SrtReader.digitStep ds (Some acc).
Proof.
  revert acc seen. induction ds as [|c ds IH]; intros acc seen Hd Ht Hs.
  - destruct Hs as [Hs| ->]; [congruence|]. apply (digits_stop acc tail n Ht).
  - unfold allDigits in Hd. cbn [forallb] in Hd.
    apply andb_true_iff in Hd. destruct Hd as [Hc Hds].
    destruct (digitValue_digit c Hc) as [Hv Hlt].
    cbn [app ParseInt.digits fold_left SrtReader.digitStep].
    rewrite Hv, Hc. apply Z.ltb_lt in Hlt. rewrite Hlt.
    rewrite (IH _ true Hds Ht) by (right; reflexivity).
    f_equal. f_equal. lia.
Qed.

Lemma unsigned_decimal (n : Z) (tail : jsstring) :
  0 <= n -> plainTail n tail ->
  ParseInt.unsigned (toString n ++ tail) = Some n.
Proof.
  intros Hn Ht. destruct (toString_digits n Hn) as (Hd & Hne & Hv).
  assert (Hdec : ParseInt.digits 10 0 false (toString n ++ tail) = Some n).
  { rewrite (digits_fold _ tail 0 n false Hd Ht) by (left; exact Hne).
    exact Hv. }
  destruct (toString n) as [|c ds] eqn:E; [congruence|].
  cbn [app] in Hdec |- *. rewrite unsigned_head.
  destruct (ds ++ tail) as [|x rest'] eqn:Er; [exact Hdec|].
  destruct ((c =? 48) && ((x =? 120) || (x =? 88)))%N eqn:Ex; [|exact Hdec].
  exfalso. apply andb_true_iff in Ex. destruct Ex as [Ec Ex].
  apply N.eqb_eq in Ec. subst c.
  unfold allDigits in Hd. cbn [forallb] in Hd.
  destruct ds as [|y ds].
  - (* the numeral is "0": then n = 0 and the tail starts with x *)
    cbn [app] in Er. subst tail. cbn in Hv. injection Hv as Hv.
    destruct Ht as [_ Ht]. destruct (Ht (eq_sym Hv)) as [H1 H2].
    apply orb_true_iff in Ex. destruct Ex as [Ex|Ex];
      apply N.eqb_eq in Ex; congruence.
  - cbn [app] in Er. injection Er as -> _. cbn [forallb] in Hd.
    apply andb_true_iff in Hd. destruct Hd as [_ Hd].
    apply andb_true_iff in Hd. destruct Hd as [Hx _].
    apply orb_true_iff in Ex. destruct Ex as [Ex|Ex];
      apply N.eqb_eq in Ex; subst x; discriminate.
Qed.

Lemma trimStart_blank (ws s : jsstring) :
  blank ws -> trimStart (ws ++ s) = trimStart s.
Proof.
  unfold blank. induction ws as [|c ws IH]; intros H; [reflexivity|].
  cbn [forallb] in H. apply andb_true_iff in H. destruct H as [Hc Hws].
  cbn [app trimStart]. rewrite Hc. apply IH. exact Hws.
Qed.

Lemma digit_not_space (c : N) :
  ((48 <=? c) && (c <=? 57))%N = true -> isWhiteSpace c = false.
Proof.
  intros H. apply andb_true_iff in H. destruct H as [H1 H2].
  apply N.leb_le in H1. apply N.leb_le in H2. unfold isWhiteSpace.
  repeat
    match goal with
    | |- context [(?a <=? ?b)%N] =>
        let E := fresh in
        destruct (a <=? b)%N eqn:E;
        [apply N.leb_le in E | apply N.leb_gt in E]
    | |- context [(?a =? ?b)%N] =>
        let E := fresh in
        destruct (a =? b)%N eqn:E;
        [apply N.eqb_eq in E | apply N.eqb_neq in E]
    end; try reflexivity; lia.
Qed.

Lemma mathInt_nonneg (n : Z) (tail : jsstring) :
  0 <= n -> plainTail n tail -> mathInt (toString n ++ tail) = Some n.
Proof.
  intros Hn Ht. pose proof (unsigned_decimal n tail Hn Ht) as Hu.
  destruct (toString_digits n Hn) as (Hd & Hne & _).
  destruct (toString n) as [|c ds] eqn:E; [congruence|].
  unfold allDigits in Hd. cbn [forallb] in Hd.
  apply andb_true_iff in Hd. destruct Hd as [Hc _].
  cbn [app] in Hu |- *. rewrite (mathInt_head c _ (digit_not_space c Hc)).
  apply andb_true_iff in Hc. destruct Hc as [Hc _]. apply N.leb_le in Hc.
  destruct (c =? 45)%N eqn:E1; [apply N.eqb_eq in E1; lia|].
  destruct (c =? 43)%N eqn:E2; [apply N.eqb_eq in E2; lia|].
  exact Hu.
Qed.

(** The decimal numeral of any integer, possibly after white space and
    before other text, is read as that integer. *)
Lemma mathInt_decimal (n : Z) (ws tail : jsstring) :
  blank ws -> plainTail n tail ->
  mathInt (ws ++ toString n ++ tail) = Some n.
Proof.
  intros Hws Ht.
  assert (Hskip : mathInt (ws ++ toString n ++ tail)
                  = mathInt (toString n ++ tail)).
  { unfold mathInt. rewrite (trimStart_blank ws _ Hws). reflexivity. }
  rewrite Hskip. destruct n as [|p|p].
  - apply mathInt_nonneg; [lia | exact Ht].
  - apply mathInt_nonneg; [lia | exact Ht].
  - change (toString (Z.neg p)) with (45%N :: toString (Z.pos p)).
    cbn [app]. rewrite mathInt_head by reflexivity.
    cbn [N.eqb Pos.eqb].
    rewrite (unsigned_decimal (Z.pos p) tail); [reflexivity | lia|].
    destruct tail as [|c tail]; [exact I|]. destruct Ht as [Hc _].
    split; [exact Hc | intros; lia].
Qed.

(** Up to [MAX_SAFE_INTEGER] in magnitude that integer is a double, and
    [parseInt] returns it. *)
Lemma parseInt_decimal (n : Z) (ws tail : jsstring) :
  blank ws -> plainTail n tail -> Z.abs n <= MAX_SAFE_INTEGER ->
  parseInt (ws ++ toString n ++ tail) = Some n.
Proof.
  intros Hws Ht Hn. unfold parseInt.
  rewrite (mathInt_decimal n ws tail Hws Ht). cbn [option_map].
  rewrite Number_ofInteger_safe; [reflexivity|].
  unfold MAX_SAFE_INTEGER in Hn. lia.
Qed.

(** X12. A duration field that holds the decimal numeral of an integer
    [n] of magnitude up to [MAX_SAFE_INTEGER], possibly after white space
    and before other text (as in [1500ms]), stores [max(500, n)] in the
    caption it names. *)
Theorem duration_input_decimal (s : State) (id ws tail : jsstring) (n : Z)
    (Hws : blank ws) (Htail : plainTail n tail)
    (Hsafe : Z.abs n <= MAX_SAFE_INTEGER) :
  onDurationChange id (ws ++ toString n ++ tail) s
  = updateSubtitleDuration id (Z.max 500 n) s.
Proof.
  unfold onDurationChange.
  rewrite (parseInt_decimal n ws tail Hws Htail Hsafe).
  reflexivity.
Qed.

Lemma duration_input_decimal_witness :
  onDurationChange (str "a") (str " 1800ms") editing
  = updateSubtitleDuration (str "a") 1800 editing.
Proof.
  apply (duration_input_decimal editing (str "a") (str " ") (str "ms") 1800).
  - reflexivity.
  - split; [reflexivity | intros; lia].
  - vm_compute. discriminate.
Defined.

(** X13. The displayed duration reads back as itself: re-entering the
    number shown in a duration field leaves the state as it is, provided
    the caption's duration is between the floor and [MAX_SAFE_INTEGER]
    and the captions sharing its id share its duration. *)
Theorem duration_reentry (s : State) (u : SubtitleItem.t)
    (Hfloor : 500 <= SubtitleItem.durationMs u)
    (Hsafe : SubtitleItem.durationMs u <= MAX_SAFE_INTEGER)
    (Hsame : forall v, In v (subtitles s) ->
             SubtitleItem.id v = SubtitleItem.id u ->
             SubtitleItem.durationMs v = SubtitleItem.durationMs u) :
  onDurationChange (SubtitleItem.id u) (toString (SubtitleItem.durationMs u))
    s
  = s.
Proof.
  unfold onDurationChange.
  pose proof (parseInt_decimal (SubtitleItem.durationMs u) [] [] eq_refl I
                ltac:(lia))
    as Hp.
  cbn [app] in Hp. rewrite app_nil_r in Hp. rewrite Hp. cbn [orZero].
  rewrite Z.max_r by exact Hfloor.
  unfold updateSubtitleDuration. rewrite map_id_when.
  - apply withSubtitles_same.
  - intros v Hv. destruct (eqb_reflect (SubtitleItem.id v) (SubtitleItem.id u))
      as [E|E]; [|reflexivity].
    rewrite <- (Hsame v Hv E). destruct v; reflexivity.
Qed.

Lemma duration_reentry_witness :
  onDurationChange (str "b") (str "2000") editing = editing.
Proof.
  apply (duration_reentry editing captionB).
  - simpl. lia.
  - vm_compute. discriminate.
  - intros v [<-|[<-|[]]]; [discriminate | reflexivity].
Defined.

(** ** The session as a whole *)

(** The state a handler leaves, in each of its three ways of ending. *)
Lemma runAgent_state (ocr : OcrService) (s : State) :
  let s' := snd (fst (runAgent ocr s)) in
  (images s = [] /\ s' = s)
  \/ (images s <> []
      /\ exists results,
           settles (ocr (ocrInput (images s))) = Resolved results
           /\ s' = mkState (images s) false results
                     (buildSubtitles (images s) results) 65
                     (str "Ready to render") (videoUrl s) (bgmEnabled s)
                     (fps s) (resolution s))
  \/ (images s <> []
      /\ exists e,
           settles (ocr (ocrInput (images s))) = Rejected e
           /\ s' = mkState (images s) true (ocrResults s) (subtitles s)
                     (last (List.map ocrPercent
                              (reports (ocr (ocrInput (images s))))) 0)
                     (str "Analyzing pages with OCR") (videoUrl s)
                     (bgmEnabled s) (fps s) (resolution s)).
Proof.
  cbv zeta. destruct (images s) as [|i imgs] eqn:E.
  - left. split; [reflexivity|].
    rewrite runAgent_no_images by exact E. reflexivity.
  - assert (Hne : images s <> []) by congruence. rewrite <- E.
    destruct (settles (ocr (ocrInput (images s)))) as [results|e] eqn:Hs.
    + right. left. split; [exact Hne|]. exists results.
      split; [reflexivity|].
      rewrite (runAgent_resolved ocr s results Hne Hs). reflexivity.
    + right. right. split; [exact Hne|]. exists e. split; [reflexivity|].
      rewrite (runAgent_rejected ocr s e Hne Hs). reflexivity.
Qed.

Lemma renderVideo_state (render : RenderService) (s : State) :
  let s' := snd (fst (renderVideo render s)) in
  ((images s = [] \/ subtitles s = []) /\ s' = s)
  \/ (images s <> [] /\ subtitles s <> []
      /\ exists url,
           settles (render (renderRequest s)) = Resolved url
           /\ s' = mkState (images s) false (ocrResults s) (subtitles s) 100
                     (str "Completed") (Some url) (bgmEnabled s) (fps s)
                     (resolution s))
  \/ (images s <> [] /\ subtitles s <> []
      /\ exists e,
           settles (render (renderRequest s)) = Rejected e
           /\ s' = mkState (images s) true (ocrResults s) (subtitles s)
                     (last (List.map renderPercent
                              (reports (render (renderRequest s)))) 70)
                     (str "Rendering animation to video") (videoUrl s)
                     (bgmEnabled s) (fps s) (resolution s)).
Proof.
  cbv zeta. destruct (images s) as [|i imgs] eqn:E.
  { left. split; [left; reflexivity|].
    rewrite renderVideo_guard by (left; exact E). reflexivity. }
  destruct (subtitles s) as [|u subs] eqn:E'.
  { left. split; [right; reflexivity|].
    rewrite renderVideo_guard by (right; exact E'). reflexivity. }
  assert (Hne : images s <> []) by congruence.
  assert (Hne' : subtitles s <> []) by congruence.
  rewrite <- E, <- E'.
  destruct (settles (render (renderRequest s))) as [url|e] eqn:Hs.
  - right. left. repeat (split; [assumption|]). exists url.
    split; [reflexivity|].
    rewrite (renderVideo_resolved render s url Hne Hne' Hs). reflexivity.
  - right. right. repeat (split; [assumption|]). exists e.
    split; [reflexivity|].
    rewrite (renderVideo_rejected render s e Hne Hne' Hs). reflexivity.
Qed.

Lemma buildSubtitles_nonempty (images : list UploadedImage.t)
    (results : list OcrResult.t) :
  images <> [] -> buildSubtitles images results <> [].
Proof.
  intros Hne E. apply buildSubtitles_nil_iff in E. destruct E as [E _].
  congruence.
Qed.

Lemma map_nonempty {A B} (f : A -> B) (l : list A) :
  List.map f l <> [] <-> l <> [].
Proof. destruct l; simpl; split; congruence. Qed.

Lemma handle_consistent (s : State) (ev : Event) :
  consistent s -> consistent (handle s ev).
Proof.
  intros Hall. pose proof Hall as (Ho & Hs & Hv & Hf).
  destruct ev as [items| |ocr|render|id v|id v|o|r|b]; cbn [handle].
  - destruct items as [items|]; [|exact Hall].
    unfold consistent; cbn. repeat split; try congruence; exact Hf.
  - destruct (isProcessing s); [exact Hall|].
    unfold consistent; cbn. repeat split; try congruence; exact Hf.
  - destruct (isProcessing s || (List.length (images s) =? 0)%nat);
      [exact Hall|].
    destruct (runAgent_state ocr s)
      as [[_ ->]|[(Hne & results & _ & ->)|(Hne & e & _ & ->)]];
      [exact Hall | |];
      unfold consistent; cbn;
      (split; [intros _; exact Hne|]);
      (split; [intros _; exact Hne|]);
      (split; [|exact Hf]); intros Hvid.
    + split; [exact Hne | apply buildSubtitles_nonempty; exact Hne].
    + apply Hv. exact Hvid.
  - destruct ((List.length (subtitles s) =? 0)%nat || isProcessing s);
      [exact Hall|].
    destruct (renderVideo_state render s)
      as [[_ ->]|[(Hne & Hne' & url & _ & ->)|(Hne & Hne' & e & _ & ->)]];
      [exact Hall | |];
      unfold consistent; cbn;
      (split; [intros _; exact Hne|]);
      (split; [intros _; exact Hne|]);
      (split; [|exact Hf]); intros _; split; assumption.
  - destruct (List.length (subtitles s) =? 0)%nat; [exact Hall|].
    unfold consistent, updateSubtitleText; cbn.
    rewrite map_nonempty. exact Hall.
  - destruct (List.length (subtitles s) =? 0)%nat; [exact Hall|].
    unfold consistent, onDurationChange, updateSubtitleDuration; cbn.
    rewrite map_nonempty. exact Hall.
  - destruct (List.length (subtitles s) =? 0)%nat; [exact Hall|].
    unfold consistent; cbn.
    split; [exact Ho|]. split; [exact Hs|]. split; [exact Hv|].
    destruct o; cbn; lia.
  - destruct (List.length (subtitles s) =? 0)%nat; exact Hall.
  - destruct (List.length (subtitles s) =? 0)%nat; exact Hall.
Qed.

Lemma handle_idle (s : State) (ev : Event) :
  eventResolves ev -> isProcessing s = false ->
  isProcessing (handle s ev) = false.
Proof.
  intros Hr Hs.
  destruct ev as [items| |ocr|render|id v|id v|o|r|b]; cbn [handle];
    try (destruct (List.length (subtitles s) =? 0)%nat; [exact Hs|];
         destruct s; exact Hs).
  - destruct items; [destruct s|]; exact Hs.
  - rewrite Hs. destruct s; exact Hs.
  - destruct (isProcessing s || (List.length (images s) =? 0)%nat);
      [exact Hs|].
    destruct (runAgent_state ocr s)
      as [[_ ->]|[(Hne & results & _ & ->)|(Hne & e & He & _)]];
      [exact Hs | reflexivity|].
    destruct (Hr (ocrInput (images s))) as [results Hres]. congruence.
  - destruct ((List.length (subtitles s) =? 0)%nat || isProcessing s);
      [exact Hs|].
    destruct (renderVideo_state render s)
      as [[_ ->]|[(Hne & Hne' & url & _ & ->)|(Hne & Hne' & e & He & _)]];
      [exact Hs | reflexivity|].
    destruct (Hr (renderRequest s)) as [url Hres]. congruence.
Qed.

(** X16. The page is never left busy by calls that resolve: if every
    collaborator call made during a sequence of events resolves, the
    busy flag is clear after it. *)
Theorem idle_when_calls_resolve (events : list Event)
    (Hresolve : Forall eventResolves events) :
  isProcessing (session events) = false.
Proof.
  unfold session.
  assert (H : isProcessing initialState = false) by reflexivity.
  revert H. generalize initialState.
  induction Hresolve as [|ev events Hev Hevents IH]; intros s Hs;
    [exact Hs|].
  cbn [fold_left]. apply IH. apply handle_idle; assumption.
Qed.

Lemma idle_when_calls_resolve_witness :
  isProcessing
    (session [FilesSelected (Some [page1]); ClickRunAgent (steadyOcr []);
              ClickRenderVideo steadyRender])
  = false.
Proof.
  apply (idle_when_calls_resolve
           [FilesSelected (Some [page1]); ClickRunAgent (steadyOcr []);
            ClickRenderVideo steadyRender]).
  repeat constructor.
  - intros input. eexists. reflexivity.
  - intros req. eexists. reflexivity.
Defined.

(** X17. While the busy flag is set, Run Agent, Render Video and Reset
    do nothing, and no sequence of user events clears the flag. *)
Theorem busy_blocks_controls (s : State) (ocr : OcrService)
    (render : RenderService) (events : list Event)
    (Hbusy : isProcessing s = true) :
  handle s (ClickRunAgent ocr) = s
  /\ handle s (ClickRenderVideo render) = s
  /\ handle s ClickReset = s
  /\ isProcessing (fold_left handle events s) = true.
Proof.
  cbn [handle]. rewrite Hbusy, orb_true_r. repeat split.
  apply busy_is_permanent. exact Hbusy.
Qed.

Lemma busy_blocks_controls_witness :
  isProcessing
    (fold_left handle [ClickReset; ClickRunAgent (steadyOcr [])]
       (snd (fst (runAgent failingOcr loaded))))
  = true.
Proof.
  apply (busy_blocks_controls (snd (fst (runAgent failingOcr loaded)))
           failingOcr failingRender
           [ClickReset; ClickRunAgent (steadyOcr [])]).
  reflexivity.
Defined.

Lemma last_in_range (l : list Z) (d lo hi : Z) :
  Forall (fun x => lo <= x <= hi) l -> lo <= d <= hi ->
  lo <= last l d <= hi.
Proof.
  induction 1 as [|x l Hx Hl IH]; intros Hd; [exact Hd|].
  destruct l as [|y l]; [exact Hx|].
  change (last (x :: y :: l) d) with (last (y :: l) d). apply IH. exact Hd.
Qed.

Lemma handle_percent (s : State) (ev : Event) :
  eventInUnit ev -> 0 <= agentStep s <= 100 ->
  0 <= agentStep (handle s ev) <= 100.
Proof.
  intros Hu Hs.
  destruct ev as [items| |ocr|render|id v|id v|o|r|b]; cbn [handle];
    try (destruct (List.length (subtitles s) =? 0)%nat; [exact Hs|];
         destruct s; exact Hs).
  - destruct items; [destruct s|]; exact Hs.
  - destruct (isProcessing s); [|destruct s]; exact Hs.
  - destruct (isProcessing s || (List.length (images s) =? 0)%nat);
      [exact Hs|].
    destruct (runAgent_state ocr s)
      as [[_ ->]|[(Hne & results & _ & ->)|(Hne & e & _ & ->)]];
      [exact Hs | cbn; lia|].
    cbn [agentStep]. apply last_in_range; [|lia].
    apply Forall_map_range; [|apply Hu].
    intros a Ha. pose proof (ocrPercent_range a Ha). lia.
  - destruct ((List.length (subtitles s) =? 0)%nat || isProcessing s);
      [exact Hs|].
    destruct (renderVideo_state render s)
      as [[_ ->]|[(Hne & Hne' & url & _ & ->)|(Hne & Hne' & e & _ & ->)]];
      [exact Hs | cbn; lia|].
    cbn [agentStep]. apply last_in_range; [|lia].
    apply Forall_map_range; [|apply Hu].
    intros a Ha. pose proof (renderPercent_range a Ha). lia.
Qed.

(** X18. When the collaborators report fractions in [[0, 1]], the
    progress card always shows a percent between 0 and 100, so the bar
    never overflows its track, whatever the events and the outcomes of
    the calls. *)
Theorem progress_bar_in_range (events : list Event)
    (Hunit : Forall eventInUnit events) :
  let s := session events in
  0 <= agentStep s <= 100
  /\ AgentProgress.barWidth (progressView s)
     = toString (agentStep s) ++ str "%"
  /\ AgentProgress.percentText (progressView s)
     = toString (agentStep s) ++ str "%"
  /\ AgentProgress.label (progressView s) = agentLabel s.
Proof.
  cbv zeta. split; [|repeat split].
  unfold session.
  assert (H : 0 <= agentStep initialState <= 100) by (cbn; lia).
  revert H. generalize initialState.
  induction Hunit as [|ev events Hev Hevents IH]; intros s Hs; [exact Hs|].
  cbn [fold_left]. apply IH. apply handle_percent; assumption.
Qed.

Lemma progress_bar_in_range_witness :
  0 <= agentStep
         (session [FilesSelected (Some [page1]); ClickRunAgent failingOcr])
    <= 100.
Proof.
  apply (progress_bar_in_range
           [FilesSelected (Some [page1]); ClickRunAgent failingOcr]).
  constructor; [exact I|]. constructor; [|constructor].
  intros input. constructor; [|constructor].
  split; discriminate.
Defined.

(** X19. The whole pipeline: choosing at least one page, running the
    agent and rendering, with both collaborators resolving, ends idle at
    "Completed", 100 percent, with the pages chosen, the OCR results as
    returned, the captions the timeline builder makes of them and the
    returned video; the renderer is asked for those pages and captions
    at 1280x720, 30 frames per second, with music. *)
Theorem pipeline_end_to_end (items : list UploadedImage.t)
    (ocr : OcrService) (render : RenderService)
    (results : list OcrResult.t) (url : jsstring)
    (Hitems : items <> [])
    (Hocr : settles (ocr (ocrInput items)) = Resolved results)
    (Hrender :
       settles
         (render
            (mkRenderRequest
               (List.map (fun i => (UploadedImage.id i, UploadedImage.url i))
                         items)
               (buildSubtitles items results) 1280 720 30 true))
       = Resolved url) :
  session [FilesSelected (Some items); ClickRunAgent ocr;
           ClickRenderVideo render]
  = mkState items false results (buildSubtitles items results) 100
      (str "Completed") (Some url) true 30 R720p.
Proof.
  unfold session. cbn [fold_left handle].
  set (s0 := onFilesSelected (Some items) initialState).
  assert (Himg : images s0 = items) by reflexivity.
  assert (Hbusy : isProcessing s0 = false) by reflexivity.
  rewrite Hbusy, Himg. cbn [orb].
  destruct items as [|i items']; [congruence|]. cbn [List.length Nat.eqb].
  rewrite (runAgent_resolved ocr s0 results)
    by (rewrite Himg; [discriminate || exact Hocr]).
  cbn [fst snd]. rewrite Himg.
  set (s1 := mkState _ _ _ _ _ _ _ _ _ _).
  assert (Hsub : subtitles s1 = buildSubtitles (i :: items') results)
    by reflexivity.
  pose proof (buildSubtitles_nonempty (i :: items') results Hitems) as Hne.
  assert (Hlen : (List.length (subtitles s1) =? 0)%nat = false).
  { rewrite Hsub.
    destruct (buildSubtitles (i :: items') results); [congruence|].
    reflexivity. }
  assert (Hidle : isProcessing s1 = false) by reflexivity.
  rewrite Hlen, Hidle. cbn [orb].
  rewrite (renderVideo_resolved render s1 url).
  - reflexivity.
  - unfold s1. cbn [images]. discriminate.
  - rewrite Hsub. exact Hne.
  - exact Hrender.
Qed.

Lemma pipeline_end_to_end_witness :
  session [FilesSelected (Some [page1]);
           ClickRunAgent (steadyOcr [str "Hello world."]);
           ClickRenderVideo steadyRender]
  = mkState [page1] false
      (List.map (fun '((id, _, _), text) => OcrResult.mk id text)
         (combine (ocrInput [page1]) [str "Hello world."]))
      (buildSubtitles [page1]
         (List.map (fun '((id, _, _), text) => OcrResult.mk id text)
            (combine (ocrInput [page1]) [str "Hello world."])))
      100 (str "Completed") (Some (str "blob:video")) true 30 R720p.
Proof.
  apply (pipeline_end_to_end [page1] (steadyOcr [str "Hello world."])
           steadyRender).
  - discriminate.
  - reflexivity.
  - reflexivity.
Defined.

(** X20. What the two asynchronous handlers never touch, whatever the
    collaborator does: [runAgent] leaves the pages, the video and the
    three render options as they are (an earlier video stays on the page
    when the agent is run again), and [renderVideo] leaves the pages, the
    OCR results, the captions and the options. *)
Theorem handlers_frame (ocr : OcrService) (render : RenderService)
    (s : State) :
  let a := snd (fst (runAgent ocr s)) in
  let r := snd (fst (renderVideo render s)) in
  (images a = images s /\ videoUrl a = videoUrl s
   /\ bgmEnabled a = bgmEnabled s /\ fps a = fps s
   /\ resolution a = resolution s)
  /\ (images r = images s /\ ocrResults r = ocrResults s
      /\ subtitles r = subtitles s /\ bgmEnabled r = bgmEnabled s
      /\ fps r = fps s /\ resolution r = resolution s).
Proof.
  cbv zeta. split.
  - destruct (runAgent_state ocr s)
      as [[_ ->]|[(_ & results & _ & ->)|(_ & e & _ & ->)]];
      repeat split.
  - destruct (renderVideo_state render s)
      as [[_ ->]|[(_ & _ & url & _ & ->)|(_ & _ & e & _ & ->)]];
      repeat split.
Qed.

Lemma Math_round_half_up (n d : Z) :
  0 < d -> Math_round (inject_Z n / inject_Z d) = (2 * n + d) / (2 * d).
Proof.
  intros Hd. unfold Math_round.
  assert (E : (inject_Z n / inject_Z d + (1 # 2)
               == inject_Z (2 * n + d) / inject_Z (2 * d))%Q).
  { rewrite !inject_Z_plus, !inject_Z_mult.
    assert (~ (inject_Z d == 0)%Q).
    { intros H. apply (inject_Z_injective d 0) in H. lia. }
    field. assumption. }
  rewrite (Qfloor_comp _ _ E).
  destruct d as [|p|p]; try lia.
  unfold Qfloor, Qdiv, Qmult, Qinv, inject_Z. cbn [Qnum Qden].
  rewrite !Z.mul_1_r. reflexivity.
Qed.

(** X21. The size badge of a thumbnail shows the file size in units of
    1024 bytes rounded to the nearest, halves upwards: it is
    [(size + 512) / 1024], within 512 bytes of the size, never decreases
    with the size, and reads 0 exactly for files under 512 bytes. *)
Theorem size_badge (size : Z) :
  sizeKB size = (size + 512) / 1024
  /\ -512 <= size - 1024 * sizeKB size < 512
  /\ (forall bigger, size <= bigger -> sizeKB size <= sizeKB bigger)
  /\ (0 <= size -> (sizeKB size = 0 <-> size < 512)).
Proof.
  assert (E : forall z, sizeKB z = (z + 512) / 1024).
  { intros z. unfold sizeKB. rewrite Math_round_half_up by lia.
    replace (2 * z + 1024) with ((z + 512) * 2) by lia.
    replace (2 * 1024) with (1024 * 2) by lia.
    apply Z.div_mul_cancel_r; lia. }
  split; [apply E|]. split; [|split].
  - rewrite E. pose proof (Z.div_mod (size + 512) 1024).
    pose proof (Z.mod_pos_bound (size + 512) 1024). lia.
  - intros bigger Hle. rewrite !E. apply Z.div_le_mono; lia.
  - intros Hsize. rewrite E. split; intros H.
    + pose proof (Z.div_mod (size + 512) 1024).
      pose proof (Z.mod_pos_bound (size + 512) 1024). lia.
    + apply Z.div_small. lia.
Qed.

Lemma size_badge_witness :
  sizeKB 1536 = 2 /\ (sizeKB 511 = 0 <-> 511 < 512).
Proof.
  destruct (size_badge 1536) as (E & _).
  destruct (size_badge 511) as (_ & _ & _ & Z0).
  split; [rewrite E; reflexivity | apply Z0; lia].
Defined.

Lemma stage_edit (s s' : State) :
  stage s -> (List.length (subtitles s) =? 0)%nat = false ->
  agentLabel s' = agentLabel s -> agentStep s' = agentStep s ->
  isProcessing s' = isProcessing s ->
  stage s'.
Proof.
  unfold stage. intros Hs Hlen -> -> ->.
  destruct Hs as [(_ & _ & _ & _ & Hsub & _)|Hs]; [|right; exact Hs].
  rewrite Hsub in Hlen. discriminate Hlen.
Qed.

Lemma handle_stage (s : State) (ev : Event) : stage s -> stage (handle s ev).
Proof.
  intros Hs.
  destruct ev as [items| |ocr|render|id v|id v|o|r|b]; cbn [handle];
    try (destruct (List.length (subtitles s) =? 0)%nat eqn:Hlen;
         [exact Hs|];
         apply (stage_edit s _ Hs Hlen); destruct s; reflexivity).
  - destruct items as [items|]; [|exact Hs].
    destruct s; unfold stage in *;
      cbn [onFilesSelected withVideoUrl withSubtitles withOcrResults
           withImages agentLabel agentStep isProcessing ocrResults subtitles
           videoUrl] in *.
    intuition auto.
  - destruct (isProcessing s) eqn:Hb; [exact Hs|].
    destruct s; unfold stage in *;
      cbn [onReset withVideoUrl withSubtitles withOcrResults
           withImages agentLabel agentStep isProcessing ocrResults subtitles
           videoUrl] in *.
    intuition auto.
  - destruct (isProcessing s || (List.length (images s) =? 0)%nat);
      [exact Hs|].
    destruct (runAgent_state ocr s)
      as [[_ ->]|[(_ & results & _ & ->)|(_ & e & _ & ->)]];
      [exact Hs | |].
    + right; left. repeat split.
    + right; right; right; left. repeat split.
  - destruct ((List.length (subtitles s) =? 0)%nat || isProcessing s);
      [exact Hs|].
    destruct (renderVideo_state render s)
      as [[_ ->]|[(_ & _ & url & _ & ->)|(_ & _ & e & _ & ->)]];
      [exact Hs | |].
    + right; right; left. repeat split.
    + right; right; right; right. repeat split.
Qed.

Lemma cuesFrom_ordered (subs : list SubtitleItem.t) :
  Forall (fun u => 500 <= SubtitleItem.durationMs u) subs ->
  forall (t : Z) (k : nat) (start end_ : Z) (text : jsstring),
    nth_error (cuesFrom t subs) k = Some (start, end_, text) ->
    t <= start /\ start + 500 <= end_
    /\ (forall start' end' text',
          nth_error (cuesFrom t subs) (S k) = Some (start', end', text') ->
          start' = end_).
Proof.
  induction 1 as [|u subs Hu Hsubs IH]; intros t k start end_ text Hk.
  - destruct k; discriminate Hk.
  - destruct k as [|k]; cbn [cuesFrom nth_error] in *.
    + injection Hk as <- <- <-. repeat split; try lia.
      intros start' end' text' Hnext.
      destruct subs as [|v subs']; [discriminate Hnext|].
      cbn [cuesFrom nth_error] in Hnext. injection Hnext as <- _ _.
      reflexivity.
    + destruct (IH _ _ _ _ _ Hk) as (Hle & Hlen & Hnext).
      repeat split; [lia | exact Hlen | exact Hnext].
Qed.


(** * The page while a handler is suspended *)

Lemma page_eta (p : Page) : mkPage (state p) (suspended p) = p.
Proof. destruct p; reflexivity. Qed.

(** A user event other than a click on Run Agent or Render Video is
    handled as in a session, and leaves a suspended handler where it
    is. *)
Lemma step_event (p : Page) (sig : Signal) (ev : Event) :
  eventOf sig = Some ev ->
  step p sig = mkPage (handle (state p) ev) (suspended p).
Proof.
  intros H.
  destruct sig; cbn [eventOf] in H; try discriminate H; injection H as <-;
    cbn [step handle];
    try (destruct (List.length (subtitles (state p)) =? 0)%nat;
         [symmetry; apply page_eta | reflexivity]).
  - reflexivity.
  - destruct (isProcessing (state p));
      [symmetry; apply page_eta | reflexivity].
Qed.

Lemma runFrom_app (p : Page) (a b : list Signal) :
  runFrom p (a ++ b) = runFrom (runFrom p a) b.
Proof. apply fold_left_app. Qed.

Lemma runFrom_ocr_reports (s : State) (images : list UploadedImage.t)
    (fs : list Q) :
  runFrom (mkPage s (AwaitingOcr images)) (List.map OcrReports fs)
  = mkPage (fold_left (fun st f => withAgentStep (ocrPercent f) st) fs s)
      (AwaitingOcr images).
Proof.
  revert s. induction fs as [|f fs IH]; intros s; [reflexivity|].
  cbn [List.map runFrom fold_left step suspended state].
  apply IH.
Qed.

Lemma runFrom_render_reports (s : State) (req : RenderRequest)
    (fs : list Q) :
  runFrom (mkPage s (AwaitingRender req)) (List.map RenderReports fs)
  = mkPage (fold_left (fun st f => withAgentStep (renderPercent f) st) fs s)
      (AwaitingRender req).
Proof.
  revert s. induction fs as [|f fs IH]; intros s; [reflexivity|].
  cbn [List.map runFrom fold_left step suspended state].
  apply IH.
Qed.

(** Signals for a handler that is not waiting are lost. *)
Lemma runFrom_not_awaited (s : State) (signals : list Signal) :
  Forall (fun sig =>
            match sig with
            | OcrReports _ | OcrSettles _ | TimerFires
            | RenderReports _ | RenderSettles _ => True
            | _ => False
            end) signals ->
  runFrom (mkPage s NotSuspended) signals = mkPage s NotSuspended.
Proof.
  induction 1 as [|sig signals Hsig Hall IH]; [reflexivity|].
  cbn [runFrom fold_left]. destruct sig; try contradiction; exact IH.
Qed.

(** A session is a run in which every handler ends before the next event
    arrives. *)
Lemma handle_run (s : State) (ev : Event) :
  runFrom (mkPage s NotSuspended) (signalsOf s ev)
  = mkPage (handle s ev) NotSuspended.
Proof.
  destruct ev as [items| |ocr|render|id v|id v|o|r|b];
    try (cbn [signalsOf runFrom fold_left]; apply step_event; reflexivity).
  - (* Run Agent *)
    cbn [signalsOf handle]. cbv zeta.
    set (call := ocr (ocrInput (images s))).
    change (runFrom (mkPage s NotSuspended)
              ([PressRunAgent]
               ++ (List.map OcrReports (reports call)
                   ++ [OcrSettles (settles call); TimerFires]))
            = mkPage
                (if isProcessing s || (List.length (images s) =? 0)%nat
                 then s else snd (fst (runAgent ocr s)))
                NotSuspended).
    rewrite runFrom_app. cbn [runFrom fold_left step state suspended].
    destruct (isProcessing s || (List.length (images s) =? 0)%nat) eqn:G.
    + apply runFrom_not_awaited. apply Forall_app. split.
      * apply Forall_map. apply Forall_forall. intros; exact I.
      * repeat constructor.
    + apply orb_false_iff in G. destruct G as [_ G].
      assert (Hne : images s <> []).
      { intros E. rewrite E in G. discriminate G. }
      rewrite runFrom_app, runFrom_ocr_reports, fold_withAgentStep.
      cbn [runFrom fold_left step state suspended].
      destruct (settles call) as [results|e] eqn:Hs.
      * rewrite (runAgent_resolved ocr s results Hne Hs).
        destruct s; reflexivity.
      * rewrite (runAgent_rejected ocr s e Hne Hs).
        destruct s; reflexivity.
  - (* Render Video *)
    cbn [signalsOf handle]. cbv zeta.
    set (call := render (renderRequest s)).
    change (runFrom (mkPage s NotSuspended)
              ([PressRenderVideo]
               ++ (List.map RenderReports (reports call)
                   ++ [RenderSettles (settles call)]))
            = mkPage
                (if (List.length (subtitles s) =? 0)%nat || isProcessing s
                 then s else snd (fst (renderVideo render s)))
                NotSuspended).
    rewrite runFrom_app. cbn [runFrom fold_left step state suspended].
    assert (Hlost : runFrom (mkPage s NotSuspended)
                      (List.map RenderReports (reports call)
                       ++ [RenderSettles (settles call)])
                    = mkPage s NotSuspended).
    { apply runFrom_not_awaited. apply Forall_app. split.
      - apply Forall_map. apply Forall_forall. intros; exact I.
      - repeat constructor. }
    destruct ((List.length (subtitles s) =? 0)%nat || isProcessing s) eqn:G;
      [exact Hlost|].
    apply orb_false_iff in G. destruct G as [G _].
    assert (Hsub : subtitles s <> []).
    { intros E. rewrite E in G. discriminate G. }
    destruct (List.length (images s) =? 0)%nat eqn:G'.
    + rewrite Hlost. rewrite renderVideo_guard; [reflexivity|].
      left. destruct (images s); [reflexivity | discriminate G'].
    + assert (Hne : images s <> []).
      { intros E. rewrite E in G'. discriminate G'. }
      rewrite runFrom_app, runFrom_render_reports, fold_withAgentStep.
      cbn [runFrom fold_left step state suspended].
      destruct (settles call) as [url|e] eqn:Hs.
      * rewrite (renderVideo_resolved render s url Hne Hsub Hs).
        destruct s; reflexivity.
      * rewrite (renderVideo_rejected render s e Hne Hsub Hs).
        destruct s; reflexivity.
Qed.

Lemma schedule_run (events : list Event) (s : State) :
  runFrom (mkPage s NotSuspended) (schedule s events)
  = mkPage (fold_left handle events s) NotSuspended.
Proof.
  revert s. induction events as [|ev events IH]; intros s; [reflexivity|].
  cbn [schedule fold_left]. rewrite runFrom_app, handle_run. apply IH.
Qed.

Lemma session_run (events : list Event) :
  run (schedule initialState events) = mkPage (session events) NotSuspended.
Proof. apply schedule_run. Qed.

(** ** Invariants of every run *)

Lemma runFrom_invariant (P : Page -> Prop) :
  (forall p sig, P p -> P (step p sig)) ->
  forall signals p, P p -> P (runFrom p signals).
Proof.
  intros Hstep signals.
  induction signals as [|sig signals IH]; intros p Hp; [exact Hp|].
  cbn [runFrom fold_left]. apply IH, Hstep, Hp.
Qed.

(** User events leave the label, the percent and the busy flag alone. *)
Lemma handle_progress_frame (s : State) (sig : Signal) (ev : Event) :
  eventOf sig = Some ev ->
  agentLabel (handle s ev) = agentLabel s
  /\ agentStep (handle s ev) = agentStep s
  /\ isProcessing (handle s ev) = isProcessing s.
Proof.
  intros H.
  destruct sig; cbn [eventOf] in H; try discriminate H; injection H as <-;
    cbn [handle];
    try solve [destruct (List.length (subtitles s) =? 0)%nat;
               destruct s; repeat split].
  - destruct items; destruct s; repeat split.
  - destruct (isProcessing s) eqn:E; [|destruct s]; repeat split; exact E.
Qed.

Lemma step_floor (p : Page) (sig : Signal) :
  floorHolds (state p) -> floorHolds (state (step p sig)).
Proof.
  intros H. destruct (eventOf sig) as [ev|] eqn:E.
  { rewrite (step_event p sig ev E). cbn [state]. apply handle_floor, H. }
  destruct p as [s susp]. cbn [state] in H.
  destruct sig; try discriminate E; cbn [step state suspended].
  - destruct (isProcessing s || (List.length (images s) =? 0)%nat);
      [exact H | destruct s; exact H].
  - destruct ((List.length (subtitles s) =? 0)%nat || isProcessing s);
      [exact H|].
    destruct (List.length (images s) =? 0)%nat;
      [exact H | destruct s; exact H].
  - destruct susp; exact H.
  - destruct susp as [|captured| |req]; try exact H.
    destruct outcome as [results|e]; [|exact H].
    unfold floorHolds, runAgent_recognized. cbn [state].
    destruct s. cbn.
    eapply Forall_impl; [|apply buildSubtitles_durations].
    cbn. intros; lia.
  - destruct susp; exact H.
  - destruct susp; exact H.
  - destruct susp as [|captured| |req]; try exact H.
    destruct outcome as [url|e]; [|exact H]. destruct s; exact H.
Qed.

Lemma run_floor (signals : list Signal) : floorHolds (state (run signals)).
Proof.
  apply (runFrom_invariant (fun p => floorHolds (state p)) step_floor).
  constructor.
Qed.

Lemma step_fps (p : Page) (sig : Signal) :
  fpsOption (state p) -> fpsOption (state (step p sig)).
Proof.
  intros H. destruct p as [s susp]. cbn [state] in H.
  destruct sig; cbn [step state suspended];
    try solve [destruct (List.length (subtitles s) =? 0)%nat;
               [exact H | destruct s; exact H]].
  - destruct items; [destruct s|]; exact H.
  - destruct (isProcessing s); [|destruct s]; exact H.
  - destruct (isProcessing s || (List.length (images s) =? 0)%nat);
      [exact H | destruct s; exact H].
  - destruct ((List.length (subtitles s) =? 0)%nat || isProcessing s);
      [exact H|].
    destruct (List.length (images s) =? 0)%nat;
      [exact H | destruct s; exact H].
  - destruct (List.length (subtitles s) =? 0)%nat; [exact H|].
    unfold fpsOption. destruct s, o; cbn; lia.
  - destruct susp; exact H.
  - destruct susp as [|captured| |req]; try exact H.
    destruct outcome; destruct s; exact H.
  - destruct susp; exact H.
  - destruct susp; exact H.
  - destruct susp as [|captured| |req]; try exact H.
    destruct outcome; destruct s; exact H.
Qed.

Lemma step_request (p : Page) (sig : Signal) :
  floorHolds (state p) /\ fpsOption (state p) /\ pendingRequest p ->
  floorHolds (state (step p sig)) /\ fpsOption (state (step p sig))
  /\ pendingRequest (step p sig).
Proof.
  intros (Hfloor & Hfps & Hreq).
  split; [apply step_floor, Hfloor|]. split; [apply step_fps, Hfps|].
  destruct (eventOf sig) as [ev|] eqn:E.
  { rewrite (step_event p sig ev E). exact Hreq. }
  destruct p as [s susp]. cbn [state] in Hfloor, Hfps.
  unfold pendingRequest in *. cbn [suspended] in Hreq.
  destruct sig; try discriminate E; cbn [step state suspended].
  - destruct (isProcessing s || (List.length (images s) =? 0)%nat);
      [exact Hreq | exact I].
  - destruct ((List.length (subtitles s) =? 0)%nat || isProcessing s) eqn:G;
      [exact Hreq|].
    destruct (List.length (images s) =? 0)%nat eqn:G'; [exact Hreq|].
    apply orb_false_iff in G. destruct G as [G _].
    cbn [suspended]. unfold wellFormedRequest, renderRequest.
    cbn [pages req_subtitles width height req_fps].
    split; [|split; [|split; [exact Hfloor|split; [|exact Hfps]]]].
    + apply map_nonempty. intros E'. rewrite E' in G'. discriminate G'.
    + intros E'. rewrite E' in G. discriminate G.
    + destruct (resolution s); [left | right]; reflexivity.
  - destruct susp; exact Hreq.
  - destruct susp as [|captured| |req]; try exact Hreq.
    destruct outcome; exact I.
  - destruct susp; exact Hreq.
  - destruct susp; exact Hreq.
  - destruct susp as [|captured| |req]; try exact Hreq.
    destruct outcome; exact I.
Qed.

(** X15. Every request the page sends to the renderer is well formed,
    whatever happened before and whatever arrived while handlers were
    suspended: it has at least one page and one caption, no caption
    shorter than 500 ms, a 1280x720 or 1920x1080 frame and a frame rate
    of 24, 30 or 60. *)
Theorem render_request_wellformed (signals : list Signal)
    (req : RenderRequest)
    (Hsent : suspended (run signals) = AwaitingRender req) :
  wellFormedRequest req.
Proof.
  assert (H : floorHolds (state (run signals))
              /\ fpsOption (state (run signals))
              /\ pendingRequest (run signals)).
  { apply (runFrom_invariant
             (fun p => floorHolds (state p) /\ fpsOption (state p)
                       /\ pendingRequest p) step_request).
    split; [constructor|]. split; [right; left; reflexivity | exact I]. }
  destruct H as (_ & _ & H). unfold pendingRequest in H.
  rewrite Hsent in H. exact H.
Qed.

Lemma render_request_wellformed_witness :
  wellFormedRequest
    (mkRenderRequest
       [(UploadedImage.id page1, UploadedImage.url page1)]
       (buildSubtitles [page1]
          [OcrResult.mk (UploadedImage.id page1) (str "Hello world.")])
       1280 720 30 true).
Proof.
  apply (render_request_wellformed
           [ChooseFiles (Some [page1]); PressRunAgent;
            OcrSettles
              (Resolved
                 [OcrResult.mk (UploadedImage.id page1)
                    (str "Hello world.")]);
            TimerFires; PressRenderVideo]).
  vm_compute. reflexivity.
Defined.

(** While the page is busy, a user event other than a file selection
    leaves the pages, the existence of captions and the busy flag as
    they are. *)
Lemma handle_busy_frame (s : State) (sig : Signal) (ev : Event) :
  eventOf sig = Some ev ->
  match sig with ChooseFiles _ => False | _ => True end ->
  isProcessing s = true ->
  images (handle s ev) = images s
  /\ (subtitles (handle s ev) <> [] <-> subtitles s <> [])
  /\ isProcessing (handle s ev) = true.
Proof.
  intros H Hsig Hbusy.
  destruct sig; cbn [eventOf] in H; try discriminate H; injection H as <-;
    try contradiction; cbn [handle];
    try solve [destruct (List.length (subtitles s) =? 0)%nat;
               [|destruct s]; repeat split; try exact Hbusy; auto].
  - rewrite Hbusy. repeat split; auto.
  - destruct (List.length (subtitles s) =? 0)%nat;
      [repeat split; auto|].
    unfold updateSubtitleText. destruct s. cbn in *.
    split; [reflexivity|]. split; [apply map_nonempty | exact Hbusy].
  - destruct (List.length (subtitles s) =? 0)%nat;
      [repeat split; auto|].
    unfold onDurationChange, updateSubtitleDuration. destruct s. cbn in *.
    split; [reflexivity|]. split; [apply map_nonempty | exact Hbusy].
Qed.

Lemma step_consistent (p : Page) (sig : Signal) :
  match sig, suspended p with
  | ChooseFiles _, AwaitingOcr _ => False
  | ChooseFiles _, AwaitingRender _ => False
  | _, _ => True
  end ->
  consistent (state p) /\ capturedPages p ->
  consistent (state (step p sig)) /\ capturedPages (step p sig).
Proof.
  intros Hcalm [Hc Hcap].
  destruct (eventOf sig) as [ev|] eqn:E.
  { (* user events *)
    rewrite (step_event p sig ev E). cbn [state].
    split; [apply handle_consistent, Hc|].
    destruct p as [s susp]. unfold capturedPages in *.
    cbn [state suspended] in *.
    pose proof (handle_progress_frame s sig ev E) as (_ & _ & Hb).
    destruct susp as [|captured| |req]; [exact I| | |].
    - destruct Hcap as (-> & Hne & Hbusy).
      assert (Hsig : match sig with ChooseFiles _ => False | _ => True end)
        by (destruct sig; try exact I; exact Hcalm).
      destruct (handle_busy_frame s sig ev E Hsig Hbusy) as (Hi & _ & Hb').
      rewrite Hi. repeat split; assumption.
    - rewrite Hb. exact Hcap.
    - destruct Hcap as (Hi & Hs & Hbusy).
      assert (Hsig : match sig with ChooseFiles _ => False | _ => True end)
        by (destruct sig; try exact I; exact Hcalm).
      destruct (handle_busy_frame s sig ev E Hsig Hbusy) as (Hi' & Hs' & Hb').
      rewrite Hi'. split; [exact Hi|]. split; [apply Hs', Hs | exact Hb']. }
  destruct p as [s susp]. unfold capturedPages in *.
  cbn [state suspended] in *. pose proof Hc as (Ho & Hs & Hv & Hf).
  destruct sig; try discriminate E; cbn [step state suspended].
  - (* Run Agent *)
    destruct (isProcessing s || (List.length (images s) =? 0)%nat) eqn:G;
      [split; assumption|].
    apply orb_false_iff in G. destruct G as [_ G]. cbn [state suspended].
    split; [destruct s; exact Hc|].
    split; [destruct s; reflexivity|].
    split; [|destruct s; reflexivity].
    intros E'. rewrite E' in G. discriminate G.
  - (* Render Video *)
    destruct ((List.length (subtitles s) =? 0)%nat || isProcessing s) eqn:G;
      [split; assumption|].
    destruct (List.length (images s) =? 0)%nat eqn:G'; [split; assumption|].
    apply orb_false_iff in G. destruct G as [G _]. cbn [state suspended].
    split; [destruct s; exact Hc|].
    split; [|split; [|destruct s; reflexivity]].
    + destruct s; cbn in *. intros E'. rewrite E' in G'. discriminate G'.
    + destruct s; cbn in *. intros E'. rewrite E' in G. discriminate G.
  - (* a report of the OCR service *)
    destruct susp as [|captured| |req]; split; assumption.
  - (* the OCR call settles *)
    destruct susp as [|captured| |req]; try (split; assumption).
    destruct Hcap as (-> & Hne & Hbusy).
    destruct outcome as [results|e]; cbn [state suspended];
      [|split; [exact Hc | exact I]].
    split; [|destruct s; exact Hbusy].
    unfold consistent, runAgent_recognized. destruct s. cbn in *.
    split; [intros _; exact Hne|]. split; [intros _; exact Hne|].
    split; [|exact Hf]. intros _.
    split; [exact Hne | apply buildSubtitles_nonempty; exact Hne].
  - (* the timer *)
    destruct susp as [|captured| |req]; split; try assumption; exact I.
  - (* a report of the renderer *)
    destruct susp as [|captured| |req]; split; assumption.
  - (* the render call settles *)
    destruct susp as [|captured| |req]; try (split; assumption).
    destruct Hcap as (Hi & Hsub & Hbusy).
    destruct outcome as [url|e]; cbn [state suspended];
      [|split; [exact Hc | exact I]].
    split; [|exact I].
    unfold consistent, renderVideo_finish. destruct s. cbn in *.
    split; [exact Ho|]. split; [exact Hs|]. split; [|exact Hf].
    intros _. split; assumption.
Qed.

Lemma runFrom_consistent (signals : list Signal) (p : Page) :
  undisturbedFrom p signals ->
  consistent (state p) /\ capturedPages p ->
  consistent (state (runFrom p signals))
  /\ capturedPages (runFrom p signals).
Proof.
  revert p. induction signals as [|sig signals IH]; intros p Hcalm Hp;
    [exact Hp|].
  destruct Hcalm as [Hsig Hrest]. cbn [runFrom fold_left].
  apply IH; [exact Hrest|]. apply step_consistent; assumption.
Qed.

(** X14. As long as no file is chosen while a collaborator's call is in
    flight, whatever else happens and whatever the collaborators do: OCR
    results and captions exist only while there are pages, a video only
    while there are pages and captions, and the frame rate is 24, 30 or
    60. *)
Theorem page_consistent (signals : list Signal)
    (Hcalm : undisturbedFrom initialPage signals) :
  let s := state (run signals) in
  (ocrResults s <> [] -> images s <> [])
  /\ (subtitles s <> [] -> images s <> [])
  /\ (videoUrl s <> None -> images s <> [] /\ subtitles s <> [])
  /\ (fps s = 24 \/ fps s = 30 \/ fps s = 60).
Proof.
  cbv zeta. apply (runFrom_consistent signals initialPage Hcalm).
  split; [|exact I].
  unfold consistent. cbn. repeat split; try congruence. lia.
Qed.

Lemma page_consistent_witness :
  images
    (state
       (run [ChooseFiles (Some [page1]); PressRunAgent; OcrReports (1 # 2);
             TypeText (str "a") (str "A"); OcrSettles (Resolved []);
             ChooseFps Fps60; TimerFires]))
  <> [].
Proof.
  assert (Hcalm : undisturbedFrom initialPage
                    [ChooseFiles (Some [page1]); PressRunAgent;
                     OcrReports (1 # 2); TypeText (str "a") (str "A");
                     OcrSettles (Resolved []); ChooseFps Fps60; TimerFires])
    by (cbn; repeat split).
  destruct (page_consistent _ Hcalm) as (_ & Hcaptions & _).
  apply Hcaptions. vm_compute. discriminate.
Defined.

(** X24. A file selection made while the OCR call is in flight is partly
    undone when the call resolves: the page list is the new selection,
    but the results are set again and the captions are built from the
    pages that were there when Run Agent was clicked. With an empty new
    selection the page ends with captions and no page. *)
Theorem selection_during_recognition (s : State)
    (items : list UploadedImage.t) (results : list OcrResult.t)
    (Hidle : isProcessing s = false) (Hpages : images s <> []) :
  let p :=
    runFrom (mkPage s NotSuspended)
      [PressRunAgent; ChooseFiles (Some items);
       OcrSettles (Resolved results); TimerFires] in
  suspended p = NotSuspended
  /\ images (state p) = items
  /\ ocrResults (state p) = results
  /\ subtitles (state p) = buildSubtitles (images s) results
  /\ videoUrl (state p) = None
  /\ agentLabel (state p) = str "Ready to render"
  /\ agentStep (state p) = 65
  /\ isProcessing (state p) = false
  /\ (items = [] -> subtitles (state p) <> [] /\ images (state p) = []).
Proof.
  cbv zeta. cbn [runFrom fold_left]. cbn [step state suspended].
  rewrite Hidle. cbn [orb].
  destruct (images s) as [|i imgs] eqn:E; [congruence|].
  cbn [List.length Nat.eqb]. cbn [step state suspended].
  do 8 (split; [destruct s; reflexivity|]).
  intros ->. split; [|destruct s; reflexivity].
  destruct s. cbn in *. subst.
  apply buildSubtitles_nonempty. discriminate.
Qed.

Lemma selection_during_recognition_witness :
  subtitles
    (state
       (runFrom (mkPage loaded NotSuspended)
          [PressRunAgent; ChooseFiles (Some []);
           OcrSettles (Resolved []); TimerFires]))
  = buildSubtitles (images loaded) []
  /\ images
       (state
          (runFrom (mkPage loaded NotSuspended)
             [PressRunAgent; ChooseFiles (Some []);
              OcrSettles (Resolved []); TimerFires]))
     = [].
Proof.
  destruct (selection_during_recognition loaded [] [] eq_refl
              ltac:(discriminate))
    as (_ & Hi & _ & Hs & _).
  split; [exact Hs | exact Hi].
Defined.

Lemma step_stage (p : Page) (sig : Signal) :
  pageStage p -> pageStage (step p sig).
Proof.
  intros H. destruct (eventOf sig) as [ev|] eqn:E.
  { rewrite (step_event p sig ev E).
    destruct p as [s susp]. unfold pageStage in *.
    cbn [state suspended] in *.
    destruct (handle_progress_frame s sig ev E) as (Hl & Hp & Hb).
    destruct susp; [apply handle_stage, H | | |]; rewrite Hl, Hb;
      try rewrite Hp; exact H. }
  destruct p as [s susp]. unfold pageStage in *. cbn [state suspended] in *.
  destruct sig; try discriminate E; cbn [step state suspended].
  - destruct (isProcessing s || (List.length (images s) =? 0)%nat);
      [exact H|].
    cbn [state suspended]. destruct s; split; reflexivity.
  - destruct ((List.length (subtitles s) =? 0)%nat || isProcessing s);
      [exact H|].
    destruct (List.length (images s) =? 0)%nat; [exact H|].
    cbn [state suspended]. destruct s; split; reflexivity.
  - destruct susp; exact H.
  - destruct susp as [|captured| |req]; try exact H.
    destruct H as [Hl Hb].
    destruct outcome as [results|e]; cbn [state suspended].
    + destruct s; cbn in *. repeat split. exact Hb.
    + right; right; right; left. split; assumption.
  - destruct susp; try exact H. cbn [state suspended].
    right; left. destruct s; repeat split.
  - destruct susp; exact H.
  - destruct susp as [|captured| |req]; try exact H.
    destruct H as [Hl Hb].
    destruct outcome as [url|e]; cbn [state suspended].
    + right; right; left. destruct s; repeat split.
    + right; right; right; right. split; assumption.
Qed.

Lemma run_stage (signals : list Signal) : pageStage (run signals).
Proof.
  apply (runFrom_invariant pageStage step_stage).
  left. repeat split.
Qed.

(** X22. At every moment, also while a handler is suspended, the label
    tells the stage: "Idle" only at 0 percent with no results, captions
    or video; "Ready to render" at 65 and "Completed" at 100, both not
    busy; "Planning camera motions" at 50 during the pause. The page is
    busy exactly under the labels "Analyzing pages with OCR", "Planning
    camera motions" and "Rendering animation to video", a suspended
    handler keeps it busy, and "Building screenplay" is never what the
    page shows. *)
Theorem label_tracks_stage (signals : list Signal) :
  let p := run signals in
  let s := state p in
  pageStage p
  /\ (isProcessing s = true
      <-> agentLabel s = str "Analyzing pages with OCR"
          \/ agentLabel s = str "Planning camera motions"
          \/ agentLabel s = str "Rendering animation to video")
  /\ (suspended p <> NotSuspended -> isProcessing s = true)
  /\ (agentLabel s = str "Planning camera motions" ->
      suspended p = AwaitingTimer)
  /\ agentLabel s <> str "Building screenplay".
Proof.
  cbv zeta. pose proof (run_stage signals) as H.
  split; [exact H|].
  destruct (run signals) as [s susp]. unfold pageStage in H.
  cbn [state suspended] in *.
  destruct susp as [|captured| |req].
  - destruct H
      as [(L & _ & B & _)|[(L & _ & B)|[(L & _ & B)|[(L & B)|(L & B)]]]];
      rewrite L, B; repeat split; try discriminate; try tauto;
      try congruence;
      try (intros [E|[E|E]]; discriminate E).
  - destruct H as (L & B). rewrite L, B.
    repeat split; try discriminate; try tauto.
  - destruct H as (L & _ & B). rewrite L, B.
    repeat split; try discriminate; try tauto.
  - destruct H as (L & B). rewrite L, B.
    repeat split; try discriminate; try tauto.
Qed.

Lemma cuesFrom_nth_inv (subs : list SubtitleItem.t) (t : Z) (k : nat)
    (start end_ : Z) (text : jsstring) :
  nth_error (cuesFrom t subs) k = Some (start, end_, text) ->
  exists u,
    nth_error subs k = Some u
    /\ start = t + totalMs (firstn k subs)
    /\ end_ = start + SubtitleItem.durationMs u
    /\ text = SubtitleItem.text u.
Proof.
  intros H. destruct (nth_error subs k) as [u|] eqn:E.
  - exists u. rewrite (cuesFrom_nth t subs k u E) in H.
    injection H as <- <- <-. repeat split.
  - exfalso. apply nth_error_None in E.
    assert (Hlen : List.length (cuesFrom t subs) = List.length subs).
    { clear. revert t. induction subs as [|v subs IH]; intros t;
        [reflexivity|].
      cbn [cuesFrom List.length]. f_equal. apply IH. }
    assert (nth_error (cuesFrom t subs) k = None)
      by (apply nth_error_None; lia).
    congruence.
Qed.

(** X23. Whatever has happened on the page, as long as the captions add
    up to [MAX_SAFE_INTEGER] ms at most, the subtitle file it exports
    has cues that never overlap: each entry's four lines carry its
    number, its times and its text, every cue lasts at least 500 ms, and
    each cue starts at the instant the one before it ends. *)
Theorem exported_cues_contiguous (signals : list Signal) (k : nat)
    (start end_ : Z) (text : jsstring)
    (Hsafe : totalMs (subtitles (state (run signals))) <= MAX_SAFE_INTEGER)
    (Hk : nth_error (cues (subtitles (state (run signals)))) k
          = Some (start, end_, text)) :
  let subs := subtitles (state (run signals)) in
  firstn 4 (skipn (4 * k) (srtLines subs))
  = [ toString (Z.of_nat k + 1);
      fmt start ++ str " --> " ++ fmt end_;
      text;
      [] ]
  /\ 0 <= start /\ start + 500 <= end_ /\ end_ <= MAX_SAFE_INTEGER
  /\ (forall start' end' text',
        nth_error (cues subs) (S k) = Some (start', end', text') ->
        start' = end_).
Proof.
  cbv zeta. pose proof (run_floor signals) as Hfloor.
  set (subs := subtitles (state (run signals))) in *.
  assert (Hnonneg : Forall (fun u => 0 <= SubtitleItem.durationMs u) subs).
  { eapply Forall_impl; [|exact Hfloor]. cbn. intros; lia. }
  destruct (cuesFrom_nth_inv subs 0 k start end_ text Hk)
    as (u & Hu & Hstart & Hend & _).
  destruct (totalMs_nth subs Hnonneg k u Hu) as [H0 H1].
  destruct (cuesFrom_ordered subs Hfloor 0 k start end_ text Hk)
    as (Hs & Hlen & Hnext).
  split.
  - rewrite srtLines_entries by (split; assumption).
    rewrite (entriesFrom_nth 1 k _ _ _ _ Hk).
    rewrite !fmt_clock by lia.
    replace (Z.of_nat (1 + k)) with (Z.of_nat k + 1) by lia. reflexivity.
  - repeat split; try assumption. lia.
Qed.

Lemma exported_cues_contiguous_witness :
  firstn 4
    (skipn (4 * 1)
       (srtLines
          (subtitles
             (state
                (run [ChooseFiles (Some [page1]); PressRunAgent;
                      OcrSettles
                        (Resolved
                           [OcrResult.mk (UploadedImage.id page1)
                              (str "Hi. There.")]);
                      TypeDuration (str "1700000000000-0-0") (str "12");
                      TimerFires])))))
  = [ toString 2; fmt 500 ++ str " --> " ++ fmt 2000; str "There."; [] ].
Proof.
  apply (exported_cues_contiguous
           [ChooseFiles (Some [page1]); PressRunAgent;
            OcrSettles
              (Resolved
                 [OcrResult.mk (UploadedImage.id page1)
                    (str "Hi. There.")]);
            TypeDuration (str "1700000000000-0-0") (str "12");
            TimerFires]
           1 500 2000 (str "There.")).
  - vm_compute. discriminate.
  - vm_compute. reflexivity.
Defined.
